(** * Apollo, macOS screen capture: frame hand-off, session and encode device

    A shallow embedding of
    - [src/platform/macos/display.mm]       ([sc_display_t], [platf::display]),
    - [src/platform/macos/screencapture.mm] ([ApolloScreenCapture]),
    - [src/platform/macos/nv12_zero_device.cpp] ([nv12_zero_device]),
    followed by the properties of the design document that it settles.

    Conventions.  A C [int] is a [Z] with the conversion written out
    ([to_int]); a raw pointer or a native handle is a [Z] or an [option];
    a [std::shared_ptr] is an [option nat] naming a control block of a heap
    that stores the use count next to the object.  Code that blocks on a
    semaphore consumes a list of native events, the order in which the
    capture framework calls back into the session. *)

From Stdlib Require Import ZArith Lia List Bool String Ascii DecimalString DecimalPos.
From stdpp Require Import base option gmap list.

Local Open Scope Z_scope.

(** ** Machine integers *)

Definition int_min : Z := - 2 ^ 31.
Definition int_max : Z := 2 ^ 31 - 1.

(** [(int) x]: conversion to a 32-bit signed integer, modulo 2^32. *)
Definition to_int (x : Z) : Z := (x + 2 ^ 31) mod 2 ^ 32 - 2 ^ 31.

(** Conversion to [unsigned int]. *)
Definition to_uint (x : Z) : Z := x mod 2 ^ 32.

(** Conversion to [size_t], 64 bits wide on macOS: a negative [int] [-n]
    becomes [2^64 - n]. *)
Definition to_size_t (x : Z) : Z := x mod 2 ^ 64.

(** [a / b] on [int]: truncating division, undefined for a zero divisor and
    for [INT_MIN / -1]. *)
Definition int_div (a b : Z) : option Z :=
  if b =? 0 then None
  else if (a =? int_min) && (b =? -1) then None
  else Some (Z.quot a b).

(** ** Native objects (CoreMedia / CoreVideo)

    What the framework answers when the code queries a buffer.  A
    [CVPixelBufferRef] may be [NULL]: a sample need not carry an image. *)

Record CVPixelBuffer := {
  pb_handle : nat;
  pb_width : Z;            (* size_t *)
  pb_height : Z;           (* size_t *)
  pb_bytes_per_row : Z;    (* size_t *)
  pb_base_address : Z      (* void * *)
}.

Definition CVPixelBufferRef := option CVPixelBuffer.

Record CMSampleBuffer := {
  sb_handle : nat;
  sb_image_buffer : CVPixelBufferRef
}.

Definition CMSampleBufferRef := CMSampleBuffer.

Definition CMSampleBufferGetImageBuffer (sb : CMSampleBufferRef) : CVPixelBufferRef :=
  sb_image_buffer sb.

Definition CVPixelBufferGetWidth (b : CVPixelBufferRef) : Z :=
  match b with Some p => pb_width p | None => 0 end.

Definition CVPixelBufferGetHeight (b : CVPixelBufferRef) : Z :=
  match b with Some p => pb_height p | None => 0 end.

Definition CVPixelBufferGetBytesPerRow (b : CVPixelBufferRef) : Z :=
  match b with Some p => pb_bytes_per_row p | None => 0 end.

Definition CVPixelBufferGetBaseAddress (b : CVPixelBufferRef) : Z :=
  match b with Some p => pb_base_address p | None => 0 end.

(** ** Buffer wrappers and the image ([av_img_t.h]) *)

(** Modelled from the spec: the header [av_img_t.h] is not part of the
    sources.  A Native Sample Wrapper owns one native capture sample for its
    lifetime. *)
Record av_sample_buf_t := { sample_buf : CMSampleBufferRef }.

(** Modelled from the spec: a Native Pixel Wrapper owns the pixel buffer
    extracted from a sample; [data()] is the buffer's base address. *)
Record av_pixel_buf_t := { pixel_buf : CVPixelBufferRef }.

Definition av_pixel_buf_data (p : av_pixel_buf_t) : Z :=
  CVPixelBufferGetBaseAddress (pixel_buf p).

(** A [std::shared_ptr<T>]: null, or the name of a control block. *)
Definition shared_ptr := option nat.

(** [av_img_t], with the fields of its base [img_t] that the capture code
    writes. *)
Record av_img_t := {
  data : Z;
  width : Z;
  height : Z;
  row_pitch : Z;
  pixel_pitch : Z;
  sample_buffer : shared_ptr;
  pixel_buffer : shared_ptr
}.

(** [std::make_shared<av_img_t>()]: zero-initialised, bound to no buffer. *)
Definition alloc_img : av_img_t :=
  {| data := 0; width := 0; height := 0; row_pitch := 0; pixel_pitch := 0;
     sample_buffer := None; pixel_buffer := None |}.

(** Modelled from the spec: the Retain Guard of [av_img_t.h], a joint owner
    of the previous sample wrapper, pixel wrapper and data pointer. *)
Record temp_retain_av_img_t := {
  retained_sample : shared_ptr;
  retained_pixel : shared_ptr;
  retained_data : Z
}.

Definition set_sample_buffer_field (p : shared_ptr) (i : av_img_t) : av_img_t :=
  {| data := data i; width := width i; height := height i;
     row_pitch := row_pitch i; pixel_pitch := pixel_pitch i;
     sample_buffer := p; pixel_buffer := pixel_buffer i |}.

Definition set_pixel_buffer_field (p : shared_ptr) (i : av_img_t) : av_img_t :=
  {| data := data i; width := width i; height := height i;
     row_pitch := row_pitch i; pixel_pitch := pixel_pitch i;
     sample_buffer := sample_buffer i; pixel_buffer := p |}.

Definition set_data_field (d : Z) (i : av_img_t) : av_img_t :=
  {| data := d; width := width i; height := height i;
     row_pitch := row_pitch i; pixel_pitch := pixel_pitch i;
     sample_buffer := sample_buffer i; pixel_buffer := pixel_buffer i |}.

Definition set_width_field (x : Z) (i : av_img_t) : av_img_t :=
  {| data := data i; width := x; height := height i;
     row_pitch := row_pitch i; pixel_pitch := pixel_pitch i;
     sample_buffer := sample_buffer i; pixel_buffer := pixel_buffer i |}.

Definition set_height_field (x : Z) (i : av_img_t) : av_img_t :=
  {| data := data i; width := width i; height := x;
     row_pitch := row_pitch i; pixel_pitch := pixel_pitch i;
     sample_buffer := sample_buffer i; pixel_buffer := pixel_buffer i |}.

Definition set_row_pitch_field (x : Z) (i : av_img_t) : av_img_t :=
  {| data := data i; width := width i; height := height i;
     row_pitch := x; pixel_pitch := pixel_pitch i;
     sample_buffer := sample_buffer i; pixel_buffer := pixel_buffer i |}.

Definition set_pixel_pitch_field (x : Z) (i : av_img_t) : av_img_t :=
  {| data := data i; width := width i; height := height i;
     row_pitch := row_pitch i; pixel_pitch := x;
     sample_buffer := sample_buffer i; pixel_buffer := pixel_buffer i |}.

(** ** Shared ownership: control blocks with use counts *)

Section SharedPtr.
Context {T : Type}.

(** [std::make_shared<T>(obj)]: a fresh control block with use count 1. *)
Definition sp_make (obj : T) (h : gmap nat (T * nat)) : nat * gmap nat (T * nat) :=
  let id := fresh (dom h) in (id, <[id := (obj, 1%nat)]> h).

(** Copying a [shared_ptr]: one more owner.  [None] when the pointer names
    a control block that no longer exists. *)
Definition sp_acquire (p : shared_ptr) (h : gmap nat (T * nat)) : option (gmap nat (T * nat)) :=
  match p with
  | None => Some h
  | Some id =>
      match h !! id with
      | Some (obj, n) => Some (<[id := (obj, S n)]> h)
      | None => None
      end
  end.

(** Destroying or overwriting a [shared_ptr]: one owner less; the object is
    destroyed (its native buffer released) when the last owner goes. *)
Definition sp_release (p : shared_ptr) (h : gmap nat (T * nat)) : option (gmap nat (T * nat)) :=
  match p with
  | None => Some h
  | Some id =>
      match h !! id with
      | Some (obj, S (S n)) => Some (<[id := (obj, S n)]> h)
      | Some (obj, _) => Some (delete id h)
      | None => None
      end
  end.

(** The object behind a pointer is still alive. *)
Definition sp_alive (p : shared_ptr) (h : gmap nat (T * nat)) : bool :=
  match p with
  | None => true
  | Some id => bool_decide (is_Some (h !! id))
  end.
End SharedPtr.

(** ** The capture session object ([ApolloScreenCapture]) *)

Definition OSType := Z.

(** Four-character codes of [CVPixelBuffer.h]. *)
Definition kCVPixelFormatType_32BGRA : OSType := 0x42475241.                       (* 'BGRA' *)
Definition kCVPixelFormatType_420YpCbCr8BiPlanarVideoRange : OSType := 0x34323076.  (* '420v' *)
Definition kCVPixelFormatType_420YpCbCr10BiPlanarVideoRange : OSType := 0x78343230. (* 'x420' *)

Inductive SCStreamOutputType :=
| SCStreamOutputTypeScreen
| SCStreamOutputTypeAudio
| SCStreamOutputTypeMicrophone.

(** The two blocks that [display.mm] installs as [frameCallback]. *)
Inductive SCFrameCallbackBlock :=
| capture_frame_block                 (* the block of [sc_display_t::capture] *)
| dummy_img_frame_block (img : nat).  (* the block of [sc_display_t::dummy_img], closed over [img] *)

Record SCStreamConfiguration := {
cfg_width : Z;        (* size_t *)
cfg_height : Z;       (* size_t *)
cfg_pixelFormat : OSType;
cfg_frameRate : Z;
cfg_queueDepth : Z;
cfg_showsCursor : bool
}.

Record ApolloScreenCapture := {
displayID : Z;
frameWidth : Z;
frameHeight : Z;
frameRate : Z;
pixelFormat : OSType;
captureHDR : bool;
streamConfig : option SCStreamConfiguration;
frameCallback : option SCFrameCallbackBlock;
captureSemaphore : option nat;      (* nil, or the count of the semaphore *)
isCapturing : bool
}.

(** Messages sent to the [SCStream]; their completion handlers run later,
  as native events. *)
Inductive stream_request :=
| startCaptureWithCompletionHandler
| stopCaptureWithCompletionHandler
| updateConfiguration (cfg : SCStreamConfiguration).

#[global] Instance SCStreamConfiguration_eq_dec : EqDecision SCStreamConfiguration.
Proof. solve_decision. Defined.

#[global] Instance stream_request_eq_dec : EqDecision stream_request.
Proof. solve_decision. Defined.

Definition set_pixelFormat (f : OSType) (s : ApolloScreenCapture) : ApolloScreenCapture :=
{| displayID := displayID s; frameWidth := frameWidth s; frameHeight := frameHeight s;
   frameRate := frameRate s; pixelFormat := f; captureHDR := captureHDR s;
   streamConfig := streamConfig s; frameCallback := frameCallback s;
   captureSemaphore := captureSemaphore s; isCapturing := isCapturing s |}.

Definition set_isCapturing (b : bool) (s : ApolloScreenCapture) : ApolloScreenCapture :=
{| displayID := displayID s; frameWidth := frameWidth s; frameHeight := frameHeight s;
   frameRate := frameRate s; pixelFormat := pixelFormat s; captureHDR := captureHDR s;
   streamConfig := streamConfig s; frameCallback := frameCallback s;
   captureSemaphore := captureSemaphore s; isCapturing := b |}.

Definition set_captureSemaphore (c : option nat) (s : ApolloScreenCapture) : ApolloScreenCapture :=
{| displayID := displayID s; frameWidth := frameWidth s; frameHeight := frameHeight s;
   frameRate := frameRate s; pixelFormat := pixelFormat s; captureHDR := captureHDR s;
   streamConfig := streamConfig s; frameCallback := frameCallback s;
   captureSemaphore := c; isCapturing := isCapturing s |}.

Definition set_frameCallback (cb : option SCFrameCallbackBlock) (s : ApolloScreenCapture)
: ApolloScreenCapture :=
{| displayID := displayID s; frameWidth := frameWidth s; frameHeight := frameHeight s;
   frameRate := frameRate s; pixelFormat := pixelFormat s; captureHDR := captureHDR s;
   streamConfig := streamConfig s; frameCallback := cb;
   captureSemaphore := captureSemaphore s; isCapturing := isCapturing s |}.

(** The assignments of [-setFrameWidth:frameHeight:], lines 143-148: the two
    [int] properties of the session, and the two [size_t] properties of the
    stream configuration when there is one. *)
Definition set_frame_size (w h : Z) (s : ApolloScreenCapture) : ApolloScreenCapture :=
{| displayID := displayID s; frameWidth := w; frameHeight := h;
   frameRate := frameRate s; pixelFormat := pixelFormat s; captureHDR := captureHDR s;
   streamConfig :=
     match streamConfig s with
     | Some c => Some {| cfg_width := to_size_t w; cfg_height := to_size_t h;
                         cfg_pixelFormat := cfg_pixelFormat c;
                         cfg_frameRate := cfg_frameRate c; cfg_queueDepth := cfg_queueDepth c;
                         cfg_showsCursor := cfg_showsCursor c |}
     | None => None
     end;
   frameCallback := frameCallback s;
   captureSemaphore := captureSemaphore s; isCapturing := isCapturing s |}.

(** [-setFrameWidth:frameHeight:], lines 142-158: the session afterwards and
    the messages sent to the stream. *)
Definition setFrameWidth_frameHeight (frameWidth frameHeight : Z) (s : ApolloScreenCapture)
  : ApolloScreenCapture * list stream_request :=
  let s' := set_frame_size frameWidth frameHeight s in
  match streamConfig s' with
  | Some cfg => (s', if isCapturing s' then [updateConfiguration cfg] else [])
  | None => (s', [])
  end.

(** Results of [display_t::capture].

  Modelled from the spec: [capture_e] is declared in [src/platform/common.h],
  which is not part of the sources; the spec names the results
  ok, error and timeout. *)
Inductive capture_e := capture_ok | capture_error | capture_timeout.

(** ** The world of a capture session, and the monad of its code *)

(** Outcome of a piece of code: it returns, it runs into undefined behaviour
  (a null or dangling pointer, a division by zero), or it is still blocked
  on the semaphore when the native events run out. *)
Inductive res (A : Type) :=
| Ret (a : A)
| UB
| Blocked.
Arguments Ret {A} a.
Arguments UB {A}.
Arguments Blocked {A}.

(** Events by which the capture framework and other threads reach the
  session while a caller waits on the capture semaphore. *)
Inductive native_event :=
| StartCompleted (error : bool)     (* completion handler of startCapture *)
| StopCompleted (error : bool)      (* completion handler of stopCapture *)
| DidOutputSampleBuffer (sampleBuffer : CMSampleBufferRef) (type : SCStreamOutputType)
| DidStopWithError
| StopCaptureCalled.                (* another thread sends -stopCapture *)

(** The consumer of frames: its state [C] and the two callbacks handed to
    [capture].  [pull_free_image_cb] answers with its [bool] and the
    [img_out] it stored; [push_captured_image_cb] is given the image, as it
    is at the hand-over, and the cursor flag.  The block of [capture] holds
    the two callbacks by reference ([display.mm], line 41), so they are there
    for the frames delivered while the call waits, which is what [capture]
    below runs; a frame delivered after the call has returned is not
    covered. *)
Class Consumer (C : Type) := {
  pull_free_image_cb : C -> (bool * option nat) * C;
  push_captured_image_cb : nat -> av_img_t -> bool -> C -> bool * C
}.

Section Capture.

Context {C : Type} {consumer_callbacks : Consumer C}.

Record world := {
  images : gmap nat av_img_t;                      (* image objects, mutated in place *)
  samples : gmap nat (av_sample_buf_t * nat);      (* live sample wrappers, use counts *)
  pixels : gmap nat (av_pixel_buf_t * nat);        (* live pixel wrappers, use counts *)
  old_data_retainer : option temp_retain_av_img_t; (* the block's local of that name *)
  consumer : C;
  pushed : list (nat * av_img_t);                  (* images handed to push_captured_image_cb *)
  sc_capture : ApolloScreenCapture;
  requests : list stream_request                   (* messages sent to the stream *)
}.

Definition with_images (m : gmap nat av_img_t) (w : world) : world :=
  {| images := m; samples := samples w; pixels := pixels w;
     old_data_retainer := old_data_retainer w; consumer := consumer w;
     pushed := pushed w; sc_capture := sc_capture w; requests := requests w |}.

Definition with_samples (m : gmap nat (av_sample_buf_t * nat)) (w : world) : world :=
  {| images := images w; samples := m; pixels := pixels w;
     old_data_retainer := old_data_retainer w; consumer := consumer w;
     pushed := pushed w; sc_capture := sc_capture w; requests := requests w |}.

Definition with_pixels (m : gmap nat (av_pixel_buf_t * nat)) (w : world) : world :=
  {| images := images w; samples := samples w; pixels := m;
     old_data_retainer := old_data_retainer w; consumer := consumer w;
     pushed := pushed w; sc_capture := sc_capture w; requests := requests w |}.

Definition with_retainer (g : option temp_retain_av_img_t) (w : world) : world :=
  {| images := images w; samples := samples w; pixels := pixels w;
     old_data_retainer := g; consumer := consumer w;
     pushed := pushed w; sc_capture := sc_capture w; requests := requests w |}.

Definition with_consumer (c : C) (w : world) : world :=
  {| images := images w; samples := samples w; pixels := pixels w;
     old_data_retainer := old_data_retainer w; consumer := c;
     pushed := pushed w; sc_capture := sc_capture w; requests := requests w |}.

Definition with_pushed (l : list (nat * av_img_t)) (w : world) : world :=
  {| images := images w; samples := samples w; pixels := pixels w;
     old_data_retainer := old_data_retainer w; consumer := consumer w;
     pushed := l; sc_capture := sc_capture w; requests := requests w |}.

Definition with_sc (s : ApolloScreenCapture) (w : world) : world :=
  {| images := images w; samples := samples w; pixels := pixels w;
     old_data_retainer := old_data_retainer w; consumer := consumer w;
     pushed := pushed w; sc_capture := s; requests := requests w |}.

Definition with_requests (l : list stream_request) (w : world) : world :=
  {| images := images w; samples := samples w; pixels := pixels w;
     old_data_retainer := old_data_retainer w; consumer := consumer w;
     pushed := pushed w; sc_capture := sc_capture w; requests := l |}.

Definition M (A : Type) : Type := world -> res A * world.

Definition ret {A} (a : A) : M A := fun w => (Ret a, w).

Definition bind {A B} (m : M A) (k : A -> M B) : M B :=
  fun w =>
    match m w with
    | (Ret a, w') => k a w'
    | (UB, w') => (UB, w')
    | (Blocked, w') => (Blocked, w')
    end.

Definition undefined {A} : M A := fun w => (UB, w).
Definition modify (f : world -> world) : M unit := fun w => (Ret tt, f w).
Definition gets {A} (f : world -> A) : M A := fun w => (Ret (f w), w).

(** An operation that is undefined where [f] has no answer. *)
Definition try_modify (f : world -> option world) : M unit :=
  fun w => match f w with Some w' => (Ret tt, w') | None => (UB, w) end.

Definition of_option {A} (o : option A) : M A :=
  match o with Some a => ret a | None => undefined end.

Notation "x <- m ;; k" := (bind m (fun x => k))
  (at level 200, m at level 99, k at level 200, only parsing).
Notation "m ;;; k" := (bind m (fun _ => k))
  (at level 200, k at level 200, only parsing).

(** *** Primitive accesses *)

Definition load_img (img : nat) : M av_img_t :=
  i <- gets (fun w => images w !! img) ;; of_option i.

Definition store_img (img : nat) (i : av_img_t) : M unit :=
  modify (fun w => with_images (<[img := i]> (images w)) w).

Definition load_pixel_buf (p : nat) : M av_pixel_buf_t :=
  o <- gets (fun w => pixels w !! p) ;; of_option (fst <$> o).

Definition load_sample_buf (p : nat) : M av_sample_buf_t :=
  o <- gets (fun w => samples w !! p) ;; of_option (fst <$> o).

Definition acquire_sample (p : shared_ptr) : M unit :=
  try_modify (fun w => (fun h => with_samples h w) <$> sp_acquire p (samples w)).
Definition release_sample (p : shared_ptr) : M unit :=
  try_modify (fun w => (fun h => with_samples h w) <$> sp_release p (samples w)).
Definition acquire_pixel (p : shared_ptr) : M unit :=
  try_modify (fun w => (fun h => with_pixels h w) <$> sp_acquire p (pixels w)).
Definition release_pixel (p : shared_ptr) : M unit :=
  try_modify (fun w => (fun h => with_pixels h w) <$> sp_release p (pixels w)).

(** [std::make_shared<av_sample_buf_t>(sampleBuffer)] *)
Definition make_shared_sample (sb : CMSampleBufferRef) : M nat :=
  fun w => let '(id, h) := sp_make {| sample_buf := sb |} (samples w) in
           (Ret id, with_samples h w).

(** [std::make_shared<av_pixel_buf_t>(sb)] *)
Definition make_shared_pixel (sb : CMSampleBufferRef) : M nat :=
  fun w => let '(id, h) := sp_make {| pixel_buf := CMSampleBufferGetImageBuffer sb |} (pixels w) in
           (Ret id, with_pixels h w).

(** *** The hand-off on one delivered buffer ([display.mm], lines 52-67 and 114-129)

    The two blocks run the same nine statements on their target image; each
    statement is one step, so that the states in between can be inspected. *)

(** [auto old_data_retainer = std::make_shared<temp_retain_av_img_t>(
      av_img->sample_buffer, av_img->pixel_buffer, img->data);] *)
Definition make_retainer (img : nat) : M unit :=
  i <- load_img img ;;
  acquire_sample (sample_buffer i) ;;;
  acquire_pixel (pixel_buffer i) ;;;
  modify (with_retainer (Some {| retained_sample := sample_buffer i;
                                 retained_pixel := pixel_buffer i;
                                 retained_data := data i |})).

(** [av_img->sample_buffer = new_sample_buffer;] a copy assignment: the new
    wrapper gains an owner, the one held before loses one. *)
Definition set_sample_buffer (img new_sample_buffer : nat) : M unit :=
  i <- load_img img ;;
  acquire_sample (Some new_sample_buffer) ;;;
  store_img img (set_sample_buffer_field (Some new_sample_buffer) i) ;;;
  release_sample (sample_buffer i).

(** [av_img->pixel_buffer = new_pixel_buffer;] *)
Definition set_pixel_buffer (img new_pixel_buffer : nat) : M unit :=
  i <- load_img img ;;
  acquire_pixel (Some new_pixel_buffer) ;;;
  store_img img (set_pixel_buffer_field (Some new_pixel_buffer) i) ;;;
  release_pixel (pixel_buffer i).

(** [img->data = new_pixel_buffer->data();] *)
Definition set_data (img new_pixel_buffer : nat) : M unit :=
  p <- load_pixel_buf new_pixel_buffer ;;
  i <- load_img img ;;
  store_img img (set_data_field (av_pixel_buf_data p) i).

(** [img->width = (int) CVPixelBufferGetWidth(new_pixel_buffer->buf);] *)
Definition set_width (img new_pixel_buffer : nat) : M unit :=
  p <- load_pixel_buf new_pixel_buffer ;;
  i <- load_img img ;;
  store_img img (set_width_field (to_int (CVPixelBufferGetWidth (pixel_buf p))) i).

(** [img->height = (int) CVPixelBufferGetHeight(new_pixel_buffer->buf);] *)
Definition set_height (img new_pixel_buffer : nat) : M unit :=
  p <- load_pixel_buf new_pixel_buffer ;;
  i <- load_img img ;;
  store_img img (set_height_field (to_int (CVPixelBufferGetHeight (pixel_buf p))) i).

(** [img->row_pitch = (int) CVPixelBufferGetBytesPerRow(new_pixel_buffer->buf);] *)
Definition set_row_pitch (img new_pixel_buffer : nat) : M unit :=
  p <- load_pixel_buf new_pixel_buffer ;;
  i <- load_img img ;;
  store_img img (set_row_pitch_field (to_int (CVPixelBufferGetBytesPerRow (pixel_buf p))) i).

(** [img->pixel_pitch = img->row_pitch / img->width;] *)
Definition set_pixel_pitch (img : nat) : M unit :=
  i <- load_img img ;;
  q <- of_option (int_div (row_pitch i) (width i)) ;;
  store_img img (set_pixel_pitch_field q i).

(** [old_data_retainer = nullptr;] the guard is destroyed, and with it its
    members, last declared first. *)
Definition release_retainer : M unit :=
  g <- gets old_data_retainer ;;
  match g with
  | None => ret tt
  | Some g =>
      modify (with_retainer None) ;;;
      release_pixel (retained_pixel g) ;;;
      release_sample (retained_sample g)
  end.

Definition handoff (img new_sample_buffer new_pixel_buffer : nat) : list (M unit) :=
  [ make_retainer img;
    set_sample_buffer img new_sample_buffer;
    set_pixel_buffer img new_pixel_buffer;
    set_data img new_pixel_buffer;
    set_width img new_pixel_buffer;
    set_height img new_pixel_buffer;
    set_row_pitch img new_pixel_buffer;
    set_pixel_pitch img;
    release_retainer ].

Fixpoint run_steps (l : list (M unit)) : M unit :=
  match l with
  | [] => ret tt
  | s :: l' => s ;;; run_steps l'
  end.

(** The block's two local [shared_ptr]s go out of scope, last declared
    first. *)
Definition leave_block (new_sample_buffer new_pixel_buffer : nat) : M unit :=
  release_pixel (Some new_pixel_buffer) ;;;
  release_sample (Some new_sample_buffer).

Definition call_pull : M (bool * option nat) :=
  fun w => let '(r, c) := pull_free_image_cb (consumer w) in (Ret r, with_consumer c w).

Definition call_push (img : nat) (cursor : bool) : M bool :=
  i <- load_img img ;;
  fun w => let '(b, c) := push_captured_image_cb img i cursor (consumer w) in
           (Ret b, with_pushed (pushed w ++ [(img, i)]) (with_consumer c w)).

(** The block of [sc_display_t::capture] ([display.mm], lines 42-74). *)
Definition capture_block (sampleBuffer : CMSampleBufferRef) : M bool :=
  new_sample_buffer <- make_shared_sample sampleBuffer ;;
  sb <- load_sample_buf new_sample_buffer ;;
  new_pixel_buffer <- make_shared_pixel (sample_buf sb) ;;
  r <- call_pull ;;
  match r with
  | (false, _) =>
      leave_block new_sample_buffer new_pixel_buffer ;;;
      ret false
  | (true, None) => undefined
  | (true, Some img_out) =>
      run_steps (handoff img_out new_sample_buffer new_pixel_buffer) ;;;
      pushed_ok <- call_push img_out true ;;
      if negb pushed_ok then
        leave_block new_sample_buffer new_pixel_buffer ;;;
        ret false
      else
        leave_block new_sample_buffer new_pixel_buffer ;;;
        ret true
  end.

(** The block of [sc_display_t::dummy_img] ([display.mm], lines 108-132). *)
Definition dummy_img_block (img : nat) (sampleBuffer : CMSampleBufferRef) : M bool :=
  new_sample_buffer <- make_shared_sample sampleBuffer ;;
  sb <- load_sample_buf new_sample_buffer ;;
  new_pixel_buffer <- make_shared_pixel (sample_buf sb) ;;
  run_steps (handoff img new_sample_buffer new_pixel_buffer) ;;;
  leave_block new_sample_buffer new_pixel_buffer ;;;
  ret false.

Definition call_frame_callback (cb : SCFrameCallbackBlock) (sampleBuffer : CMSampleBufferRef)
  : M bool :=
  match cb with
  | capture_frame_block => capture_block sampleBuffer
  | dummy_img_frame_block img => dummy_img_block img sampleBuffer
  end.

(** *** Methods of [ApolloScreenCapture] ([screencapture.mm]) *)

Definition update_sc (f : ApolloScreenCapture -> ApolloScreenCapture) : M unit :=
  modify (fun w => with_sc (f (sc_capture w)) w).

Definition send_request (r : stream_request) : M unit :=
  modify (fun w => with_requests (requests w ++ [r]) w).

(** [dispatch_semaphore_signal(self.captureSemaphore)] *)
Definition dispatch_semaphore_signal : M unit :=
  s <- gets (fun w => captureSemaphore (sc_capture w)) ;;
  match s with
  | Some n => update_sc (set_captureSemaphore (Some (S n)))
  | None => undefined
  end.

(** [-capture:], lines 160-176: returns the semaphore it has just created. *)
Definition ApolloScreenCapture_capture (frameCallback : SCFrameCallbackBlock) : M unit :=
  update_sc (set_frameCallback (Some frameCallback)) ;;;
  update_sc (set_captureSemaphore (Some 0%nat)) ;;;
  send_request startCaptureWithCompletionHandler.

(** The completion handler handed to [startCaptureWithCompletionHandler:]. *)
Definition start_completion_handler (error : bool) : M unit :=
  if error then dispatch_semaphore_signal
  else update_sc (set_isCapturing true).

(** [-stopCapture], lines 178-192. *)
Definition stopCapture : M unit :=
  capturing <- gets (fun w => isCapturing (sc_capture w)) ;;
  if negb capturing then ret tt
  else send_request stopCaptureWithCompletionHandler.

(** The completion handler handed to [stopCaptureWithCompletionHandler:]. *)
Definition stop_completion_handler (error : bool) : M unit :=
  update_sc (set_isCapturing false) ;;;
  s <- gets (fun w => captureSemaphore (sc_capture w)) ;;
  match s with
  | Some _ => dispatch_semaphore_signal
  | None => ret tt
  end.

(** [-stream:didOutputSampleBuffer:ofType:], lines 333-344. *)
Definition stream_didOutputSampleBuffer (sampleBuffer : CMSampleBufferRef)
  (type : SCStreamOutputType) : M unit :=
  match type with
  | SCStreamOutputTypeScreen =>
      cb <- gets (fun w => frameCallback (sc_capture w)) ;;
      match cb with
      | Some cb =>
          continueCapture <- call_frame_callback cb sampleBuffer ;;
          if negb continueCapture then stopCapture else ret tt
      | None => ret tt
      end
  | _ => ret tt
  end.

(** [-stream:didStopWithError:], lines 348-356. *)
Definition stream_didStopWithError : M unit :=
  update_sc (set_isCapturing false) ;;;
  s <- gets (fun w => captureSemaphore (sc_capture w)) ;;
  match s with
  | Some _ => dispatch_semaphore_signal
  | None => ret tt
  end.

Definition native_step (e : native_event) : M unit :=
  match e with
  | StartCompleted error => start_completion_handler error
  | StopCompleted error => stop_completion_handler error
  | DidOutputSampleBuffer sampleBuffer type => stream_didOutputSampleBuffer sampleBuffer type
  | DidStopWithError => stream_didStopWithError
  | StopCaptureCalled => stopCapture
  end.

(** [dispatch_semaphore_wait(signal, DISPATCH_TIME_FOREVER)]: if the count
    is positive take one and go on; otherwise the caller sleeps while the
    native events are served, in order.  The result is what remains of the
    events. *)
Fixpoint dispatch_semaphore_wait (pending : list native_event) (w : world)
  : res (list native_event) * world :=
  match captureSemaphore (sc_capture w) with
  | Some (S n) => (Ret pending, with_sc (set_captureSemaphore (Some n) (sc_capture w)) w)
  | _ =>
      match pending with
      | [] => (Blocked, w)
      | e :: rest =>
          match native_step e w with
          | (Ret _, w') => dispatch_semaphore_wait rest w'
          | (UB, w') => (UB, w')
          | (Blocked, w') => (Blocked, w')
          end
      end
  end.

(** *** [sc_display_t] ([display.mm]) *)

(** [sc_display_t::capture], lines 41-79. *)
Definition capture (pending : list native_event) : M (capture_e * list native_event) :=
  ApolloScreenCapture_capture capture_frame_block ;;;
  rest <- dispatch_semaphore_wait pending ;;
  ret (capture_ok, rest).

(** [sc_display_t::dummy_img], lines 103-137.  [is_screen_capture_allowed]
    is the answer of [platf::is_screen_capture_allowed()]. *)
Definition dummy_img (is_screen_capture_allowed : bool) (img : nat)
  (pending : list native_event) : M (Z * list native_event) :=
  if negb is_screen_capture_allowed then ret (1, pending)
  else
    ApolloScreenCapture_capture (dummy_img_frame_block img) ;;;
    rest <- dispatch_semaphore_wait pending ;;
    ret (0, rest).

End Capture.

Arguments world C : clear implicits.
Arguments M C A : clear implicits.

(** ** The zero-copy encode device ([nv12_zero_device.cpp]) *)

(** Modelled from the spec: [pix_fmt_e] is declared in
    [src/platform/common.h], which is not part of the sources.  The spec
    names the system-memory 8-bit planar format and the native bi-planar
    8-bit and 10-bit formats; [pix_fmt_other] stands for every other
    enumerator. *)
Inductive pix_fmt_e :=
| yuv420p
| nv12
| p010
| pix_fmt_other (tag : nat).

#[global] Instance pix_fmt_e_eq_dec : EqDecision pix_fmt_e.
Proof. solve_decision. Defined.

(** The hooks of [nv12_zero_device.h]; the [void *display] they receive is
    the session, passed as state. *)
Definition resolution_fn_t : Type :=
  ApolloScreenCapture -> Z -> Z -> ApolloScreenCapture * list stream_request.
Definition pixel_format_fn_t : Type :=
  ApolloScreenCapture -> OSType -> ApolloScreenCapture.

(** [sc_display_t::setResolution] and [sc_display_t::setPixelFormat]. *)
Definition setResolution : resolution_fn_t :=
  fun display width height => setFrameWidth_frameHeight width height display.
Definition setPixelFormat : pixel_format_fn_t :=
  fun display pixelFormat => set_pixelFormat pixelFormat display.

(** libavutil: a reference-counted [AVBuffer] whose [free] callback is
    [free_buffer], and the part of an [AVFrame] that the device touches. *)
Record AVBuffer := {
  avb_data : CVPixelBufferRef;
  avb_refcount : nat
}.

Record AVFrame := {
  frame_width : Z;
  frame_height : Z;
  frame_buf0 : option nat;          (* frame->buf[0], an AVBufferRef or NULL *)
  frame_data3 : CVPixelBufferRef    (* frame->data[3] *)
}.

Record encoder := {
  av_frames : gmap nat AVFrame;
  av_buffers : gmap nat AVBuffer;
  cf_retain_count : gmap nat nat    (* retains taken on native pixel buffers, by handle *)
}.

Record nv12_zero_device := {
  nv_frame : option nat;                     (* AVFrame *frame *)
  nv_resolution_fn : option resolution_fn_t;
  nv_data : bool                             (* data = this *)
}.

Definition CFRetain (buf : CVPixelBuffer) (e : encoder) : encoder :=
  {| av_frames := av_frames e; av_buffers := av_buffers e;
     cf_retain_count :=
       <[pb_handle buf := S (default 0%nat (cf_retain_count e !! pb_handle buf))]>
         (cf_retain_count e) |}.

Definition CVPixelBufferRelease (buf : CVPixelBufferRef) (e : encoder) : encoder :=
  match buf with
  | None => e
  | Some b =>
      {| av_frames := av_frames e; av_buffers := av_buffers e;
         cf_retain_count :=
           <[pb_handle b := Nat.pred (default 0%nat (cf_retain_count e !! pb_handle b))]>
             (cf_retain_count e) |}
  end.

(** [free_buffer], lines 23-25. *)
Definition free_buffer (data : CVPixelBufferRef) (e : encoder) : encoder :=
  CVPixelBufferRelease data e.

(** [av_buffer_unref(&ref)]: nothing for [NULL]; otherwise one reference
    less, and [free_buffer] on the data when it was the last. *)
Definition av_buffer_unref (ref : option nat) (e : encoder) : encoder :=
  match ref with
  | None => e
  | Some b =>
      match av_buffers e !! b with
      | Some {| avb_data := d; avb_refcount := S (S n) |} =>
          {| av_frames := av_frames e;
             av_buffers := <[b := {| avb_data := d; avb_refcount := S n |}]> (av_buffers e);
             cf_retain_count := cf_retain_count e |}
      | Some {| avb_data := d; avb_refcount := _ |} =>
          free_buffer d
            {| av_frames := av_frames e; av_buffers := delete b (av_buffers e);
               cf_retain_count := cf_retain_count e |}
      | None => e
      end
  end.

(** [av_buffer_create(data, 0, free_buffer, nullptr, 0)]. *)
Definition av_buffer_create (data : CVPixelBufferRef) (e : encoder) : nat * encoder :=
  let b := fresh (dom (av_buffers e)) in
  (b, {| av_frames := av_frames e;
         av_buffers := <[b := {| avb_data := data; avb_refcount := 1 |}]> (av_buffers e);
         cf_retain_count := cf_retain_count e |}).

Definition store_frame (f : nat) (fr : AVFrame) (e : encoder) : encoder :=
  {| av_frames := <[f := fr]> (av_frames e); av_buffers := av_buffers e;
     cf_retain_count := cf_retain_count e |}.

(** [nv12_zero_device::convert], lines 27-41.  [pixel_wrappers] is the heap
    in which the image's [pixel_buffer] pointer is looked up. *)
Definition nv12_zero_device_convert (pixel_wrappers : gmap nat (av_pixel_buf_t * nat))
  (img : av_img_t) (dev : nv12_zero_device) (e : encoder) : res Z * encoder :=
  match pixel_buffer img with
  | None => (Ret (-1), e)
  | Some p =>
      match pixel_wrappers !! p with
      | None => (UB, e)
      | Some (wrapper, _) =>
          match pixel_buf wrapper with
          | None => (Ret (-1), e)
          | Some buf =>
              match nv_frame dev with
              | None => (UB, e)
              | Some f =>
                  match av_frames e !! f with
                  | None => (UB, e)
                  | Some frame =>
                      let e1 := av_buffer_unref (frame_buf0 frame) e in
                      let e2 := CFRetain buf e1 in
                      let '(b, e3) := av_buffer_create (Some buf) e2 in
                      (Ret 0,
                       store_frame f {| frame_width := frame_width frame;
                                        frame_height := frame_height frame;
                                        frame_buf0 := Some b;
                                        frame_data3 := Some buf |} e3)
                  end
              end
          end
      end
  end.

(** [nv12_zero_device::set_frame], lines 43-49. *)
Definition nv12_zero_device_set_frame (f : nat) (dev : nv12_zero_device) (e : encoder)
  (display : ApolloScreenCapture)
  : res (Z * nv12_zero_device * ApolloScreenCapture * list stream_request) :=
  match av_frames e !! f, nv_resolution_fn dev with
  | Some frame, Some resolution_fn =>
      let '(display', sent) := resolution_fn display (frame_width frame) (frame_height frame) in
      Ret (0, {| nv_frame := Some f; nv_resolution_fn := nv_resolution_fn dev;
                 nv_data := nv_data dev |}, display', sent)
  | _, _ => UB
  end.

(** [nv12_zero_device::init], lines 51-73. *)
Definition nv12_zero_device_init (dev : nv12_zero_device) (display : ApolloScreenCapture)
  (pix_fmt : pix_fmt_e) (resolution_fn : resolution_fn_t) (pixel_format_fn : pixel_format_fn_t)
  : Z * nv12_zero_device * ApolloScreenCapture :=
  let pixel_format :=
    match pix_fmt with
    | nv12 => kCVPixelFormatType_420YpCbCr8BiPlanarVideoRange
    | p010 => kCVPixelFormatType_420YpCbCr10BiPlanarVideoRange
    | _ => kCVPixelFormatType_420YpCbCr8BiPlanarVideoRange
    end in
  let display' := pixel_format_fn display pixel_format in
  (0, {| nv_frame := nv_frame dev; nv_resolution_fn := Some resolution_fn; nv_data := true |},
   display').

(** A device as [std::make_unique<nv12_zero_device>()] leaves it. *)
Definition new_nv12_zero_device : nv12_zero_device :=
  {| nv_frame := None; nv_resolution_fn := None; nv_data := false |}.

(** What [make_avcodec_encode_device] hands back: the standard conversion
    device of [video.h], or the zero-copy device. *)
Inductive encode_device :=
| avcodec_encode_device_t
| nv12_zero (dev : nv12_zero_device).

(** [sc_display_t::make_avcodec_encode_device], [display.mm] lines 85-97;
    [None] is [nullptr]. *)
Definition make_avcodec_encode_device (pix_fmt : pix_fmt_e) (sc : ApolloScreenCapture)
  : option encode_device * ApolloScreenCapture :=
  if bool_decide (pix_fmt = yuv420p) then
    (Some avcodec_encode_device_t, set_pixelFormat kCVPixelFormatType_32BGRA sc)
  else if bool_decide (pix_fmt = nv12) || bool_decide (pix_fmt = p010) then
    let '(_, device, sc') :=
      nv12_zero_device_init new_nv12_zero_device sc pix_fmt setResolution setPixelFormat in
    (Some (nv12_zero device), sc')
  else
    (None, sc).

(** ** Display selection ([platf::display], [-initWithDisplay:frameRate:]) *)

(** Modelled from the spec: [mem_type_e] is declared in
    [src/platform/common.h], which is not part of the sources; [display]
    tests for its enumerators [system] and [videotoolbox] only. *)
Inductive mem_type_e :=
| mem_system
| mem_videotoolbox
| mem_other (tag : nat).

#[global] Instance mem_type_e_eq_dec : EqDecision mem_type_e.
Proof. solve_decision. Defined.

(** What [SCShareableContent] hands to the completion handler. *)
Inductive shareable_reply :=
| content_error
| content_displays (displays : list Z).   (* the displayID of each SCDisplay *)

(** The answers of the operating system during set-up. *)
Record native_env := {
  CGMainDisplayID : Z;
  CGGetActiveDisplayList : option (list Z);          (* None: not kCGErrorSuccess *)
  getDisplayName : Z -> option string;
  CGDisplayCopyDisplayMode : Z -> option (Z * Z);    (* pixel width and height of the mode *)
  CGDisplayPixels : Z -> Z * Z;                      (* CGDisplayPixelsWide / High *)
  isHDRSupported : Z -> bool;                        (* false before macOS 14 *)
  shareable_content : option shareable_reply;        (* None: no reply within 5 s *)
  addStreamOutput_error : bool
}.

(** One dictionary of [+displayNames]; the key ["name"] is the decimal
    rendering of ["id"] and is not used by [display]. *)
Record display_entry := {
  entry_id : Z;
  entry_displayName : string
}.

(** [+displayNames], lines 12-30. *)
Definition displayNames (env : native_env) : list display_entry :=
  match CGGetActiveDisplayList env with
  | None => []
  | Some displays =>
      map (fun d => {| entry_id := to_uint d;
                       entry_displayName :=
                         match getDisplayName env d with
                         | Some n => n
                         | None => "Unknown Display"%string
                         end |}) displays
  end.

(** The C library's [atoi]: white space, an optional sign, decimal digits.
    For a number within [long] this is [(int) strtol(s, NULL, 10)], the
    value modulo 2^32.  A number beyond [long] is undefined behaviour in C
    (the library saturates at [LONG_MAX] or [LONG_MIN] before the
    conversion); here it wraps like the others. *)
Definition is_space (c : ascii) : bool :=
  let n := nat_of_ascii c in
  Nat.eqb n 32 || (Nat.leb 9 n && Nat.leb n 13).

Definition digit_value (c : ascii) : option Z :=
  let n := Z.of_nat (nat_of_ascii c) in
  if (48 <=? n) && (n <=? 57) then Some (n - 48) else None.

Fixpoint skip_spaces (s : string) : string :=
  match s with
  | String c r => if is_space c then skip_spaces r else s
  | EmptyString => s
  end.

Fixpoint read_digits (acc : Z) (s : string) : Z :=
  match s with
  | String c r =>
      match digit_value c with
      | Some d => read_digits (10 * acc + d) r
      | None => acc
      end
  | EmptyString => acc
  end.

Definition atoi (s : string) : Z :=
  match skip_spaces s with
  | String "-"%char r => to_int (- read_digits 0 r)
  | String "+"%char r => to_int (read_digits 0 r)
  | r => to_int (read_digits 0 r)
  end.

Definition string_empty (s : string) : bool :=
  match s with EmptyString => true | _ => false end.

(** The loop of [display], lines 156-167: start from the main display, and
    take every enumerated id that [display_name] parses to. *)
Definition select_display_id (env : native_env) (display_name : string) : Z :=
  fold_left
    (fun display_id item =>
       if negb (string_empty display_name) && (to_uint (atoi display_name) =? entry_id item)
       then entry_id item
       else display_id)
    (displayNames env)
    (to_uint (CGMainDisplayID env)).

(** The loop of lines 72-78: the first display with the wanted id. *)
Definition find_display (displayID : Z) (displays : list Z) : option Z :=
  List.find (fun d => d =? displayID) displays.

(** [-initWithDisplay:frameRate:], lines 41-140; [None] is [nil]. *)
Definition initWithDisplay (env : native_env) (displayID frameRate : Z)
  : option ApolloScreenCapture :=
  let '(w, h) :=
    match CGDisplayCopyDisplayMode env displayID with
    | Some (w, h) => (to_int w, to_int h)
    | None => let '(w, h) := CGDisplayPixels env displayID in (to_int w, to_int h)
    end in
  match shareable_content env with
  | None => None                                   (* "Setup timed out" *)
  | Some content_error => None                     (* setupComplete stays NO *)
  | Some (content_displays displays) =>
      let targetDisplay :=
        match find_display displayID displays with
        | Some d => Some d
        | None => match displays with d :: _ => Some d | [] => None end
        end in
      match targetDisplay with
      | None => None                               (* "No display found" *)
      | Some d =>
          if addStreamOutput_error env then None
          else
            Some {| displayID := d;
                    frameWidth := w; frameHeight := h; frameRate := frameRate;
                    pixelFormat := kCVPixelFormatType_32BGRA;
                    captureHDR := isHDRSupported env d;
                    streamConfig :=
                      Some {| cfg_width := to_size_t w; cfg_height := to_size_t h;
                              cfg_pixelFormat := kCVPixelFormatType_32BGRA;
                              cfg_frameRate := frameRate; cfg_queueDepth := 5;
                              cfg_showsCursor := true |};
                    frameCallback := None;
                    captureSemaphore := None;
                    isCapturing := false |}
      end
  end.

Record sc_display_t := {
  sc_session : ApolloScreenCapture;
  display_id : Z;
  display_width : Z;
  display_height : Z;
  env_width : Z;
  env_height : Z
}.

(** [platf::display], [display.mm] lines 148-183; [None] is [nullptr]. *)
Definition display (env : native_env) (hwdevice_type : mem_type_e) (display_name : string)
  (framerate : Z) : option sc_display_t :=
  if bool_decide (hwdevice_type <> mem_system) && bool_decide (hwdevice_type <> mem_videotoolbox)
  then None
  else
    let display_id := select_display_id env display_name in
    match initWithDisplay env display_id framerate with
    | None => None
    | Some sc =>
        Some {| sc_session := sc; display_id := display_id;
                display_width := frameWidth sc; display_height := frameHeight sc;
                env_width := frameWidth sc; env_height := frameHeight sc |}
    end.

(** ** Assertions about the hand-off *)

(** The guard that [make_retainer] builds from an image. *)
Definition guard_of (i : av_img_t) : temp_retain_av_img_t :=
  {| retained_sample := sample_buffer i;
     retained_pixel := pixel_buffer i;
     retained_data := data i |}.

(** The pointer [p] is null or names a live object with at least [n] owners. *)
Definition sp_held {T : Type} (n : nat) (p : shared_ptr) (h : gmap nat (T * nat)) : Prop :=
  match p with
  | None => True
  | Some id => exists obj c, h !! id = Some (obj, c) /\ (n <= c)%nat
  end.

(** The image as the hand-off leaves it for a pixel buffer [pb]. *)
Definition installed (new_sample_buffer new_pixel_buffer : nat) (pb : CVPixelBufferRef)
  (pitch : Z) : av_img_t :=
  {| data := CVPixelBufferGetBaseAddress pb;
     width := to_int (CVPixelBufferGetWidth pb);
     height := to_int (CVPixelBufferGetHeight pb);
     row_pitch := to_int (CVPixelBufferGetBytesPerRow pb);
     pixel_pitch := pitch;
     sample_buffer := Some new_sample_buffer;
     pixel_buffer := Some new_pixel_buffer |}.

(** The image after the first [k] steps of the hand-off ([k] up to 7: the
    pitch is not yet written). *)
Definition partly_installed (k : nat) (i : av_img_t) (new_sample_buffer new_pixel_buffer : nat)
  (pb : CVPixelBufferRef) : av_img_t :=
  {| data := if (4 <=? k)%nat then CVPixelBufferGetBaseAddress pb else data i;
     width := if (5 <=? k)%nat then to_int (CVPixelBufferGetWidth pb) else width i;
     height := if (6 <=? k)%nat then to_int (CVPixelBufferGetHeight pb) else height i;
     row_pitch := if (7 <=? k)%nat then to_int (CVPixelBufferGetBytesPerRow pb) else row_pitch i;
     pixel_pitch := pixel_pitch i;
     sample_buffer := if (2 <=? k)%nat then Some new_sample_buffer else sample_buffer i;
     pixel_buffer := if (3 <=? k)%nat then Some new_pixel_buffer else pixel_buffer i |}.

Section Assertions.

Context {C : Type} {consumer_callbacks : Consumer C}.

(** A triple over all outcomes: from a state in [P], a returning run ends
    in [Q], any other run stops in [E]. *)
Definition hoare {A} (P : world C -> Prop) (m : M C A) (Q : A -> world C -> Prop)
  (E : world C -> Prop) : Prop :=
  forall w, P w ->
    match m w with
    | (Ret a, w') => Q a w'
    | (_, w') => E w'
    end.

(** Everything but the images and the two heaps is as in [w0]. *)
Definition same_surroundings (w0 w : world C) : Prop :=
  consumer w = consumer w0 /\ pushed w = pushed w0 /\
  sc_capture w = sc_capture w0 /\ requests w = requests w0.

(** Every pointer but [old] that is held in [h0] is held as much in [h]. *)
Definition others_kept {T : Type} (old : shared_ptr) (h0 h : gmap nat (T * nat)) : Prop :=
  forall (p : shared_ptr) (n : nat), p <> old -> sp_held n p h0 -> sp_held n p h.

(** Inside the overwrite window: the guard [g] is held, its two wrappers
    have at least [cs] and [cp] owners, the image is [cur], the new wrappers
    are alive with [cns] and [cnp] owners, and no other wrapper has lost an
    owner. *)
Definition window (img : nat) (g : temp_retain_av_img_t) (cur : av_img_t)
  (ns np : nat) (so : av_sample_buf_t) (po : av_pixel_buf_t) (cs cp cns cnp : nat)
  (w0 w : world C) : Prop :=
  images w = <[img := cur]> (images w0) /\
  old_data_retainer w = Some g /\
  sp_held cs (retained_sample g) (samples w) /\
  sp_held cp (retained_pixel g) (pixels w) /\
  samples w !! ns = Some (so, cns) /\
  pixels w !! np = Some (po, cnp) /\
  same_surroundings w0 w /\
  others_kept (retained_sample g) (samples w0) (samples w) /\
  others_kept (retained_pixel g) (pixels w0) (pixels w).

(** The guard is held and what it retains is alive. *)
Definition guard_holds (g : temp_retain_av_img_t) (w : world C) : Prop :=
  old_data_retainer w = Some g /\
  sp_alive (retained_sample g) (samples w) = true /\
  sp_alive (retained_pixel g) (pixels w) = true.

End Assertions.

(** The wrappers that a block makes for a delivered sample: fresh control
    blocks in the two heaps. *)
Definition new_sample_id {C : Type} (w : world C) : nat := fresh (dom (samples w)).
Definition new_pixel_id {C : Type} (w : world C) : nat := fresh (dom (pixels w)).

(** The image [img] owns what it points to: its two wrappers are alive and
    counted. *)
Definition image_owned {C : Type} (img : nat) (i : av_img_t) (w : world C) : Prop :=
  images w !! img = Some i /\
  sp_held 1 (sample_buffer i) (samples w) /\
  sp_held 1 (pixel_buffer i) (pixels w).

(** No two images of the store point to the same wrapper. *)
Definition wrappers_unshared {C : Type} (w : world C) : Prop :=
  forall (img1 img2 : nat) (i1 i2 : av_img_t),
    img1 <> img2 ->
    images w !! img1 = Some i1 -> images w !! img2 = Some i2 ->
    (forall id : nat, sample_buffer i1 = Some id -> sample_buffer i2 <> Some id) /\
    (forall id : nat, pixel_buffer i1 = Some id -> pixel_buffer i2 <> Some id).

(** Every image of the store owns what it points to. *)
Definition images_owned {C : Type} (w : world C) : Prop :=
  (forall (img : nat) (i : av_img_t), images w !! img = Some i -> image_owned img i w) /\
  wrappers_unshared w.

(** Every image that the consumer was given has a width other than 0 and
    the pitch derived from it. *)
Definition pushed_pitch_derived (l : list (nat * av_img_t)) : Prop :=
  Forall (fun e => width e.2 <> 0 /\ pixel_pitch e.2 = Z.quot (row_pitch e.2) (width e.2)) l.

(** The images and the two heaps are as in [w0], and nothing was pushed. *)
Definition frames_untouched {C : Type} (w0 w : world C) : Prop :=
  images w = images w0 /\ samples w = samples w0 /\ pixels w = pixels w0 /\
  pushed w = pushed w0.

(** The image reports the geometry of the pixel buffer of [sb], each value
    converted to [int], and the pitch derived from it. *)
Definition reports_geometry (i : av_img_t) (sb : CMSampleBufferRef) : Prop :=
  width i = to_int (CVPixelBufferGetWidth (CMSampleBufferGetImageBuffer sb)) /\
  height i = to_int (CVPixelBufferGetHeight (CMSampleBufferGetImageBuffer sb)) /\
  row_pitch i = to_int (CVPixelBufferGetBytesPerRow (CMSampleBufferGetImageBuffer sb)) /\
  pixel_pitch i = Z.quot (row_pitch i) (width i).

(** The world once [-capture:] has installed the block [cb], made its
    semaphore and asked the stream to start. *)
Definition armed {C : Type} (cb : SCFrameCallbackBlock) (w : world C) : world C :=
  with_requests (requests w ++ [startCaptureWithCompletionHandler])
    (with_sc (set_captureSemaphore (Some 0%nat)
                (set_frameCallback (Some cb) (sc_capture w))) w).

(** The same world once the start request has completed without error. *)
Definition started {C : Type} (cb : SCFrameCallbackBlock) (w : world C) : world C :=
  with_sc (set_isCapturing true (sc_capture (armed cb w))) (armed cb w).

(** The world in which a block starts its hand-off for the sample [sb]:
    the two wrappers are made, and the consumer is [c1] (its state after the
    pull; for the probe block, its state in [w]). *)
Definition handoff_start {C : Type} (sb : CMSampleBufferRef) (c1 : C) (w : world C) : world C :=
  with_consumer c1
    (with_pixels
       (<[new_pixel_id w := ({| pixel_buf := CMSampleBufferGetImageBuffer sb |}, 1%nat)]>
          (pixels w))
       (with_samples (<[new_sample_id w := ({| sample_buf := sb |}, 1%nat)]> (samples w)) w)).

(** How often the stream was asked to start. *)
Definition start_requests (l : list stream_request) : nat :=
  count_occ stream_request_eq_dec l startCaptureWithCompletionHandler.

(** A piece of code that sends nothing to the stream, however it ends. *)
Definition keeps_requests {C A : Type} (m : M C A) : Prop :=
  forall w, requests (snd (m w)) = requests w.

(** The pitch that the hand-off derives for a delivered sample. *)
Definition derived_pitch (sb : CMSampleBufferRef) : option Z :=
  int_div (to_int (CVPixelBufferGetBytesPerRow (CMSampleBufferGetImageBuffer sb)))
          (to_int (CVPixelBufferGetWidth (CMSampleBufferGetImageBuffer sb))).

(** ** Sample data: consumers, frames and worlds *)

(** A consumer that hands out image 0 and takes every frame. *)
Definition willing_consumer : Consumer unit :=
  {| pull_free_image_cb := fun c => ((true, Some 0%nat), c);
     push_captured_image_cb := fun _ _ _ c => (true, c) |}.

(** A consumer that has no free image. *)
Definition consumer_without_image : Consumer unit :=
  {| pull_free_image_cb := fun c => ((false, None), c);
     push_captured_image_cb := fun _ _ _ c => (true, c) |}.

(** A consumer that hands out image 0 and rejects every frame. *)
Definition rejecting_consumer : Consumer unit :=
  {| pull_free_image_cb := fun c => ((true, Some 0%nat), c);
     push_captured_image_cb := fun _ _ _ c => (false, c) |}.

(** A 1920x1080 BGRA frame. *)
Definition frame_1080p : CMSampleBufferRef :=
  {| sb_handle := 7;
     sb_image_buffer :=
       Some {| pb_handle := 70; pb_width := 1920; pb_height := 1080;
               pb_bytes_per_row := 7680; pb_base_address := 4096 |} |}.

(** A sample that carries no image buffer. *)
Definition frame_without_image : CMSampleBufferRef :=
  {| sb_handle := 9; sb_image_buffer := None |}.

(** A session as [-initWithDisplay:frameRate:] leaves it. *)
Definition idle_session : ApolloScreenCapture :=
  {| displayID := 1; frameWidth := 1920; frameHeight := 1080; frameRate := 60;
     pixelFormat := kCVPixelFormatType_32BGRA; captureHDR := false;
     streamConfig :=
       Some {| cfg_width := 1920; cfg_height := 1080;
               cfg_pixelFormat := kCVPixelFormatType_32BGRA;
               cfg_frameRate := 60; cfg_queueDepth := 5; cfg_showsCursor := true |};
     frameCallback := None; captureSemaphore := None; isCapturing := false |}.

(** A world with one image, number 0, as [alloc_img] made it. *)
Definition fresh_world : world unit :=
  {| images := {[ 0%nat := alloc_img ]};
     samples := ∅; pixels := ∅; old_data_retainer := None;
     consumer := tt; pushed := []; sc_capture := idle_session; requests := [] |}.

(** The same world while [capture] waits and the stream is running. *)
Definition capturing_session : ApolloScreenCapture :=
  set_isCapturing true
    (set_captureSemaphore (Some 0%nat)
       (set_frameCallback (Some capture_frame_block) idle_session)).

Definition capturing_world : world unit :=
  with_requests [startCaptureWithCompletionHandler] (with_sc capturing_session fresh_world).

(** An image bound to the wrappers of an earlier frame, number 0 in each
    heap, which it alone owns. *)
Definition bound_image : av_img_t :=
  {| data := 4096; width := 1920; height := 1080; row_pitch := 7680; pixel_pitch := 4;
     sample_buffer := Some 0%nat; pixel_buffer := Some 0%nat |}.

Definition bound_world : world unit :=
  {| images := {[ 0%nat := bound_image ]};
     samples := {[ 0%nat := ({| sample_buf := frame_1080p |}, 1%nat) ]};
     pixels := {[ 0%nat := ({| pixel_buf := sb_image_buffer frame_1080p |}, 1%nat) ]};
     old_data_retainer := None;
     consumer := tt; pushed := []; sc_capture := idle_session; requests := [] |}.

(** An encoder frame bound to an earlier pixel buffer, number 60, through
    an [AVBuffer] that holds the only retain on it; and an image whose
    pixel wrapper carries the buffer of [frame_1080p]. *)
Definition earlier_pixel_buffer : CVPixelBuffer :=
  {| pb_handle := 60; pb_width := 1920; pb_height := 1080;
     pb_bytes_per_row := 7680; pb_base_address := 2048 |}.

Definition bound_encoder : encoder :=
  {| av_frames := {[ 0%nat := {| frame_width := 1920; frame_height := 1080;
                                 frame_buf0 := Some 0%nat;
                                 frame_data3 := Some earlier_pixel_buffer |} ]};
     av_buffers := {[ 0%nat := {| avb_data := Some earlier_pixel_buffer;
                                  avb_refcount := 1 |} ]};
     cf_retain_count := {[ 60%nat := 1%nat ]} |}.

Definition device_with_frame : nv12_zero_device :=
  {| nv_frame := Some 0%nat; nv_resolution_fn := Some setResolution; nv_data := true |}.

Definition pixel_wrappers_of_frame : gmap nat (av_pixel_buf_t * nat) :=
  {[ 0%nat := ({| pixel_buf := sb_image_buffer frame_1080p |}, 1%nat) ]}.

(** Two displays, 1 (the main one) and 2. *)
Definition two_displays : native_env :=
  {| CGMainDisplayID := 1;
     CGGetActiveDisplayList := Some [1; 2];
     getDisplayName := fun _ => None;
     CGDisplayCopyDisplayMode := fun _ => Some (1920, 1080);
     CGDisplayPixels := fun _ => (1920, 1080);
     isHDRSupported := fun _ => false;
     shareable_content := Some (content_displays [1; 2]);
     addStreamOutput_error := false |}.

(** The same displays, but the shareable content cannot be read (for one,
    because screen recording has not been permitted). *)
Definition two_displays_unreadable : native_env :=
  {| CGMainDisplayID := 1;
     CGGetActiveDisplayList := Some [1; 2];
     getDisplayName := fun _ => None;
     CGDisplayCopyDisplayMode := fun _ => Some (1920, 1080);
     CGDisplayPixels := fun _ => (1920, 1080);
     isHDRSupported := fun _ => false;
     shareable_content := Some content_error;
     addStreamOutput_error := false |}.

(** ** The names of the displays ([display.mm], [screencapture.mm]) *)

(** [[NSString stringWithFormat:@"%d", x]]: the decimal rendering of an
    [int], with a minus sign for a negative one. *)
Definition format_d (x : Z) : string := NilEmpty.string_of_int (Z.to_int x).

(** The value under the key ["name"] in a dictionary of [+displayNames]
    (line 24): the display id, which ["%d"] reads as an [int]. *)
Definition entry_name (item : display_entry) : string := format_d (to_int (entry_id item)).

(** [platf::display_names], [display.mm] lines 185-197: the ["name"] of each
    dictionary, in the order of [+displayNames]. *)
Definition display_names (env : native_env) : list string :=
  map entry_name (displayNames env).

(** ** A single frame on macOS 14 and later ([-captureSingleFrame:])

    The method hands the screenshot manager a completion block and returns;
    the block runs later, with the image or the error of the screenshot.
    Before macOS 14 the method takes another path, through [-capture:] with
    a block of its own, which is not modelled. *)

(** The configuration built for the screenshot, lines 221-225. *)
Record screenshot_config := {
  shot_width : Z;       (* size_t *)
  shot_height : Z;      (* size_t *)
  shot_pixelFormat : OSType;
  shot_showsCursor : bool
}.

(** What the frameworks answer: the screenshot (the size of the image, or
    NULL, and the code of the error, or nil) and the objects that the block
    asks for. *)
Record screenshot_answers := {
  shot_image : option (Z * Z);
  shot_error : option Z;
  CVPixelBufferCreate_success : bool;            (* [status == kCVReturnSuccess] *)
  CVPixelBufferCreate_buffer : CVPixelBufferRef; (* [pixelBuffer] afterwards *)
  CGBitmapContextCreate_made : bool;
  CMVideoFormatDescriptionCreate_made : bool;
  CMSampleBufferCreate_made : option nat         (* the handle of [sampleBuffer], or NULL *)
}.

(** The calls by which the method and its block reach the outside. *)
Inductive single_frame_call :=
| completionHandler_called (sampleBuffer : option CMSampleBufferRef) (error : option Z)
| captureImageWithFilter (config : screenshot_config)
| CVPixelBufferCreate_called (width height : Z) (pixelFormat : OSType)
| CVPixelBufferLockBaseAddress_called
| CGColorSpaceCreateDeviceRGB_called
| CGContextDrawImage_called
| CGContextRelease_called
| CGColorSpaceRelease_called
| CVPixelBufferUnlockBaseAddress_called
| CFRelease_formatDescription
| CVPixelBufferRelease_called
| CFRelease_sampleBuffer.

Definition call_handler (completionHandler : bool) (sampleBuffer : option CMSampleBufferRef)
  (error : option Z) : list single_frame_call :=
  if completionHandler then [completionHandler_called sampleBuffer error] else [].

(** The completion block, lines 229-281. *)
Definition screenshot_completion (completionHandler : bool) (a : screenshot_answers)
  : list single_frame_call :=
  match shot_error a, shot_image a with
  | None, Some (width, height) =>
      CVPixelBufferCreate_called width height kCVPixelFormatType_32BGRA ::
      match CVPixelBufferCreate_success a, CVPixelBufferCreate_buffer a with
      | true, Some pixelBuffer =>
          let sampleBuffer : option CMSampleBufferRef :=
            if CMVideoFormatDescriptionCreate_made a
            then (fun h => {| sb_handle := h; sb_image_buffer := Some pixelBuffer |})
                   <$> CMSampleBufferCreate_made a
            else None in
          [CVPixelBufferLockBaseAddress_called; CGColorSpaceCreateDeviceRGB_called]
          ++ (if CGBitmapContextCreate_made a
              then [CGContextDrawImage_called; CGContextRelease_called] else [])
          ++ [CGColorSpaceRelease_called; CVPixelBufferUnlockBaseAddress_called]
          ++ (if CMVideoFormatDescriptionCreate_made a then [CFRelease_formatDescription] else [])
          ++ [CVPixelBufferRelease_called]
          ++ call_handler completionHandler sampleBuffer None
          ++ (match sampleBuffer with Some _ => [CFRelease_sampleBuffer] | None => [] end)
      | _, _ => call_handler completionHandler None (Some (-3))
      end
  | error, _ => call_handler completionHandler None (Some (default (-2) error))
  end.

(** [-captureSingleFrame:] where macOS 14 is available: what it returns, and
    the calls made by it and, later, by its block.  [contentFilter] says
    whether [self.contentFilter] is set. *)
Definition captureSingleFrame_macOS14 (contentFilter : bool) (s : ApolloScreenCapture)
  (completionHandler : bool) (a : screenshot_answers) : bool * list single_frame_call :=
  if negb contentFilter then (false, call_handler completionHandler None (Some (-1)))
  else
    (true,
     captureImageWithFilter {| shot_width := to_size_t (frameWidth s);
                               shot_height := to_size_t (frameHeight s);
                               shot_pixelFormat := pixelFormat s; shot_showsCursor := true |}
     :: screenshot_completion completionHandler a).

Definition is_handler_call (c : single_frame_call) : bool :=
  match c with completionHandler_called _ _ => true | _ => false end.

(** What the completion handler was given, first call first. *)
Definition handler_calls (l : list single_frame_call)
  : list (option CMSampleBufferRef * option Z) :=
  omap (fun c => match c with
                 | completionHandler_called sb e => Some (sb, e)
                 | _ => None
                 end) l.

Definition count_call (c : single_frame_call -> bool) (l : list single_frame_call) : nat :=
  length (List.filter c l).


(** ** Assertions about whole calls *)

(** A piece of code that leaves the part [part] of the world as it was,
    however it ends. *)
Definition keeps {C A X : Type} (part : world C -> X) (m : M C A) : Prop :=
  forall w, part (snd (m w)) = part w.

(** The native events whose handlers signal the capture semaphore: a start
    that fails, the completion of a stop, and a stream error. *)
Definition signals (e : native_event) : bool :=
  match e with
  | StartCompleted error => error
  | StopCompleted _ => true
  | DidStopWithError => true
  | DidOutputSampleBuffer _ _ => false
  | StopCaptureCalled => false
  end.

(** The screen frames among the events: the ones that reach the block. *)
Definition is_screen_frame (e : native_event) : bool :=
  match e with
  | DidOutputSampleBuffer _ SCStreamOutputTypeScreen => true
  | _ => false
  end.

(** A piece of code that pushes at most [n] images, however it ends. *)
Definition pushes_at_most {C A : Type} (n : nat) (m : M C A) : Prop :=
  forall w, exists l, pushed (snd (m w)) = pushed w ++ l /\ (length l <= n)%nat.

(** The pointer [p] is null or names a wrapper of which it is the only
    owner. *)
Definition sole_owner {T : Type} (p : shared_ptr) (h : gmap nat (T * nat)) : Prop :=
  match p with
  | None => True
  | Some id => exists obj, h !! id = Some (obj, 1%nat)
  end.

(** The heap once the only owner of [p] has let it go. *)
Definition without {T : Type} (p : shared_ptr) (h : gmap nat (T * nat)) : gmap nat (T * nat) :=
  match p with
  | None => h
  | Some id => delete id h
  end.

(** Every image is the only owner of its two wrappers, no two images share
    one, and the heaps hold no wrapper besides: each live wrapper is the
    current wrapper of an image. *)
Definition store_exact {C : Type} (w : world C) : Prop :=
  (forall (img : nat) (i : av_img_t),
     images w !! img = Some i ->
     sole_owner (sample_buffer i) (samples w) /\ sole_owner (pixel_buffer i) (pixels w)) /\
  wrappers_unshared w /\
  (forall id : nat, is_Some (samples w !! id) ->
     exists img i, images w !! img = Some i /\ sample_buffer i = Some id) /\
  (forall id : nat, is_Some (pixels w !! id) ->
     exists img i, images w !! img = Some i /\ pixel_buffer i = Some id).

(** ** More sample data *)

(** A display whose id is above [INT_MAX]: its name is a negative number,
    and [display] finds it by that name. *)
Definition large_id_display : native_env :=
  {| CGMainDisplayID := 1;
     CGGetActiveDisplayList := Some [1; 4294967295];
     getDisplayName := fun _ => None;
     CGDisplayCopyDisplayMode := fun _ => Some (1920, 1080);
     CGDisplayPixels := fun _ => (1920, 1080);
     isHDRSupported := fun _ => false;
     shareable_content := Some (content_displays [1; 4294967295]);
     addStreamOutput_error := false |}.

(** A stream bound to another display than the one asked for: the content
    lists display 2 only, and the sizes of the two differ. *)
Definition fallback_env : native_env :=
  {| CGMainDisplayID := 1;
     CGGetActiveDisplayList := Some [1];
     getDisplayName := fun _ => None;
     CGDisplayCopyDisplayMode :=
       fun d => if d =? 1 then Some (1280, 720) else Some (3840, 2160);
     CGDisplayPixels := fun _ => (0, 0);
     isHDRSupported := fun d => d =? 2;
     shareable_content := Some (content_displays [2]);
     addStreamOutput_error := false |}.

(** An encoder with one unbound frame of 1280x720. *)
Definition small_frame : AVFrame :=
  {| frame_width := 1280; frame_height := 720; frame_buf0 := None; frame_data3 := None |}.

Definition unbound_encoder : encoder :=
  {| av_frames := {[ 0%nat := small_frame ]}; av_buffers := ∅; cf_retain_count := ∅ |}.

(** What the frameworks answer when the screenshot and every object after
    it are made: the image buffer of [frame_1080p] under the sample handle 7. *)
Definition sample_answers : screenshot_answers :=
  {| shot_image := Some (1920, 1080);
     shot_error := None;
     CVPixelBufferCreate_success := true;
     CVPixelBufferCreate_buffer := sb_image_buffer frame_1080p;
     CGBitmapContextCreate_made := true;
     CMVideoFormatDescriptionCreate_made := true;
     CMSampleBufferCreate_made := Some 7%nat |}.

(** An idle session set to the 8-bit bi-planar format. *)
Definition biplanar_session : ApolloScreenCapture :=
  set_pixelFormat kCVPixelFormatType_420YpCbCr8BiPlanarVideoRange idle_session.

(** * Properties *)

(** ** Integer conversion *)

Lemma to_size_t_small (x : Z) : 0 <= x < 2 ^ 64 -> to_size_t x = x.
Proof. intros H. unfold to_size_t. apply Z.mod_small. exact H. Qed.

(** A negative [int] does not keep its value as a [size_t]. *)
Lemma to_size_t_negative (x : Z) : - 2 ^ 31 <= x < 0 -> to_size_t x = 2 ^ 64 + x.
Proof.
  intros H. unfold to_size_t.
  rewrite <- (Z.mod_small (2 ^ 64 + x) (2 ^ 64)) by lia.
  rewrite <- (Z_mod_plus_full x 1 (2 ^ 64)). f_equal. lia.
Qed.

Lemma to_int_small (x : Z) : int_min <= x <= int_max -> to_int x = x.
Proof.
  unfold to_int, int_min, int_max. intros H.
  rewrite Z.mod_small by lia. lia.
Qed.

Lemma to_int_range (x : Z) : int_min <= to_int x <= int_max.
Proof.
  unfold to_int, int_min, int_max.
  pose proof (Z.mod_pos_bound (x + 2 ^ 31) (2 ^ 32) ltac:(lia)). lia.
Qed.

Lemma int_div_defined (a b : Z) :
  b <> 0 -> ~ (a = int_min /\ b = -1) -> int_div a b = Some (Z.quot a b).
Proof.
  intros Hb Hov. unfold int_div.
  destruct (Z.eqb_spec b 0); [contradiction|].
  destruct (Z.eqb_spec a int_min), (Z.eqb_spec b (-1)); simpl; try reflexivity.
  exfalso. apply Hov. split; assumption.
Qed.

Lemma int_div_some (a b q : Z) : int_div a b = Some q -> b <> 0 /\ q = Z.quot a b.
Proof.
  unfold int_div. destruct (Z.eqb_spec b 0); [discriminate|].
  destruct ((a =? int_min) && (b =? -1)); [discriminate|].
  intros [= <-]. split; [assumption | reflexivity].
Qed.

(** ** Use counts *)

Section SharedPtrFacts.
Context {T : Type}.
Implicit Types (h : gmap nat (T * nat)) (p q : shared_ptr).

Lemma sp_held_weaken (n m : nat) p h : sp_held n p h -> (m <= n)%nat -> sp_held m p h.
Proof.
  destruct p as [id|]; simpl; [|trivial].
  intros (obj & c & Hl & Hc) Hm. exists obj, c. split; [assumption | lia].
Qed.

Lemma sp_held_alive (n : nat) p h : sp_held n p h -> sp_alive p h = true.
Proof.
  destruct p as [id|]; simpl; [|reflexivity].
  intros (obj & c & Hl & _). apply bool_decide_eq_true. rewrite Hl. eauto.
Qed.

(** Copying a held pointer succeeds and adds an owner. *)
Lemma sp_acquire_held (n : nat) p h :
  sp_held n p h -> exists h', sp_acquire p h = Some h' /\ sp_held (S n) p h'.
Proof.
  destruct p as [id|]; simpl.
  - intros (obj & c & Hl & Hc). rewrite Hl. eexists. split; [reflexivity|].
    exists obj, (S c). rewrite lookup_insert_eq. split; [reflexivity | lia].
  - intros _. eexists. split; [reflexivity | exact I].
Qed.

(** Copying some pointer never takes an owner away from another. *)
Lemma sp_acquire_keeps (n : nat) p q h h' :
  sp_acquire q h = Some h' -> sp_held n p h -> sp_held n p h'.
Proof.
  destruct q as [j|]; simpl; [|intros [= <-]; trivial].
  destruct (h !! j) as [[obj c]|] eqn:Hj; [|discriminate].
  intros [= <-]. destruct p as [id|]; simpl; [|trivial].
  intros (obj' & c' & Hl & Hc).
  destruct (decide (j = id)) as [->|Hne].
  - rewrite lookup_insert_eq. rewrite Hl in Hj. injection Hj as -> ->.
    exists obj, (S c). split; [reflexivity | lia].
  - rewrite lookup_insert_ne by assumption. eauto.
Qed.

Lemma sp_acquire_lookup_ne p h h' (id : nat) :
  sp_acquire p h = Some h' -> p <> Some id -> h' !! id = h !! id.
Proof.
  destruct p as [j|]; simpl; [|intros [= <-]; reflexivity].
  destruct (h !! j) as [[obj c]|]; [|discriminate].
  intros [= <-] Hne. apply lookup_insert_ne. congruence.
Qed.

Lemma sp_acquire_lookup_eq h (id : nat) obj c :
  h !! id = Some (obj, c) ->
  sp_acquire (Some id) h = Some (<[id := (obj, S c)]> h).
Proof. simpl. intros ->. reflexivity. Qed.

(** Dropping a pointer that has a second owner succeeds and keeps the
    object. *)
Lemma sp_release_held (n : nat) p h :
  sp_held (S (S n)) p h -> exists h', sp_release p h = Some h' /\ sp_held (S n) p h'.
Proof.
  destruct p as [id|]; simpl.
  - intros (obj & c & Hl & Hc). rewrite Hl.
    destruct c as [|[|c]]; try lia.
    eexists. split; [reflexivity|].
    exists obj, (S c). rewrite lookup_insert_eq. split; [reflexivity | lia].
  - intros _. eexists. split; [reflexivity | exact I].
Qed.

(** Dropping any owned pointer succeeds. *)
Lemma sp_release_defined (n : nat) p h : sp_held n p h -> is_Some (sp_release p h).
Proof.
  destruct p as [id|]; simpl; [|eauto].
  intros (obj & c & Hl & _). rewrite Hl. destruct c as [|[|c]]; eauto.
Qed.

Lemma sp_release_lookup_ne p h h' (id : nat) :
  sp_release p h = Some h' -> p <> Some id -> h' !! id = h !! id.
Proof.
  destruct p as [j|]; simpl; [|intros [= <-]; reflexivity].
  destruct (h !! j) as [[obj [|[|c]]]|]; try discriminate;
    intros [= <-] Hne;
    first [apply lookup_insert_ne; congruence | apply lookup_delete_ne; congruence].
Qed.

Lemma sp_release_keeps (n : nat) p q h h' :
  sp_release q h = Some h' -> q <> p -> sp_held n p h -> sp_held n p h'.
Proof.
  intros Hr Hne. destruct p as [id|]; simpl; [|trivial].
  intros (obj & c & Hl & Hc). exists obj, c. split; [|assumption].
  rewrite (sp_release_lookup_ne _ _ _ _ Hr) by assumption. assumption.
Qed.

(** A wrapper made and dropped again leaves the heap as it was. *)
Lemma sp_make_release (obj : T) h :
  sp_release (Some (sp_make obj h).1) (sp_make obj h).2 = Some h.
Proof.
  unfold sp_make. simpl. rewrite lookup_insert_eq.
  f_equal. apply delete_insert_id.
  apply not_elem_of_dom. apply is_fresh.
Qed.

Lemma sp_make_fresh (obj : T) h : h !! (sp_make obj h).1 = None.
Proof. unfold sp_make. simpl. apply not_elem_of_dom. apply is_fresh. Qed.

Lemma sp_make_lookup (obj : T) h :
  (sp_make obj h).2 !! (sp_make obj h).1 = Some (obj, 1%nat).
Proof. unfold sp_make. simpl. apply lookup_insert_eq. Qed.

Lemma sp_make_keeps (n : nat) (obj : T) p h :
  sp_held n p h -> sp_held n p (sp_make obj h).2 /\ p <> Some (sp_make obj h).1.
Proof.
  destruct p as [id|]; simpl; [|split; [trivial | discriminate]].
  intros (obj' & c & Hl & Hc).
  assert (Hne : fresh (dom h) <> id).
  { intros He. pose proof (is_fresh (dom h)) as Hf. rewrite He in Hf.
    apply Hf. apply elem_of_dom. rewrite Hl. eauto. }
  split.
  - exists obj', c. rewrite lookup_insert_ne by assumption. split; assumption.
  - congruence.
Qed.

Lemma others_kept_refl (old : shared_ptr) h : others_kept old h h.
Proof. intros p n _ H. exact H. Qed.

Lemma others_kept_acquire (old : shared_ptr) q h0 h h' :
  sp_acquire q h = Some h' -> others_kept old h0 h -> others_kept old h0 h'.
Proof. intros Ha Hk p n Hne H. eapply sp_acquire_keeps; [exact Ha | apply Hk; assumption]. Qed.

Lemma others_kept_release (old : shared_ptr) h0 h h' :
  sp_release old h = Some h' -> others_kept old h0 h -> others_kept old h0 h'.
Proof.
  intros Hr Hk p n Hne H. eapply sp_release_keeps; [exact Hr | congruence | apply Hk; assumption].
Qed.

End SharedPtrFacts.

(** ** Rules for triples *)

Section HoareRules.
Context {C : Type} {consumer_callbacks : Consumer C}.
Implicit Types (w : world C) (P E : world C -> Prop).

Lemma hoare_ret {A} (a : A) P (Q : A -> world C -> Prop) E :
  (forall w, P w -> Q a w) -> hoare P (ret a) Q E.
Proof. intros H w Hw. simpl. auto. Qed.

Lemma hoare_bind {A B} P (m : M C A) (k : A -> M C B) (Q : A -> world C -> Prop)
  (R : B -> world C -> Prop) E :
  hoare P m Q E -> (forall a, hoare (Q a) (k a) R E) -> hoare P (bind m k) R E.
Proof.
  intros Hm Hk w Hw. unfold bind. specialize (Hm w Hw).
  destruct (m w) as [[a| |] w']; [|assumption|assumption].
  apply (Hk a w' Hm).
Qed.

Lemma hoare_consequence {A} (P P' : world C -> Prop) (m : M C A)
  (Q Q' : A -> world C -> Prop) (E E' : world C -> Prop) :
  hoare P' m Q' E' ->
  (forall w, P w -> P' w) -> (forall a w, Q' a w -> Q a w) -> (forall w, E' w -> E w) ->
  hoare P m Q E.
Proof.
  intros H HP HQ HE w Hw. specialize (H w (HP w Hw)).
  destruct (m w) as [[a| |] w']; auto.
Qed.

Lemma hoare_gets {A} (f : world C -> A) P (Q : A -> world C -> Prop) E :
  (forall w, P w -> Q (f w) w) -> hoare P (gets f) Q E.
Proof. intros H w Hw. simpl. auto. Qed.

Lemma hoare_modify (f : world C -> world C) P (Q : unit -> world C -> Prop) E :
  (forall w, P w -> Q tt (f w)) -> hoare P (modify f) Q E.
Proof. intros H w Hw. simpl. auto. Qed.

Lemma hoare_try_modify (f : world C -> option (world C)) P (Q : unit -> world C -> Prop) E :
  (forall w, P w -> match f w with Some w' => Q tt w' | None => E w end) ->
  hoare P (try_modify f) Q E.
Proof.
  intros H w Hw. unfold try_modify. specialize (H w Hw).
  destruct (f w); assumption.
Qed.

Lemma hoare_of_option {A} (o : option A) P (Q : A -> world C -> Prop) E :
  (forall w, P w -> match o with Some a => Q a w | None => E w end) ->
  hoare P (of_option o) Q E.
Proof. intros H w Hw. specialize (H w Hw). destruct o; simpl; assumption. Qed.

Lemma hoare_run_steps_snoc (l : list (M C unit)) (s : M C unit) P (Q R : world C -> Prop) E :
  hoare P (run_steps l) (fun _ => Q) E ->
  hoare Q s (fun _ => R) E ->
  hoare P (run_steps (l ++ [s])) (fun _ => R) E.
Proof.
  revert P. induction l as [|s0 l IH]; intros P Hl Hs.
  - simpl. eapply hoare_bind with (Q := fun _ => R).
    + eapply hoare_consequence; [exact Hs | | auto | auto].
      intros w Hw. exact (Hl w Hw).
    + intros _. apply hoare_ret. auto.
  - simpl. intros w Hw. unfold bind.
    pose proof (Hl w Hw) as H0. simpl in H0. unfold bind in H0.
    destruct (s0 w) as [[[]| |] w1]; [|assumption|assumption].
    apply (IH (fun w' => w' = w1)); [|exact Hs|reflexivity].
    intros w' ->. exact H0.
Qed.

End HoareRules.

(** ** The steps of the hand-off *)

Section HandoffFacts.
Context {C : Type} {consumer_callbacks : Consumer C}.
Implicit Types (w : world C).

Ltac unfold_step :=
  unfold make_retainer, set_sample_buffer, set_pixel_buffer, set_data, set_width,
    set_height, set_row_pitch, set_pixel_pitch, release_retainer, leave_block,
    acquire_sample, release_sample, acquire_pixel, release_pixel,
    load_img, store_img, load_pixel_buf, load_sample_buf,
    bind, gets, modify, try_modify, of_option, ret, undefined.

Ltac split_window :=
  unfold window, same_surroundings in *; cbn;
  repeat match goal with |- _ /\ _ => split end.

Lemma window_guard_holds img g cur ns np so po (cs cp cns cnp : nat) (w0 w : world C) :
  window img g cur ns np so po (S cs) (S cp) cns cnp w0 w -> guard_holds g w.
Proof.
  intros (_ & Hg & Hs & Hp & _). split; [assumption|].
  split; eapply sp_held_alive; eassumption.
Qed.

Lemma window_image img g cur ns np so po (cs cp cns cnp : nat) (w0 w : world C) :
  window img g cur ns np so po cs cp cns cnp w0 w -> images w !! img = Some cur.
Proof. intros (Hi & _). rewrite Hi. apply lookup_insert_eq. Qed.

(** Step 1: the guard is built, nothing else moves. *)
Lemma make_retainer_spec img i ns np so po (cns cnp : nat) (w0 : world C) :
  images w0 !! img = Some i ->
  sp_held 1 (sample_buffer i) (samples w0) ->
  sp_held 1 (pixel_buffer i) (pixels w0) ->
  samples w0 !! ns = Some (so, cns) ->
  pixels w0 !! np = Some (po, cnp) ->
  sample_buffer i <> Some ns ->
  pixel_buffer i <> Some np ->
  hoare (eq w0) (make_retainer img)
    (fun _ => window img (guard_of i) i ns np so po 2 2 cns cnp w0) (fun _ => False).
Proof.
  intros Hi Hs Hp Hns Hnp Hfs Hfp w <-.
  destruct (sp_acquire_held _ _ _ Hs) as (hs & Eas & Hhs).
  destruct (sp_acquire_held _ _ _ Hp) as (hp & Eap & Hhp).
  unfold_step. rewrite Hi.
  cbn [fst snd samples pixels with_samples with_pixels fmap option_fmap option_map].
  rewrite Eas. cbn. rewrite Eap. cbn.
  split_window; try assumption; try reflexivity.
  - symmetry. apply insert_id. assumption.
  - rewrite (sp_acquire_lookup_ne _ _ _ _ Eas) by assumption. assumption.
  - rewrite (sp_acquire_lookup_ne _ _ _ _ Eap) by assumption. assumption.
  - eapply others_kept_acquire; [exact Eas | apply others_kept_refl].
  - eapply others_kept_acquire; [exact Eap | apply others_kept_refl].
Qed.

(** Step 2: the image takes the new sample wrapper, which gains an owner;
    the old one loses the image as an owner and keeps the guard. *)
Lemma set_sample_buffer_spec img g cur ns np so po (cp cns cnp : nat) (w0 : world C) :
  retained_sample g = sample_buffer cur ->
  sample_buffer cur <> Some ns ->
  hoare (window img g cur ns np so po 2 cp cns cnp w0) (set_sample_buffer img ns)
    (fun _ => window img g (set_sample_buffer_field (Some ns) cur) ns np so po
                1 cp (S cns) cnp w0)
    (fun _ => False).
Proof.
  intros Hg Hf w (Hi & Hr & Hs & Hp & Hns & Hnp & Hsur & Hks & Hkp).
  assert (Hl : images w !! img = Some cur) by (rewrite Hi; apply lookup_insert_eq).
  rewrite Hg in Hs, Hks.
  pose proof (sp_acquire_lookup_eq _ _ _ _ Hns) as Ea.
  assert (Hs1 : sp_held 2 (sample_buffer cur) (<[ns := (so, S cns)]> (samples w)))
    by (eapply sp_acquire_keeps; eassumption).
  destruct (sp_release_held _ _ _ Hs1) as (h2 & Er & Hh2).
  unfold_step. rewrite Hl.
  cbn [fst snd samples with_samples with_images fmap option_fmap option_map].
  rewrite Ea. cbn. rewrite Er. cbn.
  destruct Hsur as (Hc & Hpu & Hsc & Hrq).
  split_window; try assumption; try reflexivity.
  - rewrite Hi. apply insert_insert_eq.
  - rewrite Hg. assumption.
  - rewrite (sp_release_lookup_ne _ _ _ _ Er) by assumption. apply lookup_insert_eq.
  - rewrite Hg. eapply others_kept_release; [exact Er|].
    eapply others_kept_acquire; [exact Ea | assumption].
Qed.

(** Step 3: the same for the pixel wrapper. *)
Lemma set_pixel_buffer_spec img g cur ns np so po (cs cns cnp : nat) (w0 : world C) :
  retained_pixel g = pixel_buffer cur ->
  pixel_buffer cur <> Some np ->
  hoare (window img g cur ns np so po cs 2 cns cnp w0) (set_pixel_buffer img np)
    (fun _ => window img g (set_pixel_buffer_field (Some np) cur) ns np so po
                cs 1 cns (S cnp) w0)
    (fun _ => False).
Proof.
  intros Hg Hf w (Hi & Hr & Hs & Hp & Hns & Hnp & Hsur & Hks & Hkp).
  assert (Hl : images w !! img = Some cur) by (rewrite Hi; apply lookup_insert_eq).
  rewrite Hg in Hp, Hkp.
  pose proof (sp_acquire_lookup_eq _ _ _ _ Hnp) as Ea.
  assert (Hp1 : sp_held 2 (pixel_buffer cur) (<[np := (po, S cnp)]> (pixels w)))
    by (eapply sp_acquire_keeps; eassumption).
  destruct (sp_release_held _ _ _ Hp1) as (h2 & Er & Hh2).
  unfold_step. rewrite Hl.
  cbn [fst snd pixels with_pixels with_images fmap option_fmap option_map].
  rewrite Ea. cbn. rewrite Er. cbn.
  destruct Hsur as (Hc & Hpu & Hsc & Hrq).
  split_window; try assumption; try reflexivity.
  - rewrite Hi. apply insert_insert_eq.
  - rewrite Hg. assumption.
  - rewrite (sp_release_lookup_ne _ _ _ _ Er) by assumption. apply lookup_insert_eq.
  - rewrite Hg. eapply others_kept_release; [exact Er|].
    eapply others_kept_acquire; [exact Ea | assumption].
Qed.

(** Steps 4 to 7 read the new pixel wrapper and write one field. *)
Lemma field_write_spec (f : av_pixel_buf_t -> av_img_t -> av_img_t)
  img g cur ns np so po (cs cp cns cnp : nat) (w0 : world C) :
  hoare (window img g cur ns np so po cs cp cns cnp w0)
    (bind (load_pixel_buf np) (fun p =>
       bind (load_img img) (fun i => store_img img (f p i))))
    (fun _ => window img g (f po cur) ns np so po cs cp cns cnp w0)
    (fun _ => False).
Proof.
  intros w (Hi & Hr & Hs & Hp & Hns & Hnp & Hsur & Hks & Hkp).
  assert (Hl : images w !! img = Some cur) by (rewrite Hi; apply lookup_insert_eq).
  unfold_step. rewrite Hnp. cbn. rewrite Hl. cbn.
  destruct Hsur as (Hc & Hpu & Hsc & Hrq).
  split_window; try assumption; try reflexivity.
  rewrite Hi. apply insert_insert_eq.
Qed.

(** Step 8: the pitch is written where the division is defined; otherwise
    the run stops inside the window. *)
Lemma set_pixel_pitch_spec img g cur ns np so po (cs cp cns cnp : nat) (w0 : world C) :
  hoare (window img g cur ns np so po cs cp cns cnp w0) (set_pixel_pitch img)
    (fun _ w => exists q, int_div (row_pitch cur) (width cur) = Some q /\
                          window img g (set_pixel_pitch_field q cur) ns np so po
                            cs cp cns cnp w0 w)
    (fun w => int_div (row_pitch cur) (width cur) = None /\
              window img g cur ns np so po cs cp cns cnp w0 w).
Proof.
  intros w Hw. pose proof Hw as (Hi & Hr & Hs & Hp & Hns & Hnp & Hsur & Hks & Hkp).
  assert (Hl : images w !! img = Some cur) by (rewrite Hi; apply lookup_insert_eq).
  unfold_step. rewrite Hl. cbn.
  destruct (int_div (row_pitch cur) (width cur)) as [q|] eqn:Eq; cbn.
  - exists q. split; [reflexivity|].
    destruct Hsur as (Hc & Hpu & Hsc & Hrq).
    split_window; try assumption; try reflexivity.
    rewrite Hi. apply insert_insert_eq.
  - split; [reflexivity | assumption].
Qed.

(** Step 9: the guard goes; the image and the new wrappers stay. *)
Lemma release_retainer_spec img g cur ns np so po (cns cnp : nat) (w0 : world C) :
  retained_sample g <> Some ns ->
  retained_pixel g <> Some np ->
  hoare (window img g cur ns np so po 1 1 cns cnp w0) release_retainer
    (fun _ w => images w = <[img := cur]> (images w0) /\
                old_data_retainer w = None /\
                samples w !! ns = Some (so, cns) /\
                pixels w !! np = Some (po, cnp) /\
                same_surroundings w0 w /\
                others_kept (retained_sample g) (samples w0) (samples w) /\
                others_kept (retained_pixel g) (pixels w0) (pixels w))
    (fun _ => False).
Proof.
  intros Hfs Hfp w (Hi & Hr & Hs & Hp & Hns & Hnp & Hsur & Hks & Hkp).
  destruct (sp_release_defined _ _ _ Hs) as [hs Ers].
  destruct (sp_release_defined _ _ _ Hp) as [hp Erp].
  unfold_step. rewrite Hr. cbn. rewrite Erp. cbn. rewrite Ers. cbn.
  destruct Hsur as (Hc & Hpu & Hsc & Hrq).
  split_window; try assumption; try reflexivity.
  - rewrite (sp_release_lookup_ne _ _ _ _ Ers) by assumption. assumption.
  - rewrite (sp_release_lookup_ne _ _ _ _ Erp) by assumption. assumption.
  - eapply others_kept_release; eassumption.
  - eapply others_kept_release; eassumption.
Qed.

End HandoffFacts.

(** ** The hand-off as a whole *)

Lemma partly_installed_1 (i : av_img_t) (ns np : nat) (pb : CVPixelBufferRef) :
  partly_installed 1 i ns np pb = i.
Proof. destruct i. reflexivity. Qed.

Section HandoffChain.
Context {C : Type} {consumer_callbacks : Consumer C}.
Variables (img : nat) (i : av_img_t) (ns np : nat).
Variables (so : av_sample_buf_t) (po : av_pixel_buf_t) (cns cnp : nat) (w0 : world C).

Hypothesis Himg : images w0 !! img = Some i.
Hypothesis Hown_s : sp_held 1 (sample_buffer i) (samples w0).
Hypothesis Hown_p : sp_held 1 (pixel_buffer i) (pixels w0).
Hypothesis Hns : samples w0 !! ns = Some (so, cns).
Hypothesis Hnp : pixels w0 !! np = Some (po, cnp).
Hypothesis Hfresh_s : sample_buffer i <> Some ns.
Hypothesis Hfresh_p : pixel_buffer i <> Some np.

Local Abbreviation g := (guard_of i).
Local Abbreviation pb := (pixel_buf po).
Local Abbreviation steps := (handoff img ns np).
Local Abbreviation pitch :=
  (int_div (to_int (CVPixelBufferGetBytesPerRow pb)) (to_int (CVPixelBufferGetWidth pb))).

(** Where a run may stop short: at the division, inside the window. *)
Local Abbreviation stuck :=
  (fun w : world C => pitch = None /\ guard_holds g w /\ same_surroundings w0 w).

(** The window after [k] steps, [k] from 1 to 7. *)
Local Abbreviation window_after k :=
  (window img g (partly_installed k i ns np pb) ns np so po
     (if (k <? 2)%nat then 2%nat else 1%nat) (if (k <? 3)%nat then 2%nat else 1%nat)
     (if (k <? 2)%nat then cns else S cns) (if (k <? 3)%nat then cnp else S cnp) w0).

Local Ltac next_step k s H :=
  apply (hoare_run_steps_snoc (firstn k steps) s) with (Q := window_after k);
  [assumption | apply H].

Lemma prefix_1 :
  hoare (eq w0) (run_steps (firstn 1 steps)) (fun _ => window_after 1%nat) (fun _ => False).
Proof.
  apply (hoare_run_steps_snoc [] (make_retainer img)) with (Q := eq w0).
  - apply hoare_ret. auto.
  - eapply hoare_consequence;
      [apply (make_retainer_spec img i ns np so po cns cnp w0); assumption
      | auto | | auto].
    intros a w Hw. rewrite partly_installed_1. exact Hw.
Qed.

Lemma prefix_2 :
  hoare (eq w0) (run_steps (firstn 2 steps)) (fun _ => window_after 2%nat) (fun _ => False).
Proof.
  pose proof prefix_1 as H1.
  next_step 1%nat (set_sample_buffer (C:=C) img ns)
    (set_sample_buffer_spec img g (partly_installed 1 i ns np pb) ns np so po 2 cns cnp w0).
  - reflexivity.
  - assumption.
Qed.

Lemma prefix_3 :
  hoare (eq w0) (run_steps (firstn 3 steps)) (fun _ => window_after 3%nat) (fun _ => False).
Proof.
  pose proof prefix_2 as H2.
  next_step 2%nat (set_pixel_buffer (C:=C) img np)
    (set_pixel_buffer_spec img g (partly_installed 2 i ns np pb) ns np so po 1 (S cns) cnp w0).
  - reflexivity.
  - assumption.
Qed.

Lemma prefix_4 :
  hoare (eq w0) (run_steps (firstn 4 steps)) (fun _ => window_after 4%nat) (fun _ => False).
Proof.
  pose proof prefix_3 as H3.
  next_step 3%nat (set_data (C:=C) img np)
    (field_write_spec (fun p => set_data_field (av_pixel_buf_data p))
       img g (partly_installed 3 i ns np pb) ns np so po 1 1 (S cns) (S cnp) w0).
Qed.

Lemma prefix_5 :
  hoare (eq w0) (run_steps (firstn 5 steps)) (fun _ => window_after 5%nat) (fun _ => False).
Proof.
  pose proof prefix_4 as H4.
  next_step 4%nat (set_width (C:=C) img np)
    (field_write_spec (fun p => set_width_field (to_int (CVPixelBufferGetWidth (pixel_buf p))))
       img g (partly_installed 4 i ns np pb) ns np so po 1 1 (S cns) (S cnp) w0).
Qed.

Lemma prefix_6 :
  hoare (eq w0) (run_steps (firstn 6 steps)) (fun _ => window_after 6%nat) (fun _ => False).
Proof.
  pose proof prefix_5 as H5.
  next_step 5%nat (set_height (C:=C) img np)
    (field_write_spec (fun p => set_height_field (to_int (CVPixelBufferGetHeight (pixel_buf p))))
       img g (partly_installed 5 i ns np pb) ns np so po 1 1 (S cns) (S cnp) w0).
Qed.

Lemma prefix_7 :
  hoare (eq w0) (run_steps (firstn 7 steps)) (fun _ => window_after 7%nat) (fun _ => False).
Proof.
  pose proof prefix_6 as H6.
  next_step 6%nat (set_row_pitch (C:=C) img np)
    (field_write_spec
       (fun p => set_row_pitch_field (to_int (CVPixelBufferGetBytesPerRow (pixel_buf p))))
       img g (partly_installed 6 i ns np pb) ns np so po 1 1 (S cns) (S cnp) w0).
Qed.

(** After the eighth step every field is new and the guard is still held. *)
Lemma prefix_8 :
  hoare (eq w0) (run_steps (firstn 8 steps))
    (fun _ w => exists q, pitch = Some q /\
                          window img g (installed ns np pb q) ns np so po
                            1 1 (S cns) (S cnp) w0 w) stuck.
Proof.
  assert (H7 : hoare (eq w0) (run_steps (firstn 7 steps))
                 (fun _ => window_after 7%nat) stuck).
  { eapply hoare_consequence; [apply prefix_7 | auto | auto | intros ? []]. }
  apply (hoare_run_steps_snoc (firstn 7 steps) (set_pixel_pitch img)) with
    (Q := window_after 7%nat);
    [assumption|].
  eapply hoare_consequence;
    [apply (set_pixel_pitch_spec img g (partly_installed 7 i ns np pb) ns np so po
              1 1 (S cns) (S cnp) w0)
    | auto | | ].
  - intros _ w (q & Hq & Hw). exists q. split; [exact Hq | exact Hw].
  - intros w [Hq Hw]. split; [exact Hq|]. split.
    + eapply window_guard_holds. exact Hw.
    + apply Hw.
Qed.

(** The whole hand-off: the image is the installed one, the guard is gone,
    and each new wrapper has gained the image as an owner. *)
Lemma handoff_spec :
  hoare (eq w0) (run_steps steps)
    (fun _ w => exists q, pitch = Some q /\
                          images w = <[img := installed ns np pb q]> (images w0) /\
                          old_data_retainer w = None /\
                          samples w !! ns = Some (so, S cns) /\
                          pixels w !! np = Some (po, S cnp) /\
                          same_surroundings w0 w /\
                          others_kept (sample_buffer i) (samples w0) (samples w) /\
                          others_kept (pixel_buffer i) (pixels w0) (pixels w)) stuck.
Proof.
  pose proof prefix_8 as H8.
  apply (hoare_run_steps_snoc (firstn 8 steps) release_retainer) with
    (Q := fun w => exists q, pitch = Some q /\
                             window img g (installed ns np pb q) ns np so po
                               1 1 (S cns) (S cnp) w0 w);
    [assumption|].
  intros w (q & Hq & Hw).
  pose proof (release_retainer_spec img g (installed ns np pb q) ns np so po (S cns) (S cnp) w0
                Hfresh_s Hfresh_p w Hw) as H.
  destruct (release_retainer w) as [[[]| |] w']; try contradiction.
  exists q. split; [exact Hq | exact H].
Qed.

End HandoffChain.

(** ** Running the primitives *)

Section RunFacts.
Context {C : Type} {consumer_callbacks : Consumer C}.
Implicit Types (w : world C).

Lemma bind_run {A B} (m : M C A) (k : A -> M C B) w a w1 :
  m w = (Ret a, w1) -> bind m k w = k a w1.
Proof. intros H. unfold bind. rewrite H. reflexivity. Qed.

Lemma make_shared_sample_run (sb : CMSampleBufferRef) w :
  make_shared_sample sb w =
  (Ret (new_sample_id w),
   with_samples (<[new_sample_id w := ({| sample_buf := sb |}, 1%nat)]> (samples w)) w).
Proof. reflexivity. Qed.

Lemma make_shared_pixel_run (sb : CMSampleBufferRef) w :
  make_shared_pixel sb w =
  (Ret (new_pixel_id w),
   with_pixels (<[new_pixel_id w :=
                    ({| pixel_buf := CMSampleBufferGetImageBuffer sb |}, 1%nat)]> (pixels w)) w).
Proof. reflexivity. Qed.

Lemma load_sample_buf_run (id : nat) obj (c : nat) w :
  samples w !! id = Some (obj, c) -> load_sample_buf id w = (Ret obj, w).
Proof. intros H. unfold load_sample_buf, bind, gets, of_option. rewrite H. reflexivity. Qed.

Lemma load_img_run (img : nat) i w :
  images w !! img = Some i -> load_img img w = (Ret i, w).
Proof. intros H. unfold load_img, bind, gets, of_option. rewrite H. reflexivity. Qed.

Lemma call_pull_run r c' w :
  pull_free_image_cb (consumer w) = (r, c') -> call_pull w = (Ret r, with_consumer c' w).
Proof. intros H. unfold call_pull. rewrite H. reflexivity. Qed.

Lemma call_push_run (img : nat) i (cursor b : bool) c' w :
  images w !! img = Some i ->
  push_captured_image_cb img i cursor (consumer w) = (b, c') ->
  call_push img cursor w =
  (Ret b, with_pushed (pushed w ++ [(img, i)]) (with_consumer c' w)).
Proof.
  intros Hi Hp. unfold call_push. erewrite bind_run by (apply load_img_run; exact Hi).
  rewrite Hp. reflexivity.
Qed.

Lemma release_pixel_run p h w :
  sp_release p (pixels w) = Some h -> release_pixel p w = (Ret tt, with_pixels h w).
Proof. intros H. unfold release_pixel, try_modify. rewrite H. reflexivity. Qed.

Lemma release_sample_run p h w :
  sp_release p (samples w) = Some h -> release_sample p w = (Ret tt, with_samples h w).
Proof. intros H. unfold release_sample, try_modify. rewrite H. reflexivity. Qed.

Lemma leave_block_run (ns np : nat) hs hp w :
  sp_release (Some np) (pixels w) = Some hp ->
  sp_release (Some ns) (samples w) = Some hs ->
  leave_block ns np w = (Ret tt, with_samples hs (with_pixels hp w)).
Proof.
  intros Hp Hs. unfold leave_block.
  erewrite bind_run by (apply release_pixel_run; exact Hp).
  apply release_sample_run. exact Hs.
Qed.

End RunFacts.

(** ** The two frame blocks *)

Section BlockFacts.
Context {C : Type} {consumer_callbacks : Consumer C}.
Implicit Types (w : world C).

(** A frame for which the consumer hands out no image: the block returns
    [false]; the wrappers made for the frame are gone again and only the
    consumer has changed. *)
Lemma capture_block_pull_failed (sb : CMSampleBufferRef) w o c' :
  pull_free_image_cb (consumer w) = ((false, o), c') ->
  capture_block sb w = (Ret false, with_consumer c' w).
Proof.
  intros Hpull. unfold capture_block.
  erewrite bind_run by apply make_shared_sample_run.
  erewrite bind_run by (eapply load_sample_buf_run; apply lookup_insert_eq).
  erewrite bind_run by apply make_shared_pixel_run.
  erewrite bind_run by (apply call_pull_run; exact Hpull).
  cbv beta iota.
  erewrite bind_run by (apply leave_block_run; apply sp_make_release).
  reflexivity.
Qed.

(** The hand-off runs to its end where the division is defined. *)
Lemma handoff_run img i ns np so po (cns cnp : nat) (w0 : world C) q :
  image_owned img i w0 ->
  samples w0 !! ns = Some (so, cns) ->
  pixels w0 !! np = Some (po, cnp) ->
  sample_buffer i <> Some ns ->
  pixel_buffer i <> Some np ->
  int_div (to_int (CVPixelBufferGetBytesPerRow (pixel_buf po)))
          (to_int (CVPixelBufferGetWidth (pixel_buf po))) = Some q ->
  exists w',
    run_steps (handoff img ns np) w0 = (Ret tt, w') /\
    images w' = <[img := installed ns np (pixel_buf po) q]> (images w0) /\
    old_data_retainer w' = None /\
    samples w' !! ns = Some (so, S cns) /\
    pixels w' !! np = Some (po, S cnp) /\
    same_surroundings w0 w' /\
    others_kept (sample_buffer i) (samples w0) (samples w') /\
    others_kept (pixel_buffer i) (pixels w0) (pixels w').
Proof.
  intros (Hi & Hs & Hp) Hns Hnp Hfs Hfp Hq.
  pose proof (handoff_spec img i ns np so po cns cnp w0 Hi Hs Hp Hns Hnp Hfs Hfp w0 eq_refl)
    as H.
  destruct (run_steps (handoff img ns np) w0) as [[[]| |] w'].
  - destruct H as (q' & Hq' & Hrest). exists w'. split; [reflexivity|].
    assert (q' = q) as -> by congruence. exact Hrest.
  - destruct H as [Hnone _]. congruence.
  - destruct H as [Hnone _]. congruence.
Qed.

(** The hand-off stops short, with the guard still held, where the division
    is not defined. *)
Lemma handoff_stuck img i ns np so po (cns cnp : nat) (w0 : world C) :
  image_owned img i w0 ->
  samples w0 !! ns = Some (so, cns) ->
  pixels w0 !! np = Some (po, cnp) ->
  sample_buffer i <> Some ns ->
  pixel_buffer i <> Some np ->
  int_div (to_int (CVPixelBufferGetBytesPerRow (pixel_buf po)))
          (to_int (CVPixelBufferGetWidth (pixel_buf po))) = None ->
  forall a, fst (run_steps (handoff img ns np) w0) <> Ret a.
Proof.
  intros (Hi & Hs & Hp) Hns Hnp Hfs Hfp Hq a.
  pose proof (handoff_spec img i ns np so po cns cnp w0 Hi Hs Hp Hns Hnp Hfs Hfp w0 eq_refl)
    as H.
  destruct (run_steps (handoff img ns np) w0) as [[[]| |] w']; simpl; try discriminate.
  destruct H as (q' & Hq' & _). congruence.
Qed.

(** Where it stops short, nothing around the image has moved. *)
Lemma handoff_stuck_state img i ns np so po (cns cnp : nat) (w0 : world C) :
  image_owned img i w0 ->
  samples w0 !! ns = Some (so, cns) ->
  pixels w0 !! np = Some (po, cnp) ->
  sample_buffer i <> Some ns ->
  pixel_buffer i <> Some np ->
  int_div (to_int (CVPixelBufferGetBytesPerRow (pixel_buf po)))
          (to_int (CVPixelBufferGetWidth (pixel_buf po))) = None ->
  same_surroundings w0 (snd (run_steps (handoff img ns np) w0)).
Proof.
  intros (Hi & Hs & Hp) Hns Hnp Hfs Hfp Hq.
  pose proof (handoff_spec img i ns np so po cns cnp w0 Hi Hs Hp Hns Hnp Hfs Hfp w0 eq_refl)
    as H.
  destruct (run_steps (handoff img ns np) w0) as [[[]| |] w']; simpl.
  - destruct H as (q' & Hq' & _). congruence.
  - apply H.
  - apply H.
Qed.

(** Making the two wrappers of a frame takes no owner from any wrapper, and
    the new identifiers name none of the wrappers held before. *)
Lemma prologue_keeps (sb : CMSampleBufferRef) w c1 (p : shared_ptr) (n : nat) :
  (sp_held n p (samples w) ->
   sp_held n p (samples (handoff_start sb c1 w)) /\ p <> Some (new_sample_id w)) /\
  (sp_held n p (pixels w) ->
   sp_held n p (pixels (handoff_start sb c1 w)) /\ p <> Some (new_pixel_id w)).
Proof.
  split; intros H.
  - exact (sp_make_keeps n {| sample_buf := sb |} _ _ H).
  - exact (sp_make_keeps n {| pixel_buf := CMSampleBufferGetImageBuffer sb |} _ _ H).
Qed.

(** What a block has in hand once it has made its two wrappers: the image
    still owns its old wrappers, and the new ones are fresh, each with the
    block's local pointer as its one owner. *)
Lemma prologue_ready (sb : CMSampleBufferRef) img i w c1 :
  image_owned img i w ->
  image_owned img i (handoff_start sb c1 w) /\
  samples (handoff_start sb c1 w) !! new_sample_id w = Some ({| sample_buf := sb |}, 1%nat) /\
  pixels (handoff_start sb c1 w) !! new_pixel_id w
    = Some ({| pixel_buf := CMSampleBufferGetImageBuffer sb |}, 1%nat) /\
  sample_buffer i <> Some (new_sample_id w) /\
  pixel_buffer i <> Some (new_pixel_id w).
Proof.
  intros (Hi & Hs & Hp).
  destruct (sp_make_keeps 1 {| sample_buf := sb |} _ _ Hs) as [Hs' Hfs].
  destruct (sp_make_keeps 1 {| pixel_buf := CMSampleBufferGetImageBuffer sb |} _ _ Hp)
    as [Hp' Hfp].
  repeat split; try assumption; apply lookup_insert_eq.
Qed.

(** Both blocks are their prologue, the hand-off, and an epilogue. *)
Lemma capture_block_unfold (sb : CMSampleBufferRef) img w c1 :
  pull_free_image_cb (consumer w) = ((true, Some img), c1) ->
  capture_block sb w =
  bind (run_steps (handoff img (new_sample_id w) (new_pixel_id w)))
    (fun _ =>
       bind (call_push img true)
         (fun pushed_ok =>
            if negb pushed_ok
            then bind (leave_block (new_sample_id w) (new_pixel_id w)) (fun _ => ret false)
            else bind (leave_block (new_sample_id w) (new_pixel_id w)) (fun _ => ret true)))
    (handoff_start sb c1 w).
Proof.
  intros Hpull. unfold capture_block.
  erewrite bind_run by apply make_shared_sample_run.
  erewrite bind_run by (eapply load_sample_buf_run; apply lookup_insert_eq).
  erewrite bind_run by apply make_shared_pixel_run.
  erewrite bind_run by (apply call_pull_run; exact Hpull).
  reflexivity.
Qed.

Lemma dummy_img_block_unfold (sb : CMSampleBufferRef) img w :
  dummy_img_block img sb w =
  bind (run_steps (handoff img (new_sample_id w) (new_pixel_id w)))
    (fun _ => bind (leave_block (new_sample_id w) (new_pixel_id w)) (fun _ => ret false))
    (handoff_start sb (consumer w) w).
Proof.
  unfold dummy_img_block.
  erewrite bind_run by apply make_shared_sample_run.
  erewrite bind_run by (eapply load_sample_buf_run; apply lookup_insert_eq).
  erewrite bind_run by apply make_shared_pixel_run.
  reflexivity.
Qed.

(** When the block's two local pointers go, the image is the one owner of
    the new wrappers. *)
Lemma leave_block_owned (ns np : nat) so po img i w :
  images w !! img = Some i ->
  sample_buffer i = Some ns ->
  pixel_buffer i = Some np ->
  samples w !! ns = Some (so, 2%nat) ->
  pixels w !! np = Some (po, 2%nat) ->
  exists w',
    leave_block ns np w = (Ret tt, w') /\
    image_owned img i w' /\
    images w' = images w /\ pushed w' = pushed w /\ consumer w' = consumer w /\
    old_data_retainer w' = old_data_retainer w /\
    sc_capture w' = sc_capture w /\ requests w' = requests w /\
    others_kept (Some ns) (samples w) (samples w') /\
    others_kept (Some np) (pixels w) (pixels w').
Proof.
  intros Hi Hsf Hpf Hs Hp.
  assert (Ers : sp_release (Some ns) (samples w) = Some (<[ns := (so, 1%nat)]> (samples w)))
    by (simpl; rewrite Hs; reflexivity).
  assert (Erp : sp_release (Some np) (pixels w) = Some (<[np := (po, 1%nat)]> (pixels w)))
    by (simpl; rewrite Hp; reflexivity).
  eexists. split.
  - apply leave_block_run; [exact Erp | exact Ers].
  - split.
    { split; [exact Hi|].
      rewrite Hsf, Hpf. split; simpl; eexists _, 1%nat;
        (split; [apply lookup_insert_eq | lia]). }
    do 6 (split; [reflexivity|]).
    split; (eapply others_kept_release; [eassumption | apply others_kept_refl]).
Qed.

(** A pointer other than the image's old one that was held before the
    block is held as much after it. *)
Lemma block_keeps_others {T : Type} (old : shared_ptr) (id : nat)
  (h h0 h4 h' : gmap nat (T * nat)) :
  (forall p n, sp_held n p h -> sp_held n p h0 /\ p <> Some id) ->
  others_kept old h0 h4 ->
  others_kept (Some id) h4 h' ->
  others_kept old h h'.
Proof.
  intros H0 H4 H' p n Hne Hp.
  destruct (H0 p n Hp) as [Hp0 Hid].
  apply H'; [exact Hid|]. apply H4; assumption.
Qed.

(** A frame that is handed over: the block installs the new buffer in the
    image that the consumer supplied, pushes it, and returns what
    [push_captured_image_cb] answers; the image owns its new wrappers. *)
Lemma capture_block_completes (sb : CMSampleBufferRef) img i w c1 q b c2 :
  pull_free_image_cb (consumer w) = ((true, Some img), c1) ->
  image_owned img i w ->
  derived_pitch sb = Some q ->
  let i' := installed (new_sample_id w) (new_pixel_id w) (CMSampleBufferGetImageBuffer sb) q in
  push_captured_image_cb img i' true c1 = (b, c2) ->
  exists w',
    capture_block sb w = (Ret b, w') /\
    images w' = <[img := i']> (images w) /\
    pushed w' = pushed w ++ [(img, i')] /\
    consumer w' = c2 /\
    old_data_retainer w' = None /\
    sc_capture w' = sc_capture w /\
    requests w' = requests w /\
    image_owned img i' w' /\
    others_kept (sample_buffer i) (samples w) (samples w') /\
    others_kept (pixel_buffer i) (pixels w) (pixels w').
Proof.
  intros Hpull Hown Hq i' Hpush.
  destruct (prologue_ready sb img i w c1 Hown) as (Hown3 & Hns & Hnp & Hfs & Hfp).
  destruct (handoff_run img i _ _ _ _ _ _ _ q Hown3 Hns Hnp Hfs Hfp Hq)
    as (w4 & Hrun & Himg & Hret & Hns4 & Hnp4 & (Hcons & Hpushed & Hsc & Hreq) & Hks & Hkp).
  assert (Hl : images w4 !! img = Some i') by (rewrite Himg; apply lookup_insert_eq).
  rewrite (capture_block_unfold sb img w c1 Hpull).
  erewrite bind_run by exact Hrun.
  erewrite bind_run by (eapply call_push_run; [exact Hl | rewrite Hcons; exact Hpush]).
  set (w5 := with_pushed _ _).
  destruct (leave_block_owned (new_sample_id w) (new_pixel_id w) _ _ img i' w5
              Hl eq_refl eq_refl Hns4 Hnp4)
    as (w' & Hleave & Hown' & Himg' & Hpushed' & Hcons' & Hret' & Hsc' & Hreq' & Hks' & Hkp').
  exists w'. split.
  - destruct b; simpl; (erewrite bind_run by exact Hleave); reflexivity.
  - rewrite Himg', Hpushed', Hcons', Hret', Hsc', Hreq'. subst w5. cbn.
    rewrite Hpushed, Hsc, Hreq. cbn.
    split; [exact Himg|]. split; [reflexivity|]. split; [reflexivity|].
    split; [exact Hret|]. split; [reflexivity|]. split; [reflexivity|].
    split; [exact Hown'|].
    split; (eapply block_keeps_others; [|eassumption|eassumption]);
      intros p n; apply (prologue_keeps sb w c1 p n).
Qed.

(** The probe block: the same hand-off on the caller's image; it always
    answers [false]. *)
Lemma dummy_img_block_completes (sb : CMSampleBufferRef) img i w q :
  image_owned img i w ->
  derived_pitch sb = Some q ->
  let i' := installed (new_sample_id w) (new_pixel_id w) (CMSampleBufferGetImageBuffer sb) q in
  exists w',
    dummy_img_block img sb w = (Ret false, w') /\
    images w' = <[img := i']> (images w) /\
    pushed w' = pushed w /\
    consumer w' = consumer w /\
    old_data_retainer w' = None /\
    sc_capture w' = sc_capture w /\
    requests w' = requests w /\
    image_owned img i' w' /\
    others_kept (sample_buffer i) (samples w) (samples w') /\
    others_kept (pixel_buffer i) (pixels w) (pixels w').
Proof.
  intros Hown Hq i'.
  destruct (prologue_ready sb img i w (consumer w) Hown) as (Hown3 & Hns & Hnp & Hfs & Hfp).
  destruct (handoff_run img i _ _ _ _ _ _ _ q Hown3 Hns Hnp Hfs Hfp Hq)
    as (w4 & Hrun & Himg & Hret & Hns4 & Hnp4 & (Hcons & Hpushed & Hsc & Hreq) & Hks & Hkp).
  assert (Hl : images w4 !! img = Some i') by (rewrite Himg; apply lookup_insert_eq).
  rewrite dummy_img_block_unfold.
  erewrite bind_run by exact Hrun.
  destruct (leave_block_owned (new_sample_id w) (new_pixel_id w) _ _ img i' w4
              Hl eq_refl eq_refl Hns4 Hnp4)
    as (w' & Hleave & Hown' & Himg' & Hpushed' & Hcons' & Hret' & Hsc' & Hreq' & Hks' & Hkp').
  exists w'. split.
  - erewrite bind_run by exact Hleave. reflexivity.
  - rewrite Himg', Hpushed', Hcons', Hret', Hsc', Hreq'.
    split; [exact Himg|]. split; [exact Hpushed|]. split; [exact Hcons|].
    split; [exact Hret|]. split; [exact Hsc|]. split; [exact Hreq|].
    split; [exact Hown'|].
    split; (eapply block_keeps_others; [|eassumption|eassumption]);
      intros p n; apply (prologue_keeps sb w (consumer w) p n).
Qed.

(** Whatever the frame, the probe block never asks for more. *)
Lemma dummy_img_block_stops (sb : CMSampleBufferRef) img w b w' :
  dummy_img_block img sb w = (Ret b, w') -> b = false.
Proof.
  unfold dummy_img_block, bind.
  repeat match goal with
         | |- context [match ?m with (r, w1) => _ end] =>
             let r := fresh "r" in destruct m as [[?| |] ?]
         end; intros [= <- _] || discriminate; try reflexivity.
Qed.

End BlockFacts.

(** ** The retain guard brackets the overwrite *)

Lemma hoare_every_outcome {C : Type} {A} (P : world C -> Prop) (m : M C A)
  (Q : A -> world C -> Prop) (E R : world C -> Prop) (w : world C) :
  hoare P m Q E -> P w ->
  (forall a w', Q a w' -> R w') -> (forall w', E w' -> R w') ->
  R (snd (m w)).
Proof.
  intros H Hw HQ HE. specialize (H w Hw).
  destruct (m w) as [[a| |] w']; simpl; eauto.
Qed.

(** The discipline of the guard in a hand-off on an image that owns its
    old wrappers, with the wrappers of the new frame made. *)
Lemma handoff_guard_discipline {C : Type}
  (w0 : world C) (img : nat) (i : av_img_t) (ns np : nat)
  (so : av_sample_buf_t) (po : av_pixel_buf_t) (cns cnp : nat) :
  image_owned img i w0 ->
  samples w0 !! ns = Some (so, cns) ->
  pixels w0 !! np = Some (po, cnp) ->
  sample_buffer i <> Some ns ->
  pixel_buffer i <> Some np ->
  let after (k : nat) := snd (run_steps (firstn k (handoff img ns np)) w0) in
  (images (after 1%nat) = images w0 /\
   old_data_retainer (after 1%nat) = Some (guard_of i)) /\
  (forall k : nat, (1 <= k <= 8)%nat -> guard_holds (guard_of i) (after k)) /\
  (forall q,
     int_div (to_int (CVPixelBufferGetBytesPerRow (pixel_buf po)))
             (to_int (CVPixelBufferGetWidth (pixel_buf po))) = Some q ->
     images (after 8%nat) !! img = Some (installed ns np (pixel_buf po) q) /\
     guard_holds (guard_of i) (after 8%nat) /\
     run_steps (handoff img ns np) w0 = (Ret tt, after 9%nat) /\
     old_data_retainer (after 9%nat) = None /\
     images (after 9%nat) !! img = Some (installed ns np (pixel_buf po) q)).
Proof.
  intros Hown Hns Hnp Hfs Hfp after.
  pose proof Hown as (Hi & Hs & Hp).
  assert (Hwindow : forall k cur (cs cp ks kp : nat),
             hoare (eq w0) (run_steps (firstn k (handoff img ns np)))
               (fun _ => window img (guard_of i) cur ns np so po (S cs) (S cp) ks kp w0)
               (fun _ => False) ->
             guard_holds (guard_of i) (after k)).
  { intros k cur cs cp ks kp H. unfold after.
    apply (hoare_every_outcome _ _ _ _ (guard_holds (guard_of i)) w0 H eq_refl).
    - intros _ w Hw. eapply window_guard_holds. exact Hw.
    - intros _ []. }
  split; [|split].
  - unfold after.
    apply (hoare_every_outcome _ _ _ _
             (fun w => images w = images w0 /\ old_data_retainer w = Some (guard_of i)) w0
             (prefix_1 img i ns np so po cns cnp w0 Hi Hs Hp Hns Hnp Hfs Hfp) eq_refl).
    + intros _ w (Himg & Hg & _). split; [|exact Hg].
      rewrite Himg, partly_installed_1. apply insert_id. exact Hi.
    + intros _ [].
  - intros k Hk.
    destruct k as [|[|[|[|[|[|[|[|[|k]]]]]]]]]; try lia.
    + eapply Hwindow. apply (prefix_1 img i ns np so po cns cnp w0); assumption.
    + eapply Hwindow. apply (prefix_2 img i ns np so po cns cnp w0); assumption.
    + eapply Hwindow. apply (prefix_3 img i ns np so po cns cnp w0); assumption.
    + eapply Hwindow. apply (prefix_4 img i ns np so po cns cnp w0); assumption.
    + eapply Hwindow. apply (prefix_5 img i ns np so po cns cnp w0); assumption.
    + eapply Hwindow. apply (prefix_6 img i ns np so po cns cnp w0); assumption.
    + eapply Hwindow. apply (prefix_7 img i ns np so po cns cnp w0); assumption.
    + unfold after.
      apply (hoare_every_outcome _ _ _ _ (guard_holds (guard_of i)) w0
               (prefix_8 img i ns np so po cns cnp w0 Hi Hs Hp Hns Hnp Hfs Hfp) eq_refl).
      * intros _ w (q & _ & Hw). eapply window_guard_holds. exact Hw.
      * intros w (_ & Hw & _). exact Hw.
  - intros q Hq.
    pose proof (prefix_8 img i ns np so po cns cnp w0 Hi Hs Hp Hns Hnp Hfs Hfp w0 eq_refl) as H8.
    destruct (handoff_run img i ns np so po cns cnp w0 q Hown Hns Hnp Hfs Hfp Hq)
      as (w9 & Hrun & Himg9 & Hret9 & _).
    assert (Hafter9 : after 9%nat = w9).
    { unfold after. change (snd (run_steps (handoff img ns np) w0) = w9).
      rewrite Hrun. reflexivity. }
    rewrite Hafter9. unfold after.
    destruct (run_steps (firstn 8 (handoff img ns np)) w0) as [[[]| |] w8]; simpl.
    + destruct H8 as (q' & Hq' & Hw8).
      assert (q' = q) as -> by congruence.
      split; [eapply window_image; exact Hw8|].
      split; [eapply window_guard_holds; exact Hw8|].
      split; [exact Hrun|]. split; [exact Hret9|].
      rewrite Himg9. apply lookup_insert_eq.
    + destruct H8 as [Hnone _]. congruence.
    + destruct H8 as [Hnone _]. congruence.
Qed.

(** C1.  Both the block of [capture], after a successful pull, and the
    block of [dummy_img] are the hand-off (the nine statements they share)
    run from the world in which their two new wrappers are made, followed by
    an epilogue.  In that hand-off, on an image that owns its old wrappers:
    after the first step the guard holds the old sample wrapper, pixel
    wrapper and data pointer while the image is as it was; after each of
    the first eight steps, that is throughout the overwrite, the guard is
    still held and the old wrappers are alive; once the eighth step has
    returned every field holds the value of the new frame, and only the
    ninth step lets the guard go. *)
Theorem retain_guard_brackets_overwrite {C : Type} {consumer_callbacks : Consumer C}
  (sb : CMSampleBufferRef) (w : world C) (img : nat) (i : av_img_t) (c1 : C) :
  image_owned img i w ->
  let ns := new_sample_id w in
  let np := new_pixel_id w in
  let steps := handoff (C := C) img ns np in
  let after (k : nat) := snd (run_steps (firstn k steps) (handoff_start sb c1 w)) in
  (pull_free_image_cb (consumer w) = ((true, Some img), c1) ->
   capture_block sb w =
   bind (run_steps steps)
     (fun _ =>
        bind (call_push img true)
          (fun pushed_ok =>
             if negb pushed_ok
             then bind (leave_block ns np) (fun _ => ret false)
             else bind (leave_block ns np) (fun _ => ret true)))
     (handoff_start sb c1 w)) /\
  (c1 = consumer w ->
   dummy_img_block img sb w =
   bind (run_steps steps) (fun _ => bind (leave_block ns np) (fun _ => ret false))
     (handoff_start sb c1 w)) /\
  (images (after 1%nat) = images w /\
   old_data_retainer (after 1%nat) = Some (guard_of i)) /\
  (forall k : nat, (1 <= k <= 8)%nat -> guard_holds (guard_of i) (after k)) /\
  (forall q,
     derived_pitch sb = Some q ->
     images (after 8%nat) !! img
       = Some (installed ns np (CMSampleBufferGetImageBuffer sb) q) /\
     guard_holds (guard_of i) (after 8%nat) /\
     run_steps steps (handoff_start sb c1 w) = (Ret tt, after 9%nat) /\
     old_data_retainer (after 9%nat) = None /\
     images (after 9%nat) !! img
       = Some (installed ns np (CMSampleBufferGetImageBuffer sb) q)).
Proof.
  intros Hown ns np steps after.
  destruct (prologue_ready sb img i w c1 Hown) as (Hown3 & Hns & Hnp & Hfs & Hfp).
  destruct (handoff_guard_discipline (handoff_start sb c1 w) img i ns np _ _ _ _
              Hown3 Hns Hnp Hfs Hfp) as (Hfirst & Hwindow & Hlast).
  split; [intros Hpull; apply capture_block_unfold; exact Hpull|].
  split; [intros ->; apply dummy_img_block_unfold|].
  split; [exact Hfirst|]. split; [exact Hwindow|].
  intros q Hq. apply (Hlast q Hq).
Qed.

(** The hand-off of a second frame into an image bound to the first: after
    five steps the guard still holds the first frame's wrappers. *)
Lemma retain_guard_brackets_overwrite_witness :
  image_owned 0 bound_image bound_world /\
  guard_holds (guard_of bound_image)
    (snd (run_steps
            (firstn 5 (handoff 0 (new_sample_id bound_world) (new_pixel_id bound_world)))
            (handoff_start frame_1080p tt bound_world))).
Proof.
  assert (Hown : image_owned 0 bound_image bound_world).
  { split; [reflexivity|].
    split; simpl; eexists _, 1%nat; (split; [reflexivity | lia]). }
  split; [exact Hown|].
  apply (proj1 (proj2 (proj2 (proj2
    (retain_guard_brackets_overwrite (consumer_callbacks := willing_consumer)
       frame_1080p bound_world 0 bound_image tt Hown))))).
  lia.
Defined.

(** ** Geometry of the delivered image *)

Section GeometryFacts.
Context {C : Type} {consumer_callbacks : Consumer C}.
Implicit Types (w : world C).

Lemma bind_not_ret {A B} (m : M C A) (k : A -> M C B) w :
  (forall a, fst (m w) <> Ret a) -> forall b, fst (bind m k w) <> Ret b.
Proof.
  intros H b. unfold bind.
  destruct (m w) as [[a| |] w']; simpl in *; [|discriminate|discriminate].
  exfalso. apply (H a). reflexivity.
Qed.

Lemma installed_reports_geometry (ns np : nat) (sb : CMSampleBufferRef) q :
  derived_pitch sb = Some q ->
  reports_geometry (installed ns np (CMSampleBufferGetImageBuffer sb) q) sb.
Proof.
  intros Hq. apply int_div_some in Hq as [_ ->].
  repeat split.
Qed.

(** With the division undefined, the block of [capture] does not return. *)
Lemma capture_block_stuck (sb : CMSampleBufferRef) img i w c1 :
  pull_free_image_cb (consumer w) = ((true, Some img), c1) ->
  image_owned img i w ->
  derived_pitch sb = None ->
  forall b, fst (capture_block sb w) <> Ret b.
Proof.
  intros Hpull Hown Hq b.
  destruct (prologue_ready sb img i w c1 Hown) as (Hown3 & Hns & Hnp & Hfs & Hfp).
  pose proof (handoff_stuck img i _ _ _ _ _ _ _ Hown3 Hns Hnp Hfs Hfp Hq) as Hstuck.
  unfold capture_block.
  erewrite bind_run by apply make_shared_sample_run.
  erewrite bind_run by (eapply load_sample_buf_run; apply lookup_insert_eq).
  erewrite bind_run by apply make_shared_pixel_run.
  erewrite bind_run by (apply call_pull_run; exact Hpull).
  cbv beta iota. apply bind_not_ret. exact Hstuck.
Qed.

(** With the division undefined, the block of [dummy_img] does not return. *)
Lemma dummy_img_block_stuck (sb : CMSampleBufferRef) img i w :
  image_owned img i w ->
  derived_pitch sb = None ->
  forall b, fst (dummy_img_block img sb w) <> Ret b.
Proof.
  intros Hown Hq b.
  destruct (prologue_ready sb img i w (consumer w) Hown) as (Hown3 & Hns & Hnp & Hfs & Hfp).
  pose proof (handoff_stuck img i _ _ _ _ _ _ _ Hown3 Hns Hnp Hfs Hfp Hq) as Hstuck.
  unfold dummy_img_block.
  erewrite bind_run by apply make_shared_sample_run.
  erewrite bind_run by (eapply load_sample_buf_run; apply lookup_insert_eq).
  erewrite bind_run by apply make_shared_pixel_run.
  apply bind_not_ret. exact Hstuck.
Qed.

End GeometryFacts.

(** ** The store over a whole call *)

Section DeliveryFacts.
Context {C : Type} {consumer_callbacks : Consumer C}.
Implicit Types (w : world C).

(** The invariant of the store while frames are delivered. *)
Local Abbreviation store_inv :=
  (fun w : world C => images_owned w /\ pushed_pitch_derived (pushed w)).
Local Abbreviation pushed_ok := (fun w : world C => pushed_pitch_derived (pushed w)).

Lemma installed_pitch_derived (ns np : nat) (sb : CMSampleBufferRef) q :
  derived_pitch sb = Some q ->
  let i' := installed ns np (CMSampleBufferGetImageBuffer sb) q in
  width i' <> 0 /\ pixel_pitch i' = Z.quot (row_pitch i') (width i').
Proof.
  intros Hq i'. pose proof Hq as Hq'. apply int_div_some in Hq' as [Hw ->].
  split; [|reflexivity]. exact Hw.
Qed.

Lemma untouched_inv w w' : frames_untouched w w' -> store_inv w -> store_inv w'.
Proof.
  intros (Hi & Hs & Hp & Hpu) [[Hown Hun] Hpushed].
  split; [split|].
  - intros img i Hl. rewrite Hi in Hl. destruct (Hown img i Hl) as (H1 & H2 & H3).
    split; [rewrite Hi; exact H1|]. rewrite Hs, Hp. split; assumption.
  - intros img1 img2 i1 i2 Hne H1 H2. rewrite Hi in H1, H2. eapply Hun; eassumption.
  - rewrite Hpu. exact Hpushed.
Qed.

Lemma hoare_untouched {A} (m : M C A) :
  (forall w, frames_untouched w (snd (m w))) ->
  hoare store_inv m (fun _ => store_inv) pushed_ok.
Proof.
  intros H w Hw. specialize (H w).
  pose proof (untouched_inv w _ H Hw) as H'.
  destruct (m w) as [[a| |] w']; simpl in *; [exact H' | apply H' | apply H'].
Qed.


Lemma held_is_not_new {T : Type} (n : nat) (id : nat) (h : gmap nat (T * nat)) :
  sp_held n (Some id) h -> id <> fresh (dom h).
Proof.
  intros (obj & c & Hl & _) ->.
  apply (is_fresh (dom h)). apply elem_of_dom. rewrite Hl. eauto.
Qed.

Lemma others_kept_held {T : Type} (old p : shared_ptr) (n : nat) (h h' : gmap nat (T * nat)) :
  others_kept old h h' ->
  (forall id : nat, p = Some id -> old <> Some id) ->
  sp_held n p h -> sp_held n p h'.
Proof.
  destruct p as [id|]; [|intros; exact I].
  intros Hk Hne Hh. apply Hk; [|exact Hh].
  intros E. apply (Hne id eq_refl). symmetry. exact E.
Qed.

(** A completed block leaves a store in which every image owns its
    wrappers. *)
Lemma block_keeps_images_owned w w' (img : nat) (i i' : av_img_t) :
  images_owned w ->
  images w !! img = Some i ->
  images w' = <[img := i']> (images w) ->
  image_owned img i' w' ->
  sample_buffer i' = Some (new_sample_id w) ->
  pixel_buffer i' = Some (new_pixel_id w) ->
  others_kept (sample_buffer i) (samples w) (samples w') ->
  others_kept (pixel_buffer i) (pixels w) (pixels w') ->
  images_owned w'.
Proof.
  intros [Hown Hun] Hi Himg Hown' Hsf Hpf Hks Hkp.
  assert (Hnew : forall img2 i2, images w !! img2 = Some i2 ->
                   sample_buffer i2 <> Some (new_sample_id w) /\
                   pixel_buffer i2 <> Some (new_pixel_id w)).
  { intros img2 i2 H2. destruct (Hown img2 i2 H2) as (_ & Hs2 & Hp2).
    split; intros E; rewrite E in *;
      [exact (held_is_not_new _ _ _ Hs2 eq_refl) | exact (held_is_not_new _ _ _ Hp2 eq_refl)]. }
  split.
  - intros img2 i2 H2. rewrite Himg in H2.
    destruct (decide (img2 = img)) as [->|Hne].
    + rewrite lookup_insert_eq in H2. injection H2 as <-. exact Hown'.
    + rewrite lookup_insert_ne in H2 by congruence.
      destruct (Hown img2 i2 H2) as (_ & Hs2 & Hp2).
      destruct (Hun img2 img i2 i Hne H2 Hi) as [Hus Hup].
      split; [rewrite Himg, lookup_insert_ne by congruence; exact H2|].
      split.
      * eapply others_kept_held; [exact Hks | | exact Hs2]. exact Hus.
      * eapply others_kept_held; [exact Hkp | | exact Hp2]. exact Hup.
  - intros img1 img2 i1 i2 Hne H1 H2. rewrite Himg in H1, H2.
    destruct (decide (img1 = img)) as [->|Hne1]; destruct (decide (img2 = img)) as [->|Hne2].
    + contradiction.
    + rewrite lookup_insert_eq in H1. injection H1 as <-.
      rewrite lookup_insert_ne in H2 by congruence.
      destruct (Hnew img2 i2 H2) as [Hs2 Hp2].
      rewrite Hsf, Hpf. split; intros id [= <-]; assumption.
    + rewrite lookup_insert_eq in H2. injection H2 as <-.
      rewrite lookup_insert_ne in H1 by congruence.
      destruct (Hnew img1 i1 H1) as [Hs1 Hp1].
      rewrite Hsf, Hpf. split; intros id E [= <-]; contradiction.
    + rewrite lookup_insert_ne in H1 by congruence.
      rewrite lookup_insert_ne in H2 by congruence.
      exact (Hun img1 img2 i1 i2 Hne H1 H2).
Qed.

(** A world from which only the consumer differs. *)
Lemma with_consumer_untouched c w : frames_untouched w (with_consumer c w).
Proof. repeat split. Qed.

Lemma handoff_start_pushed (sb : CMSampleBufferRef) c w :
  pushed (handoff_start sb c w) = pushed w.
Proof. reflexivity. Qed.

(** A run that stops in its first part stops there as a whole. *)
Lemma bind_stops {A B} (m : M C A) (k : A -> M C B) w
  (Q : B -> world C -> Prop) (E : world C -> Prop) :
  (forall a, fst (m w) <> Ret a) -> E (snd (m w)) ->
  match bind m k w with
  | (Ret b, w') => Q b w'
  | (_, w') => E w'
  end.
Proof.
  intros H HE. unfold bind.
  destruct (m w) as [[a| |] w']; simpl in *;
    [exfalso; apply (H a); reflexivity | exact HE | exact HE].
Qed.

(** A hand-off on an image that is not in the store stops at its first
    statement. *)
Lemma handoff_without_image (img ns np : nat) w :
  images w !! img = None ->
  run_steps (handoff img ns np) w = (UB, w).
Proof.
  intros H. simpl. unfold make_retainer, load_img, bind, gets, of_option.
  rewrite H. reflexivity.
Qed.

(** The block of [capture] pushes nothing but an image with its pitch
    derived, and where it returns every image of the store owns its
    wrappers. *)
Lemma capture_block_inv (sb : CMSampleBufferRef) :
  hoare store_inv (capture_block sb) (fun _ => store_inv) pushed_ok.
Proof.
  intros w [Hown Hpushed].
  destruct (pull_free_image_cb (consumer w)) as [[[|] [img|]] c1] eqn:Hpull.
  - destruct (images w !! img) as [i|] eqn:Hi.
    + pose proof (proj1 Hown img i Hi) as Hio.
      destruct (derived_pitch sb) as [q|] eqn:Hq.
      * set (i' := installed (new_sample_id w) (new_pixel_id w)
                     (CMSampleBufferGetImageBuffer sb) q).
        destruct (push_captured_image_cb img i' true c1) as [b c2] eqn:Hpush.
        destruct (capture_block_completes sb img i w c1 q b c2 Hpull Hio Hq Hpush)
          as (w' & Hrun & Himg & Hpu & _ & _ & _ & _ & Hown' & Hks & Hkp).
        rewrite Hrun. split.
        -- eapply block_keeps_images_owned; try eassumption; reflexivity.
        -- rewrite Hpu. apply Forall_app. split; [exact Hpushed|].
           constructor; [|constructor].
           apply (installed_pitch_derived _ _ sb q Hq).
      * destruct (prologue_ready sb img i w c1 Hio) as (Hown3 & Hns & Hnp & Hfs & Hfp).
        pose proof (handoff_stuck img i _ _ _ _ _ _ _ Hown3 Hns Hnp Hfs Hfp Hq) as Hstuck.
        pose proof (handoff_stuck_state img i _ _ _ _ _ _ _ Hown3 Hns Hnp Hfs Hfp Hq)
          as (_ & Hpu & _).
        rewrite (capture_block_unfold sb img w c1 Hpull).
        refine (bind_stops _ _ _ (fun _ => store_inv) pushed_ok Hstuck _).
        cbv beta. rewrite Hpu. exact Hpushed.
    + rewrite (capture_block_unfold sb img w c1 Hpull).
      refine (bind_stops _ _ _ (fun _ => store_inv) pushed_ok _ _);
        rewrite handoff_without_image by exact Hi.
      * discriminate.
      * exact Hpushed.
  - unfold capture_block.
    erewrite bind_run by apply make_shared_sample_run.
    erewrite bind_run by (eapply load_sample_buf_run; apply lookup_insert_eq).
    erewrite bind_run by apply make_shared_pixel_run.
    erewrite bind_run by (apply call_pull_run; exact Hpull).
    exact Hpushed.
  - rewrite (capture_block_pull_failed sb w _ c1 Hpull).
    apply (untouched_inv w); [apply with_consumer_untouched | split; assumption].
  - rewrite (capture_block_pull_failed sb w _ c1 Hpull).
    apply (untouched_inv w); [apply with_consumer_untouched | split; assumption].
Qed.

(** The block of [dummy_img] pushes nothing. *)
Lemma dummy_img_block_inv (img : nat) (sb : CMSampleBufferRef) :
  hoare store_inv (dummy_img_block img sb) (fun _ => store_inv) pushed_ok.
Proof.
  intros w [Hown Hpushed].
  destruct (images w !! img) as [i|] eqn:Hi.
  - pose proof (proj1 Hown img i Hi) as Hio.
    destruct (derived_pitch sb) as [q|] eqn:Hq.
    + destruct (dummy_img_block_completes sb img i w q Hio Hq)
        as (w' & Hrun & Himg & Hpu & _ & _ & _ & _ & Hown' & Hks & Hkp).
      rewrite Hrun. split.
      * eapply block_keeps_images_owned; try eassumption; reflexivity.
      * rewrite Hpu. exact Hpushed.
    + destruct (prologue_ready sb img i w (consumer w) Hio) as (Hown3 & Hns & Hnp & Hfs & Hfp).
      pose proof (handoff_stuck img i _ _ _ _ _ _ _ Hown3 Hns Hnp Hfs Hfp Hq) as Hstuck.
      pose proof (handoff_stuck_state img i _ _ _ _ _ _ _ Hown3 Hns Hnp Hfs Hfp Hq)
        as (_ & Hpu & _).
      rewrite dummy_img_block_unfold.
      refine (bind_stops _ _ _ (fun _ => store_inv) pushed_ok Hstuck _).
      cbv beta. rewrite Hpu. exact Hpushed.
  - rewrite dummy_img_block_unfold.
    refine (bind_stops _ _ _ (fun _ => store_inv) pushed_ok _ _);
      rewrite handoff_without_image by exact Hi.
    + discriminate.
    + exact Hpushed.
Qed.

(** The methods of the session touch neither the images nor the heaps. *)
Lemma update_sc_untouched f w : frames_untouched w (snd (update_sc f w)).
Proof. repeat split. Qed.

Lemma signal_untouched w : frames_untouched w (snd (dispatch_semaphore_signal w)).
Proof.
  unfold dispatch_semaphore_signal, bind, gets.
  destruct (captureSemaphore (sc_capture w)); repeat split.
Qed.

Lemma stopCapture_untouched w : frames_untouched w (snd (stopCapture w)).
Proof.
  unfold stopCapture, bind, gets.
  destruct (isCapturing (sc_capture w)); repeat split.
Qed.

Lemma start_completion_untouched error w :
  frames_untouched w (snd (start_completion_handler error w)).
Proof. destruct error; [apply signal_untouched | apply update_sc_untouched]. Qed.

Lemma stop_completion_untouched error w :
  frames_untouched w (snd (stop_completion_handler error w)).
Proof.
  destruct w as [? ? ? ? ? ? [? ? ? ? ? ? ? ? [n|] ?] ?]; repeat split.
Qed.

Lemma didStopWithError_untouched w : frames_untouched w (snd (stream_didStopWithError w)).
Proof.
  destruct w as [? ? ? ? ? ? [? ? ? ? ? ? ? ? [n|] ?] ?]; repeat split.
Qed.

Lemma capture_method_untouched cb w :
  frames_untouched w (snd (ApolloScreenCapture_capture cb w)).
Proof. repeat split. Qed.

(** Each native event keeps the store. *)
Lemma native_step_inv (e : native_event) :
  hoare store_inv (native_step e) (fun _ => store_inv) pushed_ok.
Proof.
  destruct e as [error|error|sb ty| |]; simpl.
  - apply hoare_untouched. apply start_completion_untouched.
  - apply hoare_untouched. apply stop_completion_untouched.
  - destruct ty; [|apply hoare_ret; auto|apply hoare_ret; auto].
    unfold stream_didOutputSampleBuffer.
    eapply hoare_bind with (Q := fun _ => store_inv).
    + apply hoare_gets. auto.
    + intros [cb|]; [|apply hoare_ret; auto].
      eapply hoare_bind with (Q := fun _ => store_inv).
      * destruct cb as [|img]; [apply capture_block_inv | apply dummy_img_block_inv].
      * intros [|]; simpl; [apply hoare_ret; auto|].
        apply hoare_untouched. apply stopCapture_untouched.
  - apply hoare_untouched. apply didStopWithError_untouched.
  - apply hoare_untouched. apply stopCapture_untouched.
Qed.

(** So does the wait, whatever is served. *)
Lemma wait_inv (pending : list native_event) :
  hoare store_inv (dispatch_semaphore_wait pending) (fun _ => store_inv) pushed_ok.
Proof.
  induction pending as [|e rest IH]; intros w Hw; simpl.
  - destruct (captureSemaphore (sc_capture w)) as [[|n]|]; try exact (proj2 Hw).
    apply (untouched_inv w); [repeat split | exact Hw].
  - destruct (captureSemaphore (sc_capture w)) as [[|n]|].
    + pose proof (native_step_inv e w Hw) as He.
      destruct (native_step e w) as [[[]| |] w1]; [apply IH; exact He | exact He | exact He].
    + apply (untouched_inv w); [repeat split | exact Hw].
    + pose proof (native_step_inv e w Hw) as He.
      destruct (native_step e w) as [[[]| |] w1]; [apply IH; exact He | exact He | exact He].
Qed.

(** Whatever [capture] is served while it waits, each image that the
    consumer is given has a width other than 0 and its pitch derived. *)
Lemma capture_inv (pending : list native_event) :
  hoare store_inv (capture pending) (fun _ => store_inv) pushed_ok.
Proof.
  unfold capture.
  eapply hoare_bind with (Q := fun _ => store_inv).
  - apply hoare_untouched. apply capture_method_untouched.
  - intros _. eapply hoare_bind with (Q := fun _ => store_inv).
    + apply wait_inv.
    + intros rest. apply hoare_ret. auto.
Qed.

Lemma dummy_img_inv (allowed : bool) (img : nat) (pending : list native_event) :
  hoare store_inv (dummy_img allowed img pending) (fun _ => store_inv) pushed_ok.
Proof.
  unfold dummy_img. destruct allowed; simpl; [|apply hoare_ret; auto].
  eapply hoare_bind with (Q := fun _ => store_inv).
  - apply hoare_untouched. apply capture_method_untouched.
  - intros _. eapply hoare_bind with (Q := fun _ => store_inv).
    + apply wait_inv.
    + intros rest. apply hoare_ret. auto.
Qed.

End DeliveryFacts.

(** C2.  For a frame delivered to an image that owns its wrappers: whenever
    the block of [capture] returns after a successful pull, the image it
    has handed to [push_captured_image_cb], which is the image now stored,
    has [pixel_pitch = row_pitch / width] in truncating integer division,
    with width, height and row pitch the values that the new pixel buffer
    reports; the same holds for the image of [dummy_img] whenever its block
    returns.  If the division is defined (a non-zero width, and not
    [INT_MIN / -1]) both blocks do return.  And over a whole call of
    [capture], from a store in which every image owns its wrappers:
    whatever is served while the call waits and however it ends, every
    image that the consumer has been given has a width other than 0 and
    [pixel_pitch = row_pitch / width]. *)
Theorem delivered_image_pitch {C : Type} {consumer_callbacks : Consumer C}
  (sb : CMSampleBufferRef) (w : world C) (img : nat) (i : av_img_t) :
  image_owned img i w ->
  (forall c1 b w',
     pull_free_image_cb (consumer w) = ((true, Some img), c1) ->
     capture_block sb w = (Ret b, w') ->
     exists i', pushed w' = pushed w ++ [(img, i')] /\
                images w' !! img = Some i' /\ reports_geometry i' sb) /\
  (forall b w',
     dummy_img_block img sb w = (Ret b, w') ->
     exists i', images w' !! img = Some i' /\ reports_geometry i' sb) /\
  (to_int (CVPixelBufferGetWidth (CMSampleBufferGetImageBuffer sb)) <> 0 ->
   ~ (to_int (CVPixelBufferGetBytesPerRow (CMSampleBufferGetImageBuffer sb)) = int_min /\
      to_int (CVPixelBufferGetWidth (CMSampleBufferGetImageBuffer sb)) = -1) ->
   (forall c1, pull_free_image_cb (consumer w) = ((true, Some img), c1) ->
               exists b w', capture_block sb w = (Ret b, w')) /\
   (exists w', dummy_img_block img sb w = (Ret false, w'))) /\
  (images_owned w -> pushed_pitch_derived (pushed w) ->
   forall pending : list native_event,
     pushed_pitch_derived (pushed (snd (capture pending w)))).
Proof.
  intros Hown. split; [|split; [|split]].
  - intros c1 b w' Hpull Hrun.
    destruct (derived_pitch sb) as [q|] eqn:Hq.
    + set (i' := installed (new_sample_id w) (new_pixel_id w)
                   (CMSampleBufferGetImageBuffer sb) q).
      destruct (push_captured_image_cb img i' true c1) as [b2 c2] eqn:Hpush.
      destruct (capture_block_completes sb img i w c1 q b2 c2 Hpull Hown Hq Hpush)
        as (w2 & Hrun2 & Himg & Hpushed & _).
      rewrite Hrun in Hrun2. injection Hrun2 as -> ->.
      exists i'. split; [exact Hpushed|].
      split; [rewrite Himg; apply lookup_insert_eq|].
      apply installed_reports_geometry. exact Hq.
    + exfalso. apply (capture_block_stuck sb img i w c1 Hpull Hown Hq b).
      rewrite Hrun. reflexivity.
  - intros b w' Hrun.
    destruct (derived_pitch sb) as [q|] eqn:Hq.
    + destruct (dummy_img_block_completes sb img i w q Hown Hq)
        as (w2 & Hrun2 & Himg & _).
      rewrite Hrun in Hrun2. injection Hrun2 as -> ->.
      eexists. split; [rewrite Himg; apply lookup_insert_eq|].
      apply installed_reports_geometry. exact Hq.
    + exfalso. apply (dummy_img_block_stuck sb img i w Hown Hq b).
      rewrite Hrun. reflexivity.
  - intros Hw Hov.
    pose proof (int_div_defined _ _ Hw Hov) as Hq.
    split.
    + intros c1 Hpull.
      set (i' := installed (new_sample_id w) (new_pixel_id w)
                   (CMSampleBufferGetImageBuffer sb)
                   (Z.quot (to_int (CVPixelBufferGetBytesPerRow
                                      (CMSampleBufferGetImageBuffer sb)))
                           (to_int (CVPixelBufferGetWidth
                                      (CMSampleBufferGetImageBuffer sb))))).
      destruct (push_captured_image_cb img i' true c1) as [b2 c2] eqn:Hpush.
      destruct (capture_block_completes sb img i w c1 _ b2 c2 Hpull Hown Hq Hpush)
        as (w2 & Hrun2 & _).
      eauto.
    + destruct (dummy_img_block_completes sb img i w _ Hown Hq) as (w2 & Hrun2 & _).
      eauto.
  - intros Ho Hp pending.
    apply (hoare_every_outcome _ _ _ _ (fun w' => pushed_pitch_derived (pushed w')) w
             (capture_inv pending) (conj Ho Hp)).
    + intros _ w' [_ H]. exact H.
    + auto.
Qed.

Lemma fresh_world_image_owned : image_owned 0 alloc_img fresh_world.
Proof. split; [reflexivity | split; exact I]. Qed.

(** A 1920x1080 frame with 7680 bytes per row: the block of [dummy_img]
    returns, and the pitch is 4. *)
Lemma delivered_image_pitch_witness :
  image_owned 0 alloc_img fresh_world /\
  exists w', dummy_img_block 0 frame_1080p fresh_world
             = (Ret false, w').
Proof.
  split; [exact fresh_world_image_owned|].
  apply (proj1 (proj2 (proj2
    (delivered_image_pitch (consumer_callbacks := willing_consumer)
       frame_1080p fresh_world 0 alloc_img fresh_world_image_owned)))).
  - vm_compute. discriminate.
  - vm_compute. intros [H _]. discriminate.
Defined.

Lemma fresh_world_images_owned : images_owned fresh_world.
Proof.
  split.
  - intros img i H. simpl in H. apply lookup_singleton_Some in H as [<- <-].
    exact fresh_world_image_owned.
  - intros img1 img2 i1 i2 Hne H1 H2. simpl in H1, H2.
    apply lookup_singleton_Some in H1 as [<- _].
    apply lookup_singleton_Some in H2 as [<- _].
    contradiction.
Qed.

(** Two frames delivered one after the other to the same image, then the
    stream stops: the consumer is given two images, each with pitch 4. *)
Example two_frames_delivered :
  let run := capture (consumer_callbacks := willing_consumer)
               [StartCompleted false;
                DidOutputSampleBuffer frame_1080p SCStreamOutputTypeScreen;
                DidOutputSampleBuffer frame_1080p SCStreamOutputTypeScreen;
                DidStopWithError]
               fresh_world in
  fst run = Ret (capture_ok, []) /\
  map (fun e => (width e.2, row_pitch e.2, pixel_pitch e.2)) (pushed (snd run))
    = [(1920, 7680, 4); (1920, 7680, 4)].
Proof. vm_compute. split; reflexivity. Qed.

(** ** Positive dimensions *)

(** C9: the code does not keep it.  A screen sample that carries no image
    buffer is handed to the block of [capture] (the consumer hands out image
    0, bound to a 1920x1080 frame) and to the block of [dummy_img].  Both
    store the width 0 that [CVPixelBufferGetWidth(NULL)] answers, and then
    evaluate [row_pitch / width], here [0 / 0]: undefined behaviour.
    [nv12_zero_device::convert], given the image as it is then, finds the
    null buffer behind its pixel wrapper and answers -1: the check that the
    hand-off leaves out. *)
Lemma handoff_divides_by_zero :
  let in_capture :=
    capture_block (consumer_callbacks := willing_consumer) frame_without_image bound_world in
  let in_dummy_img := dummy_img_block (C := unit) 0 frame_without_image bound_world in
  CMSampleBufferGetImageBuffer frame_without_image = None /\
  (width <$> images bound_world !! 0%nat) = Some 1920 /\
  fst in_capture = UB /\
  (width <$> images (snd in_capture) !! 0%nat) = Some 0 /\
  (row_pitch <$> images (snd in_capture) !! 0%nat) = Some 0 /\
  fst in_dummy_img = UB /\
  (width <$> images (snd in_dummy_img) !! 0%nat) = Some 0 /\
  (row_pitch <$> images (snd in_dummy_img) !! 0%nat) = Some 0 /\
  int_div 0 0 = None /\
  (forall i : av_img_t,
     images (snd in_capture) !! 0%nat = Some i ->
     nv12_zero_device_convert (pixels (snd in_capture)) i device_with_frame bound_encoder
     = (Ret (-1), bound_encoder)).
Proof.
  cbv zeta. repeat split; try (vm_compute; reflexivity).
  intros i Hi. vm_compute in Hi. injection Hi as <-. vm_compute. reflexivity.
Qed.

(** Where the dimensions are positive, they are kept.  For a frame whose
    pixel buffer reports a width and a height between 1 and [INT_MAX],
    delivered to an image that owns its wrappers, both blocks return, the
    image has that width and that height, both positive, and the division
    that derives the pitch is defined. *)
Theorem positive_geometry_is_kept {C : Type} {consumer_callbacks : Consumer C}
  (sb : CMSampleBufferRef) (w : world C) (img : nat) (i : av_img_t) :
  image_owned img i w ->
  0 < CVPixelBufferGetWidth (CMSampleBufferGetImageBuffer sb) <= int_max ->
  0 < CVPixelBufferGetHeight (CMSampleBufferGetImageBuffer sb) <= int_max ->
  (forall c1,
     pull_free_image_cb (consumer w) = ((true, Some img), c1) ->
     exists b w' i',
       capture_block sb w = (Ret b, w') /\
       pushed w' = pushed w ++ [(img, i')] /\
       images w' !! img = Some i' /\
       width i' = CVPixelBufferGetWidth (CMSampleBufferGetImageBuffer sb) /\
       height i' = CVPixelBufferGetHeight (CMSampleBufferGetImageBuffer sb) /\
       0 < width i' /\ 0 < height i' /\
       int_div (row_pitch i') (width i') = Some (pixel_pitch i')) /\
  (exists w' i',
     dummy_img_block img sb w = (Ret false, w') /\
     images w' !! img = Some i' /\
     width i' = CVPixelBufferGetWidth (CMSampleBufferGetImageBuffer sb) /\
     height i' = CVPixelBufferGetHeight (CMSampleBufferGetImageBuffer sb) /\
     0 < width i' /\ 0 < height i' /\
     int_div (row_pitch i') (width i') = Some (pixel_pitch i')).
Proof.
  intros Hown HW HH.
  assert (Hw : to_int (CVPixelBufferGetWidth (CMSampleBufferGetImageBuffer sb))
               = CVPixelBufferGetWidth (CMSampleBufferGetImageBuffer sb))
    by (apply to_int_small; unfold int_min, int_max in *; lia).
  assert (Hh : to_int (CVPixelBufferGetHeight (CMSampleBufferGetImageBuffer sb))
               = CVPixelBufferGetHeight (CMSampleBufferGetImageBuffer sb))
    by (apply to_int_small; unfold int_min, int_max in *; lia).
  assert (Hq : derived_pitch sb =
               Some (Z.quot (to_int (CVPixelBufferGetBytesPerRow
                                       (CMSampleBufferGetImageBuffer sb)))
                            (to_int (CVPixelBufferGetWidth
                                       (CMSampleBufferGetImageBuffer sb))))).
  { apply int_div_defined; rewrite Hw; lia. }
  set (q := Z.quot _ _) in Hq.
  split.
  - intros c1 Hpull.
    set (i' := installed (new_sample_id w) (new_pixel_id w)
                 (CMSampleBufferGetImageBuffer sb) q).
    destruct (push_captured_image_cb img i' true c1) as [b c2] eqn:Hpush.
    destruct (capture_block_completes sb img i w c1 q b c2 Hpull Hown Hq Hpush)
      as (w' & Hrun & Himg & Hpushed & _).
    exists b, w', i'. split; [exact Hrun|]. split; [exact Hpushed|].
    split; [rewrite Himg; apply lookup_insert_eq|].
    subst i'. simpl. rewrite Hw, Hh.
    repeat split; try lia.
    rewrite <- Hw at 1. exact Hq.
  - destruct (dummy_img_block_completes sb img i w q Hown Hq)
      as (w' & Hrun & Himg & _).
    eexists w', _. split; [exact Hrun|].
    split; [rewrite Himg; apply lookup_insert_eq|].
    simpl. rewrite Hw, Hh.
    repeat split; try lia.
    rewrite <- Hw at 1. exact Hq.
Qed.

(** The 1920x1080 frame keeps its dimensions. *)
Lemma positive_geometry_is_kept_witness :
  image_owned 0 alloc_img fresh_world /\
  exists w' i',
    dummy_img_block 0 frame_1080p fresh_world = (Ret false, w') /\
    images w' !! 0%nat = Some i' /\
    width i' = 1920 /\ height i' = 1080 /\
    0 < width i' /\ 0 < height i' /\
    int_div (row_pitch i') (width i') = Some (pixel_pitch i').
Proof.
  split; [exact fresh_world_image_owned|].
  apply (proj2
    (positive_geometry_is_kept (consumer_callbacks := willing_consumer)
       frame_1080p fresh_world 0 alloc_img fresh_world_image_owned
       ltac:(vm_compute; split; [reflexivity | discriminate])
       ltac:(vm_compute; split; [reflexivity | discriminate]))).
Defined.

(** ** The session while a caller waits *)

Section SessionFacts.
Context {C : Type} {consumer_callbacks : Consumer C}.
Implicit Types (w : world C).

Lemma stopCapture_run w :
  stopCapture w =
  (Ret tt,
   if isCapturing (sc_capture w)
   then with_requests (requests w ++ [stopCaptureWithCompletionHandler]) w
   else w).
Proof.
  unfold stopCapture, bind, gets, send_request, modify, ret.
  destruct (isCapturing (sc_capture w)); reflexivity.
Qed.

Lemma ApolloScreenCapture_capture_run (cb : SCFrameCallbackBlock) w :
  ApolloScreenCapture_capture cb w = (Ret tt, armed cb w).
Proof. reflexivity. Qed.

Lemma capture_unfold (pending : list native_event) w :
  capture pending w =
  match dispatch_semaphore_wait pending (armed capture_frame_block w) with
  | (Ret rest, w') => (Ret (capture_ok, rest), w')
  | (UB, w') => (UB, w')
  | (Blocked, w') => (Blocked, w')
  end.
Proof. reflexivity. Qed.

Lemma dummy_img_unfold (img : nat) (pending : list native_event) w :
  dummy_img true img pending w =
  match dispatch_semaphore_wait pending (armed (dummy_img_frame_block img) w) with
  | (Ret rest, w') => (Ret (0, rest), w')
  | (UB, w') => (UB, w')
  | (Blocked, w') => (Blocked, w')
  end.
Proof. reflexivity. Qed.

(** A waiter with an empty semaphore serves the next native event. *)
Lemma wait_serves (e : native_event) (rest : list native_event) w w' :
  captureSemaphore (sc_capture w) = Some 0%nat ->
  native_step e w = (Ret tt, w') ->
  dispatch_semaphore_wait (e :: rest) w = dispatch_semaphore_wait rest w'.
Proof. intros Hs He. simpl. rewrite Hs, He. reflexivity. Qed.

(** A waiter that finds the semaphore signalled takes one and returns. *)
Lemma wait_returns (pending : list native_event) w (n : nat) :
  captureSemaphore (sc_capture w) = Some (S n) ->
  dispatch_semaphore_wait pending w =
  (Ret pending, with_sc (set_captureSemaphore (Some n) (sc_capture w)) w).
Proof. intros Hs. destruct pending; simpl; rewrite Hs; reflexivity. Qed.

(** With nothing more to come and the semaphore empty, the waiter sleeps. *)
Lemma wait_sleeps w :
  captureSemaphore (sc_capture w) = Some 0%nat ->
  dispatch_semaphore_wait [] w = (Blocked, w).
Proof. intros Hs. simpl. rewrite Hs. reflexivity. Qed.

(** The frame path when the block answers: [false] leads to [-stopCapture]. *)
Lemma didOutputSampleBuffer_run (sb : CMSampleBufferRef) (cb : SCFrameCallbackBlock)
  (b : bool) w w1 :
  frameCallback (sc_capture w) = Some cb ->
  call_frame_callback cb sb w = (Ret b, w1) ->
  stream_didOutputSampleBuffer sb SCStreamOutputTypeScreen w =
  (if b then (Ret tt, w1) else stopCapture w1).
Proof.
  intros Hcb Hrun. unfold stream_didOutputSampleBuffer.
  unfold bind at 1. unfold gets. rewrite Hcb.
  erewrite bind_run by exact Hrun.
  destruct b; reflexivity.
Qed.

(** Frames of another type never reach the block. *)
Lemma didOutputSampleBuffer_other_type (sb : CMSampleBufferRef) (ty : SCStreamOutputType) w :
  ty <> SCStreamOutputTypeScreen ->
  stream_didOutputSampleBuffer sb ty w = (Ret tt, w).
Proof. intros H. destruct ty; [contradiction | reflexivity | reflexivity]. Qed.

(** Whatever is served while waiting, [capture] can only answer [ok]. *)
Lemma capture_only_ok (pending : list native_event) w r rest w' :
  capture pending w = (Ret (r, rest), w') -> r = capture_ok.
Proof.
  rewrite capture_unfold.
  destruct (dispatch_semaphore_wait pending _) as [[rest'| |] w1];
    [|discriminate|discriminate].
  intros [= <- _ _]. reflexivity.
Qed.

Lemma dummy_img_only_zero (img : nat) (pending : list native_event) w r rest w' :
  dummy_img true img pending w = (Ret (r, rest), w') -> r = 0.
Proof.
  rewrite dummy_img_unfold.
  destruct (dispatch_semaphore_wait pending _) as [[rest'| |] w1];
    [|discriminate|discriminate].
  intros [= <- _ _]. reflexivity.
Qed.

End SessionFacts.

(** ** A frame that the consumer turns down *)

(** C6, as stated, fails.  [capture] has installed its block and sent the
    start request, but the request has not completed, so [isCapturing] is
    still unset.  A screen frame arrives and is turned down, by a failing
    pull or by a failing push: the block returns [false], the delivery
    method calls [-stopCapture], and [-stopCapture] returns at its guard:
    the stream has been sent the start request and nothing else. *)
Lemma rejected_frame_before_start_sends_no_stop :
  let w := armed capture_frame_block fresh_world in
  let pull_fails :=
    stream_didOutputSampleBuffer (consumer_callbacks := consumer_without_image)
      frame_1080p SCStreamOutputTypeScreen w in
  let push_fails :=
    stream_didOutputSampleBuffer (consumer_callbacks := rejecting_consumer)
      frame_1080p SCStreamOutputTypeScreen w in
  isCapturing (sc_capture w) = false /\
  fst (capture_block (consumer_callbacks := consumer_without_image) frame_1080p w)
    = Ret false /\
  fst pull_fails = Ret tt /\
  requests (snd pull_fails) = [startCaptureWithCompletionHandler] /\
  fst (capture_block (consumer_callbacks := rejecting_consumer) frame_1080p w) = Ret false /\
  fst push_fails = Ret tt /\
  length (pushed (snd push_fails)) = 1%nat /\
  requests (snd push_fails) = [startCaptureWithCompletionHandler] /\
  ~ In stopCaptureWithCompletionHandler (requests (snd pull_fails)) /\
  ~ In stopCaptureWithCompletionHandler (requests (snd push_fails)).
Proof.
  vm_compute. repeat split; try reflexivity; intros [H|[]]; discriminate.
Qed.

(** C6, amended.  A screen frame delivered while the block of [capture] is
    installed.  If [pull_free_image_cb] reports failure, the block returns
    [false] with no image touched and nothing pushed (only the consumer's
    own state has moved).  If the pull succeeds and
    [push_captured_image_cb] reports failure for the handed-over image, the
    block returns [false] as well.  In both cases the delivery method
    answers with [-stopCapture], which asks the stream to stop exactly when
    [isCapturing] is set, and sends nothing when it is not; the session
    itself is left as it was until the stop request completes. *)
Theorem rejected_frame_stops_stream {C : Type} {consumer_callbacks : Consumer C}
  (sb : CMSampleBufferRef) (w : world C) :
  frameCallback (sc_capture w) = Some capture_frame_block ->
  let stop_sent (w' : world C) :=
    requests w' = (if isCapturing (sc_capture w)
                   then requests w ++ [stopCaptureWithCompletionHandler]
                   else requests w) /\
    sc_capture w' = sc_capture w in
  (forall o c1,
     pull_free_image_cb (consumer w) = ((false, o), c1) ->
     capture_block sb w = (Ret false, with_consumer c1 w) /\
     exists w',
       stream_didOutputSampleBuffer sb SCStreamOutputTypeScreen w = (Ret tt, w') /\
       images w' = images w /\ pushed w' = pushed w /\
       samples w' = samples w /\ pixels w' = pixels w /\
       stop_sent w') /\
  (forall img i c1 q c2,
     pull_free_image_cb (consumer w) = ((true, Some img), c1) ->
     image_owned img i w ->
     derived_pitch sb = Some q ->
     let i' := installed (new_sample_id w) (new_pixel_id w)
                 (CMSampleBufferGetImageBuffer sb) q in
     push_captured_image_cb img i' true c1 = (false, c2) ->
     exists w1 w',
       capture_block sb w = (Ret false, w1) /\
       pushed w1 = pushed w ++ [(img, i')] /\
       stream_didOutputSampleBuffer sb SCStreamOutputTypeScreen w = (Ret tt, w') /\
       pushed w' = pushed w1 /\
       stop_sent w').
Proof.
  intros Hcb. cbv zeta. split.
  - intros o c1 Hpull.
    pose proof (capture_block_pull_failed sb w o c1 Hpull) as Hblock.
    split; [exact Hblock|].
    eexists. split.
    + rewrite (didOutputSampleBuffer_run sb capture_frame_block false w _ Hcb Hblock).
      rewrite stopCapture_run. reflexivity.
    + cbn [sc_capture with_consumer].
      destruct (isCapturing (sc_capture w)); repeat split.
  - intros img i c1 q c2 Hpull Hown Hq Hpush.
    destruct (capture_block_completes sb img i w c1 q false c2 Hpull Hown Hq Hpush)
      as (w1 & Hblock & _ & Hpushed & _ & _ & Hsc & Hreq & _).
    exists w1. eexists. split; [exact Hblock|]. split; [exact Hpushed|].
    split.
    + rewrite (didOutputSampleBuffer_run sb capture_frame_block false w _ Hcb Hblock).
      rewrite stopCapture_run. reflexivity.
    + rewrite Hsc.
      destruct (isCapturing (sc_capture w)); cbn; rewrite ?Hreq; repeat split; exact Hsc.
Qed.

(** A consumer without a free image, while the stream is capturing: the
    stream is asked to stop. *)
Lemma rejected_frame_stops_stream_witness :
  exists w',
    stream_didOutputSampleBuffer (consumer_callbacks := consumer_without_image)
      frame_1080p SCStreamOutputTypeScreen capturing_world = (Ret tt, w') /\
    images w' = images capturing_world /\ pushed w' = pushed capturing_world /\
    samples w' = samples capturing_world /\ pixels w' = pixels capturing_world /\
    requests w' = requests capturing_world ++ [stopCaptureWithCompletionHandler] /\
    sc_capture w' = sc_capture capturing_world.
Proof.
  apply (proj1
    (rejected_frame_stops_stream (consumer_callbacks := consumer_without_image)
       frame_1080p capturing_world eq_refl) None tt eq_refl).
Defined.

(** ** What [capture] answers *)

Section CaptureFacts.
Context {C : Type} {consumer_callbacks : Consumer C}.
Implicit Types (w : world C).

(** A frame for which the pull fails, seen from the delivery method. *)
Lemma didOutputSampleBuffer_pull_failed (sb : CMSampleBufferRef) w o c1 :
  frameCallback (sc_capture w) = Some capture_frame_block ->
  pull_free_image_cb (consumer w) = ((false, o), c1) ->
  stream_didOutputSampleBuffer sb SCStreamOutputTypeScreen w =
  (Ret tt,
   if isCapturing (sc_capture w)
   then with_requests (requests w ++ [stopCaptureWithCompletionHandler]) (with_consumer c1 w)
   else with_consumer c1 w).
Proof.
  intros Hcb Hpull.
  rewrite (didOutputSampleBuffer_run sb capture_frame_block false w _ Hcb
             (capture_block_pull_failed sb w o c1 Hpull)).
  rewrite stopCapture_run. reflexivity.
Qed.

Lemma wait_start_completed (cb : SCFrameCallbackBlock) (rest : list native_event) w :
  dispatch_semaphore_wait (StartCompleted false :: rest) (armed cb w) =
  dispatch_semaphore_wait rest (started cb w).
Proof. apply wait_serves; reflexivity. Qed.

(** Once a stop has completed the waiter is released. *)
Lemma wait_stop_completed (e : bool) (rest : list native_event) w :
  captureSemaphore (sc_capture w) = Some 0%nat ->
  dispatch_semaphore_wait (StopCompleted e :: rest) w =
  (Ret rest, with_sc (set_captureSemaphore (Some 0%nat)
                        (set_isCapturing false (sc_capture w))) w).
Proof.
  intros Hs.
  assert (Hstep : native_step (StopCompleted e) w =
                  (Ret tt, with_sc (set_captureSemaphore (Some 1%nat)
                                      (set_isCapturing false (sc_capture w))) w)).
  { destruct w as [? ? ? ? ? ? [] ?]. simpl in Hs. subst. reflexivity. }
  rewrite (wait_serves _ rest w _ Hs Hstep).
  erewrite wait_returns by reflexivity. reflexivity.
Qed.

End CaptureFacts.

(** C5, as stated, fails: when the start request fails, [capture] is
    released and answers [ok]; it has no path that answers [error]. *)
Lemma capture_answers_ok_when_start_fails :
  fst (capture (consumer_callbacks := willing_consumer) [StartCompleted true] fresh_world)
    = Ret (capture_ok, []) /\
  fst (capture (consumer_callbacks := willing_consumer) [StartCompleted true] fresh_world)
    <> Ret (capture_error, []).
Proof. split; [reflexivity | discriminate]. Qed.

(** C5, amended.  [capture] answers [ok] whenever it returns, and it
    returns: when the start request fails (the failure is logged and the
    semaphore signalled), when the session is stopped after a successful
    start, when the stream stops with an error, and when a consumer callback
    turns a frame down and the stop that follows completes. *)
Theorem capture_answers_ok {C : Type} {consumer_callbacks : Consumer C}
  (w : world C) (rest : list native_event) :
  (forall pending r rest' w',
     capture pending w = (Ret (r, rest'), w') -> r = capture_ok) /\
  fst (capture (StartCompleted true :: rest) w) = Ret (capture_ok, rest) /\
  (forall e,
     fst (capture (StartCompleted false :: StopCaptureCalled :: StopCompleted e :: rest) w)
     = Ret (capture_ok, rest)) /\
  fst (capture (StartCompleted false :: DidStopWithError :: rest) w) = Ret (capture_ok, rest) /\
  (forall sb o c1 e,
     pull_free_image_cb (consumer w) = ((false, o), c1) ->
     fst (capture (StartCompleted false
                   :: DidOutputSampleBuffer sb SCStreamOutputTypeScreen
                   :: StopCompleted e :: rest) w)
     = Ret (capture_ok, rest)) /\
  (forall sb img i c1 q c2 e,
     pull_free_image_cb (consumer w) = ((true, Some img), c1) ->
     image_owned img i w ->
     derived_pitch sb = Some q ->
     push_captured_image_cb img
       (installed (new_sample_id w) (new_pixel_id w) (CMSampleBufferGetImageBuffer sb) q)
       true c1 = (false, c2) ->
     fst (capture (StartCompleted false
                   :: DidOutputSampleBuffer sb SCStreamOutputTypeScreen
                   :: StopCompleted e :: rest) w)
     = Ret (capture_ok, rest)).
Proof.
  split; [intros pending r rest' w'; apply capture_only_ok|].
  split.
  { rewrite capture_unfold.
    erewrite wait_serves by reflexivity.
    erewrite wait_returns by reflexivity. reflexivity. }
  split.
  { intros e. rewrite capture_unfold, wait_start_completed.
    erewrite wait_serves by reflexivity.
    erewrite wait_stop_completed by reflexivity. reflexivity. }
  split.
  { rewrite capture_unfold, wait_start_completed.
    erewrite wait_serves by reflexivity.
    erewrite wait_returns by reflexivity. reflexivity. }
  split.
  - intros sb o c1 e Hpull.
    rewrite capture_unfold, wait_start_completed.
    erewrite wait_serves;
      [| reflexivity
       | apply (didOutputSampleBuffer_pull_failed sb (started capture_frame_block w) o c1);
         [reflexivity | exact Hpull]].
    erewrite wait_stop_completed by reflexivity. reflexivity.
  - intros sb img i c1 q c2 e Hpull Hown Hq Hpush.
    rewrite capture_unfold, wait_start_completed.
    destruct (capture_block_completes sb img i (started capture_frame_block w) c1 q false c2
                Hpull Hown Hq Hpush)
      as (w1 & Hblock & _ & _ & _ & _ & Hsc & Hreq & _).
    erewrite wait_serves;
      [| reflexivity
       | unfold native_step;
         rewrite (didOutputSampleBuffer_run sb capture_frame_block false
                    (started capture_frame_block w) w1 eq_refl Hblock);
         apply stopCapture_run].
    erewrite wait_stop_completed; [reflexivity|].
    rewrite Hsc. simpl. destruct (isCapturing (sc_capture w1)); simpl; rewrite Hsc; reflexivity.
Qed.

(** A consumer without a free image: the first frame ends the capture, and
    [capture] answers [ok]. *)
Lemma capture_answers_ok_witness :
  fst (capture (consumer_callbacks := consumer_without_image)
         [StartCompleted false; DidOutputSampleBuffer frame_1080p SCStreamOutputTypeScreen;
          StopCompleted false] fresh_world)
  = Ret (capture_ok, []).
Proof.
  apply ((proj1 (proj2 (proj2 (proj2 (proj2
    (capture_answers_ok (consumer_callbacks := consumer_without_image) fresh_world []))))))
    frame_1080p None tt false eq_refl).
Defined.


(** ** Stopping the session *)

(** C8, as stated, fails: a [stopCapture] that arrives after [capture] has
    asked the stream to start, but before that request has completed, finds
    [isCapturing] still unset and returns at once.  No stop is requested and
    the semaphore is never signalled: the stream starts, the consumer takes
    the frame it delivers, and [capture] stays blocked. *)
Lemma early_stop_releases_nothing :
  let run := capture (consumer_callbacks := willing_consumer)
               [StopCaptureCalled; StartCompleted false;
                DidOutputSampleBuffer frame_1080p SCStreamOutputTypeScreen]
               fresh_world in
  fst run = Blocked /\
  requests (snd run) = [startCaptureWithCompletionHandler] /\
  captureSemaphore (sc_capture (snd run)) = Some 0%nat /\
  isCapturing (sc_capture (snd run)) = true /\
  length (pushed (snd run)) = 1%nat.
Proof. vm_compute. repeat split. Qed.

(** C8, amended.  [stopCapture] does nothing while [isCapturing] is unset:
    a second stop after the first has completed is a no-op, and so is a stop
    that arrives before the start request has completed.  While
    [isCapturing] is set it asks the stream to stop; the completion handler
    clears [isCapturing] and signals the capture semaphore, so that a
    [capture] blocked since a successful start is released with [ok], even
    if no frame was ever delivered. *)
Theorem stopCapture_releases_capture {C : Type} {consumer_callbacks : Consumer C}
  (w : world C) (e : bool) (rest : list native_event) :
  stopCapture w =
    (Ret tt,
     if isCapturing (sc_capture w)
     then with_requests (requests w ++ [stopCaptureWithCompletionHandler]) w
     else w) /\
  (let stopped := snd (stop_completion_handler e w) in
   isCapturing (sc_capture stopped) = false /\
   stopCapture stopped = (Ret tt, stopped)) /\
  (isCapturing (sc_capture w) = false ->
   forall pending, capture (StopCaptureCalled :: pending) w = capture pending w) /\
  (exists w',
     capture (StartCompleted false :: StopCaptureCalled :: StopCompleted e :: rest) w
       = (Ret (capture_ok, rest), w') /\
     isCapturing (sc_capture w') = false /\
     requests w' = requests w ++ [startCaptureWithCompletionHandler;
                                  stopCaptureWithCompletionHandler] /\
     images w' = images w /\ pushed w' = pushed w).
Proof.
  split; [apply stopCapture_run|].
  split.
  { assert (Hstopped : isCapturing (sc_capture (snd (stop_completion_handler e w))) = false).
    { destruct w as [? ? ? ? ? ? [? ? ? ? ? ? ? ? [n|] ?] ?]; reflexivity. }
    cbv zeta. split; [exact Hstopped|].
    rewrite stopCapture_run, Hstopped. reflexivity. }
  split.
  { intros Hidle pending. rewrite !capture_unfold.
    rewrite (wait_serves StopCaptureCalled pending
               (armed capture_frame_block w) (armed capture_frame_block w));
      [reflexivity | reflexivity |].
    unfold native_step. rewrite stopCapture_run. simpl. rewrite Hidle. reflexivity. }
  eexists. split.
  { rewrite capture_unfold, wait_start_completed.
    erewrite wait_serves by reflexivity.
    erewrite wait_stop_completed by reflexivity. reflexivity. }
  simpl. rewrite <- app_assoc. repeat split.
Qed.

(** A stop that arrives before the start has completed is absorbed. *)
Lemma stopCapture_releases_capture_witness :
  isCapturing (sc_capture fresh_world) = false /\
  capture (consumer_callbacks := willing_consumer)
    [StopCaptureCalled; StartCompleted false] fresh_world
  = capture (consumer_callbacks := willing_consumer) [StartCompleted false] fresh_world.
Proof.
  split; [reflexivity|].
  apply ((proj1 (proj2 (proj2
    (stopCapture_releases_capture (consumer_callbacks := willing_consumer)
       fresh_world false [])))) eq_refl [StartCompleted false]).
Defined.


(** ** Requests sent to the stream *)

Section RequestFacts.
Context {C : Type} {consumer_callbacks : Consumer C}.
Implicit Types (w : world C).

Lemma keeps_ret {A} (a : A) : keeps_requests (ret (C := C) a).
Proof. intros w. reflexivity. Qed.

Lemma keeps_undefined {A} : keeps_requests (undefined (C := C) (A := A)).
Proof. intros w. reflexivity. Qed.

Lemma keeps_gets {A} (f : world C -> A) : keeps_requests (gets f).
Proof. intros w. reflexivity. Qed.

Lemma keeps_of_option {A} (o : option A) : keeps_requests (of_option (C := C) o).
Proof. intros w. destruct o; reflexivity. Qed.

Lemma keeps_modify (f : world C -> world C) :
  (forall w, requests (f w) = requests w) -> keeps_requests (modify f).
Proof. intros H w. simpl. apply H. Qed.

Lemma keeps_try_modify (f : world C -> option (world C)) :
  (forall w w', f w = Some w' -> requests w' = requests w) -> keeps_requests (try_modify f).
Proof.
  intros H w. unfold try_modify. destruct (f w) as [w'|] eqn:E; simpl; [|reflexivity].
  apply (H w w' E).
Qed.

Lemma keeps_bind {A B} (m : M C A) (k : A -> M C B) :
  keeps_requests m -> (forall a, keeps_requests (k a)) -> keeps_requests (bind m k).
Proof.
  intros Hm Hk w. unfold bind. specialize (Hm w).
  destruct (m w) as [[a| |] w1]; simpl in *; [|assumption|assumption].
  rewrite (Hk a w1). exact Hm.
Qed.

Lemma keeps_heap_update {T} (g : world C -> option (gmap nat (T * nat)))
  (put : gmap nat (T * nat) -> world C -> world C) :
  (forall h w, requests (put h w) = requests w) ->
  keeps_requests (try_modify (fun w => (fun h => put h w) <$> g w)).
Proof.
  intros Hput. apply keeps_try_modify. intros w w' H.
  destruct (g w) as [h|]; simpl in H; [|discriminate].
  injection H as <-. apply Hput.
Qed.

Local Ltac keeps :=
  repeat first
    [ apply keeps_ret | apply keeps_undefined | apply keeps_gets | apply keeps_of_option
    | apply keeps_modify; intros ?; reflexivity
    | apply keeps_heap_update; intros ? ?; reflexivity
    | apply keeps_bind; [|intros ?]
    | match goal with
      | |- keeps_requests (match ?x with _ => _ end) => destruct x
      end ].

Lemma keeps_run_steps (l : list (M C unit)) :
  Forall keeps_requests l -> keeps_requests (run_steps l).
Proof.
  induction 1 as [|s l Hs _ IH]; simpl.
  - apply keeps_ret.
  - apply keeps_bind; [exact Hs | intros _; exact IH].
Qed.

Lemma keeps_handoff (img ns np : nat) : keeps_requests (run_steps (handoff (C := C) img ns np)).
Proof.
  apply keeps_run_steps. unfold handoff.
  repeat (apply Forall_cons; split); [..|apply Forall_nil];
    unfold make_retainer, set_sample_buffer, set_pixel_buffer, set_data, set_width,
      set_height, set_row_pitch, set_pixel_pitch, release_retainer,
      load_img, store_img, load_pixel_buf, acquire_sample, release_sample,
      acquire_pixel, release_pixel;
    keeps; exact I.
Qed.

Lemma keeps_leave_block (ns np : nat) : keeps_requests (leave_block (C := C) ns np).
Proof. unfold leave_block, release_pixel, release_sample. keeps. Qed.

Lemma keeps_capture_block (sb : CMSampleBufferRef) : keeps_requests (capture_block sb).
Proof.
  unfold capture_block.
  apply keeps_bind; [intros w; reflexivity | intros ns].
  apply keeps_bind; [unfold load_sample_buf; keeps | intros sbuf].
  apply keeps_bind; [intros w; reflexivity | intros np].
  apply keeps_bind.
  { intros w. unfold call_pull. destruct (pull_free_image_cb (consumer w)). reflexivity. }
  intros [[] [img|]].
  - apply keeps_bind; [apply keeps_handoff | intros _].
    apply keeps_bind.
    + unfold call_push. apply keeps_bind; [unfold load_img; keeps | intros i].
      intros w. destruct (push_captured_image_cb img i true (consumer w)). reflexivity.
    + intros []; simpl; (apply keeps_bind; [apply keeps_leave_block | intros _; apply keeps_ret]).
  - apply keeps_undefined.
  - apply keeps_bind; [apply keeps_leave_block | intros _; apply keeps_ret].
  - apply keeps_bind; [apply keeps_leave_block | intros _; apply keeps_ret].
Qed.

Lemma keeps_dummy_img_block (img : nat) (sb : CMSampleBufferRef) :
  keeps_requests (dummy_img_block (C := C) img sb).
Proof.
  unfold dummy_img_block.
  apply keeps_bind; [intros w; reflexivity | intros ns].
  apply keeps_bind; [unfold load_sample_buf; keeps | intros sbuf].
  apply keeps_bind; [intros w; reflexivity | intros np].
  apply keeps_bind; [apply keeps_handoff | intros _].
  apply keeps_bind; [apply keeps_leave_block | intros _; apply keeps_ret].
Qed.

Lemma start_requests_stop (l : list stream_request) :
  start_requests (l ++ [stopCaptureWithCompletionHandler]) = start_requests l.
Proof. unfold start_requests. rewrite count_occ_app. simpl. lia. Qed.

Lemma start_requests_start (l : list stream_request) :
  start_requests (l ++ [startCaptureWithCompletionHandler]) = S (start_requests l).
Proof. unfold start_requests. rewrite count_occ_app. simpl. lia. Qed.

(** No native event makes the session ask for another start. *)
Lemma native_step_start_requests (e : native_event) w :
  start_requests (requests (snd (native_step e w))) = start_requests (requests w).
Proof.
  assert (Hstop : forall w1, start_requests (requests (snd (stopCapture w1)))
                             = start_requests (requests w1)).
  { intros w1. rewrite stopCapture_run. simpl.
    destruct (isCapturing (sc_capture w1)); simpl; [apply start_requests_stop | reflexivity]. }
  assert (Hsignal : keeps_requests (dispatch_semaphore_signal (C := C))).
  { unfold dispatch_semaphore_signal, update_sc. keeps. }
  destruct e as [error|error|sb ty| |]; simpl.
  - f_equal. destruct error; [apply Hsignal | reflexivity].
  - f_equal. unfold stop_completion_handler, update_sc.
    apply keeps_bind; [keeps | intros _].
    apply keeps_bind; [keeps | intros [n|]]; [apply Hsignal | apply keeps_ret].
  - destruct ty; try reflexivity.
    unfold stream_didOutputSampleBuffer, bind at 1, gets.
    destruct (frameCallback (sc_capture w)) as [cb|]; [|reflexivity].
    assert (Hcb : keeps_requests (call_frame_callback cb sb))
      by (destruct cb; [apply keeps_capture_block | apply keeps_dummy_img_block]).
    unfold bind. specialize (Hcb w).
    destruct (call_frame_callback cb sb w) as [[[]| |] w1]; simpl in *;
      try (f_equal; exact Hcb).
    rewrite Hstop. f_equal. exact Hcb.
  - f_equal. unfold stream_didStopWithError, update_sc.
    apply keeps_bind; [keeps | intros _].
    apply keeps_bind; [keeps | intros [n|]]; [apply Hsignal | apply keeps_ret].
  - apply Hstop.
Qed.

(** However long the wait, the stream is asked to start no more. *)
Lemma wait_start_requests (pending : list native_event) w :
  start_requests (requests (snd (dispatch_semaphore_wait pending w)))
  = start_requests (requests w).
Proof.
  revert w. induction pending as [|e pending IH]; intros w; simpl.
  - destruct (captureSemaphore (sc_capture w)) as [[|n]|]; reflexivity.
  - destruct (captureSemaphore (sc_capture w)) as [[|n]|]; try reflexivity;
      pose proof (native_step_start_requests e w) as He;
      destruct (native_step e w) as [[[]| |] w1]; simpl in *;
      try exact He; rewrite IH; exact He.
Qed.

(** [dummy_img] with the permission granted asks the stream to start
    exactly once, whatever happens while it waits. *)
Lemma dummy_img_one_start (img : nat) (pending : list native_event) w :
  start_requests (requests (snd (dummy_img true img pending w)))
  = S (start_requests (requests w)).
Proof.
  rewrite dummy_img_unfold.
  pose proof (wait_start_requests pending (armed (dummy_img_frame_block img) w)) as H.
  destruct (dispatch_semaphore_wait pending _) as [[rest| |] w1]; simpl in *;
    rewrite H; apply start_requests_start.
Qed.

Lemma capture_one_start (pending : list native_event) w :
  start_requests (requests (snd (capture pending w))) = S (start_requests (requests w)).
Proof.
  rewrite capture_unfold.
  pose proof (wait_start_requests pending (armed capture_frame_block w)) as H.
  destruct (dispatch_semaphore_wait pending _) as [[rest| |] w1]; simpl in *;
    rewrite H; apply start_requests_start.
Qed.

End RequestFacts.

(** ** The permission probe *)

(** C3, as stated, fails: with the permission granted and a start request
    that fails, [dummy_img] is released by the start handler and answers 0,
    although no frame was delivered and the image is still unbound. *)
Lemma dummy_img_succeeds_without_a_frame :
  let run := dummy_img (consumer_callbacks := willing_consumer) true 0
               [StartCompleted true] fresh_world in
  fst run = Ret (0, []) /\
  images (snd run) !! 0%nat = Some alloc_img /\
  requests (snd run) = [startCaptureWithCompletionHandler].
Proof. vm_compute. repeat split. Qed.

(** C3, amended.  When the permission probe reports false, [dummy_img]
    answers 1 and leaves the session untouched.  Otherwise it makes one
    round trip to the native layer: it asks the stream to start exactly
    once, with a block that answers "stop" on every frame it is given, waits
    for the capture semaphore, and answers 0 whenever it returns: after one
    hand-off into [img], not published to the consumer, when the stream
    starts, delivers a frame and completes the stop; and also, with no frame
    handed off, when the start request fails. *)
Theorem dummy_img_probe {C : Type} {consumer_callbacks : Consumer C}
  (w : world C) (img : nat) (pending rest : list native_event) :
  dummy_img false img pending w = (Ret (1, pending), w) /\
  (forall r rest' w', dummy_img true img pending w = (Ret (r, rest'), w') -> r = 0) /\
  start_requests (requests (snd (dummy_img true img pending w)))
    = S (start_requests (requests w)) /\
  (forall sb (w1 : world C) b w', dummy_img_block img sb w1 = (Ret b, w') -> b = false) /\
  (exists w',
     dummy_img true img (StartCompleted true :: rest) w = (Ret (0, rest), w') /\
     images w' = images w /\
     requests w' = requests w ++ [startCaptureWithCompletionHandler]) /\
  (forall sb i q e,
     image_owned img i w ->
     derived_pitch sb = Some q ->
     exists w',
       dummy_img true img
         (StartCompleted false :: DidOutputSampleBuffer sb SCStreamOutputTypeScreen
          :: StopCompleted e :: rest) w
         = (Ret (0, rest), w') /\
       images w' = <[img := installed (new_sample_id w) (new_pixel_id w)
                              (CMSampleBufferGetImageBuffer sb) q]> (images w) /\
       pushed w' = pushed w /\
       requests w' = requests w ++ [startCaptureWithCompletionHandler;
                                    stopCaptureWithCompletionHandler] /\
       isCapturing (sc_capture w') = false).
Proof.
  split; [reflexivity|].
  split; [intros r rest' w'; apply dummy_img_only_zero|].
  split; [apply dummy_img_one_start|].
  split; [intros sb w1 b w'; apply dummy_img_block_stops|].
  split.
  { eexists. split.
    - rewrite dummy_img_unfold.
      erewrite wait_serves by reflexivity.
      erewrite wait_returns by reflexivity. reflexivity.
    - split; reflexivity. }
  intros sb i q e Hown Hq.
  destruct (dummy_img_block_completes sb img i (started (dummy_img_frame_block img) w) q
              Hown Hq)
    as (w1 & Hblock & Himg & Hpushed & _ & _ & Hsc & Hreq & _).
  assert (Hcap1 : isCapturing (sc_capture w1) = true) by (rewrite Hsc; reflexivity).
  assert (Hsem1 : captureSemaphore (sc_capture w1) = Some 0%nat) by (rewrite Hsc; reflexivity).
  eexists. split.
  { rewrite dummy_img_unfold, wait_start_completed.
    erewrite wait_serves;
      [| reflexivity
       | unfold native_step;
         rewrite (didOutputSampleBuffer_run sb (dummy_img_frame_block img) false
                    (started (dummy_img_frame_block img) w) w1 eq_refl Hblock);
         rewrite stopCapture_run, Hcap1; reflexivity].
    erewrite wait_stop_completed by exact Hsem1. reflexivity. }
  simpl.
  split; [exact Himg|]. split; [exact Hpushed|].
  split; [|reflexivity].
  rewrite Hreq. simpl. rewrite <- app_assoc. reflexivity.
Qed.

(** The probe on a fresh image: one frame of 1920x1080 is handed off and
    the probe answers 0. *)
Lemma dummy_img_probe_witness :
  image_owned 0 alloc_img fresh_world /\
  exists w',
    dummy_img (consumer_callbacks := willing_consumer) true 0
      [StartCompleted false; DidOutputSampleBuffer frame_1080p SCStreamOutputTypeScreen;
       StopCompleted false] fresh_world
      = (Ret (0, []), w') /\
    images w' = <[0%nat := installed (new_sample_id fresh_world) (new_pixel_id fresh_world)
                             (CMSampleBufferGetImageBuffer frame_1080p) 4]>
                  (images fresh_world) /\
    pushed w' = pushed fresh_world /\
    requests w' = requests fresh_world ++ [startCaptureWithCompletionHandler;
                                           stopCaptureWithCompletionHandler] /\
    isCapturing (sc_capture w') = false.
Proof.
  split; [exact fresh_world_image_owned|].
  apply ((proj2 (proj2 (proj2 (proj2 (proj2
    (dummy_img_probe (consumer_callbacks := willing_consumer) fresh_world 0 [] []))))))
    frame_1080p alloc_img 4 false fresh_world_image_owned eq_refl).
Defined.


(** ** Choosing the encode device *)

Lemma pixel_formats_distinct :
  kCVPixelFormatType_32BGRA <> kCVPixelFormatType_420YpCbCr8BiPlanarVideoRange /\
  kCVPixelFormatType_32BGRA <> kCVPixelFormatType_420YpCbCr10BiPlanarVideoRange /\
  kCVPixelFormatType_420YpCbCr8BiPlanarVideoRange
    <> kCVPixelFormatType_420YpCbCr10BiPlanarVideoRange.
Proof. repeat split; discriminate. Qed.

(** What a change of the session's pixel format leaves alone: every property
    of the session but [pixelFormat], the stream configuration included. *)
Lemma set_pixelFormat_only (f : OSType) (sc : ApolloScreenCapture) :
  pixelFormat (set_pixelFormat f sc) = f /\
  displayID (set_pixelFormat f sc) = displayID sc /\
  frameWidth (set_pixelFormat f sc) = frameWidth sc /\
  frameHeight (set_pixelFormat f sc) = frameHeight sc /\
  frameRate (set_pixelFormat f sc) = frameRate sc /\
  captureHDR (set_pixelFormat f sc) = captureHDR sc /\
  streamConfig (set_pixelFormat f sc) = streamConfig sc /\
  frameCallback (set_pixelFormat f sc) = frameCallback sc /\
  captureSemaphore (set_pixelFormat f sc) = captureSemaphore sc /\
  isCapturing (set_pixelFormat f sc) = isCapturing sc.
Proof. repeat split. Qed.

(** C4.  [make_avcodec_encode_device] selects by the requested format.  For
    [yuv420p] it hands back the standard conversion device, and the
    session's pixel format is 32BGRA afterwards.  For [nv12] and [p010] it
    hands back a zero-copy device with the resolution hook installed, and
    the session's pixel format is the matching bi-planar format afterwards
    (8-bit for [nv12], 10-bit for [p010]): [init] passes that format to the
    pixel-format hook it is given, whatever the hook is, and the hook of
    [sc_display_t] stores it.  In these three cases nothing else of the
    session changes.  For every other format, and only then, it hands back
    null, and the session is as it was, pixel format included. *)
Theorem encode_device_selection (sc : ApolloScreenCapture) :
  let rest_kept (sc' : ApolloScreenCapture) :=
    displayID sc' = displayID sc /\ frameWidth sc' = frameWidth sc /\
    frameHeight sc' = frameHeight sc /\ frameRate sc' = frameRate sc /\
    captureHDR sc' = captureHDR sc /\ streamConfig sc' = streamConfig sc /\
    frameCallback sc' = frameCallback sc /\ captureSemaphore sc' = captureSemaphore sc /\
    isCapturing sc' = isCapturing sc in
  let zero_copy :=
    nv12_zero {| nv_frame := None; nv_resolution_fn := Some setResolution; nv_data := true |} in
  (fst (make_avcodec_encode_device yuv420p sc) = Some avcodec_encode_device_t /\
   pixelFormat (snd (make_avcodec_encode_device yuv420p sc)) = kCVPixelFormatType_32BGRA /\
   rest_kept (snd (make_avcodec_encode_device yuv420p sc))) /\
  (fst (make_avcodec_encode_device nv12 sc) = Some zero_copy /\
   pixelFormat (snd (make_avcodec_encode_device nv12 sc))
     = kCVPixelFormatType_420YpCbCr8BiPlanarVideoRange /\
   rest_kept (snd (make_avcodec_encode_device nv12 sc))) /\
  (fst (make_avcodec_encode_device p010 sc) = Some zero_copy /\
   pixelFormat (snd (make_avcodec_encode_device p010 sc))
     = kCVPixelFormatType_420YpCbCr10BiPlanarVideoRange /\
   rest_kept (snd (make_avcodec_encode_device p010 sc))) /\
  (forall dev display (resolution_fn : resolution_fn_t) (pixel_format_fn : pixel_format_fn_t),
     snd (nv12_zero_device_init dev display nv12 resolution_fn pixel_format_fn)
       = pixel_format_fn display kCVPixelFormatType_420YpCbCr8BiPlanarVideoRange /\
     snd (nv12_zero_device_init dev display p010 resolution_fn pixel_format_fn)
       = pixel_format_fn display kCVPixelFormatType_420YpCbCr10BiPlanarVideoRange) /\
  (forall display pixelFormat', pixelFormat (setPixelFormat display pixelFormat') = pixelFormat') /\
  (forall tag, make_avcodec_encode_device (pix_fmt_other tag) sc = (None, sc)) /\
  (forall pix_fmt,
     fst (make_avcodec_encode_device pix_fmt sc) = None <->
     exists tag, pix_fmt = pix_fmt_other tag).
Proof.
  cbv zeta.
  assert (Hfmt : forall pix_fmt f,
            snd (make_avcodec_encode_device pix_fmt sc) = set_pixelFormat f sc ->
            pixelFormat (snd (make_avcodec_encode_device pix_fmt sc)) = f /\
            displayID (snd (make_avcodec_encode_device pix_fmt sc)) = displayID sc /\
            frameWidth (snd (make_avcodec_encode_device pix_fmt sc)) = frameWidth sc /\
            frameHeight (snd (make_avcodec_encode_device pix_fmt sc)) = frameHeight sc /\
            frameRate (snd (make_avcodec_encode_device pix_fmt sc)) = frameRate sc /\
            captureHDR (snd (make_avcodec_encode_device pix_fmt sc)) = captureHDR sc /\
            streamConfig (snd (make_avcodec_encode_device pix_fmt sc)) = streamConfig sc /\
            frameCallback (snd (make_avcodec_encode_device pix_fmt sc)) = frameCallback sc /\
            captureSemaphore (snd (make_avcodec_encode_device pix_fmt sc))
              = captureSemaphore sc /\
            isCapturing (snd (make_avcodec_encode_device pix_fmt sc)) = isCapturing sc).
  { intros pix_fmt f ->. apply set_pixelFormat_only. }
  split; [split; [reflexivity | apply Hfmt; reflexivity]|].
  split; [split; [reflexivity | apply Hfmt; reflexivity]|].
  split; [split; [reflexivity | apply Hfmt; reflexivity]|].
  split; [intros; split; reflexivity|].
  split; [intros; reflexivity|].
  split; [intros; reflexivity|].
  intros pix_fmt. split.
  - destruct pix_fmt as [| | |tag]; try discriminate. eauto.
  - intros [tag ->]. reflexivity.
Qed.

(** ** Binding the encoder frame without a copy *)

Section ConvertFacts.
Implicit Types (e : encoder).

(** Dropping the last reference to an [AVBuffer] frees it and releases the
    pixel buffer it holds. *)
Lemma av_buffer_unref_last (b : nat) (d : CVPixelBufferRef) e :
  av_buffers e !! b = Some {| avb_data := d; avb_refcount := 1 |} ->
  av_buffer_unref (Some b) e =
  CVPixelBufferRelease d
    {| av_frames := av_frames e; av_buffers := delete b (av_buffers e);
       cf_retain_count := cf_retain_count e |}.
Proof. intros H. unfold av_buffer_unref. rewrite H. reflexivity. Qed.

(** Dropping one of several references only counts down. *)
Lemma av_buffer_unref_shared (b : nat) (d : CVPixelBufferRef) (n : nat) e :
  av_buffers e !! b = Some {| avb_data := d; avb_refcount := S (S n) |} ->
  av_buffer_unref (Some b) e =
  {| av_frames := av_frames e;
     av_buffers := <[b := {| avb_data := d; avb_refcount := S n |}]> (av_buffers e);
     cf_retain_count := cf_retain_count e |}.
Proof. intros H. unfold av_buffer_unref. rewrite H. reflexivity. Qed.

Lemma av_buffer_unref_frames (ref : option nat) e :
  av_frames (av_buffer_unref ref e) = av_frames e.
Proof.
  destruct ref as [b|]; [|reflexivity]. simpl.
  destruct (av_buffers e !! b) as [[d [|[|n]]]|]; try reflexivity;
    destruct d; reflexivity.
Qed.

(** What a retain and a release do to the count of each handle. *)
Lemma retain_lookup_CFRetain (buf : CVPixelBuffer) e (h : nat) :
  cf_retain_count (CFRetain buf e) !! h =
  if decide (h = pb_handle buf)
  then Some (S (default 0%nat (cf_retain_count e !! h)))
  else cf_retain_count e !! h.
Proof.
  unfold CFRetain. simpl. destruct (decide (h = pb_handle buf)) as [->|Hne].
  - apply lookup_insert_eq.
  - apply lookup_insert_ne. congruence.
Qed.

Lemma retain_lookup_release (buf : CVPixelBuffer) e (h : nat) :
  cf_retain_count (CVPixelBufferRelease (Some buf) e) !! h =
  if decide (h = pb_handle buf)
  then Some (Nat.pred (default 0%nat (cf_retain_count e !! h)))
  else cf_retain_count e !! h.
Proof.
  simpl. destruct (decide (h = pb_handle buf)) as [->|Hne].
  - apply lookup_insert_eq.
  - apply lookup_insert_ne. congruence.
Qed.

End ConvertFacts.

(** C7.  [convert] on an image whose pixel wrapper is null, or whose wrapper
    holds a null buffer, answers -1 and leaves the encoder, the frame and
    its binding included, as they were.  Otherwise, with the encoder frame
    set, it answers 0 and the frame is bound to the native pixel buffer
    itself: [buf[0]] is a new [AVBuffer] with one reference whose data is
    the buffer, [data[3]] is the buffer, and the buffer has one retain more;
    the wrappers and the pixels behind them are only read.  The previous
    binding is released: a frame that was bound through the last reference
    to an [AVBuffer] loses that [AVBuffer], and the pixel buffer it held
    loses one retain; where the [AVBuffer] has other references, it only
    loses one of them and the pixel buffer keeps its retains; a frame that
    was not bound has nothing to release. *)
Theorem zero_copy_convert (pixel_wrappers : gmap nat (av_pixel_buf_t * nat))
  (img : av_img_t) (dev : nv12_zero_device) (e : encoder) :
  (pixel_buffer img = None ->
   nv12_zero_device_convert pixel_wrappers img dev e = (Ret (-1), e)) /\
  (forall p c,
     pixel_buffer img = Some p ->
     pixel_wrappers !! p = Some ({| pixel_buf := None |}, c) ->
     nv12_zero_device_convert pixel_wrappers img dev e = (Ret (-1), e)) /\
  (forall p c buf f frame,
     pixel_buffer img = Some p ->
     pixel_wrappers !! p = Some ({| pixel_buf := Some buf |}, c) ->
     nv_frame dev = Some f ->
     av_frames e !! f = Some frame ->
     let binding := {| avb_data := Some buf; avb_refcount := 1 |} in
     let retained (h : nat) := if decide (h = pb_handle buf) then 1%nat else 0%nat in
     exists b' e',
       nv12_zero_device_convert pixel_wrappers img dev e = (Ret 0, e') /\
       av_frames e' = <[f := {| frame_width := frame_width frame;
                                frame_height := frame_height frame;
                                frame_buf0 := Some b';
                                frame_data3 := Some buf |}]> (av_frames e) /\
       av_buffers e' !! b' = Some binding /\
       (frame_buf0 frame = None ->
        av_buffers e !! b' = None /\
        av_buffers e' = <[b' := binding]> (av_buffers e) /\
        forall h : nat,
          default 0%nat (cf_retain_count e' !! h)
          = (retained h + default 0%nat (cf_retain_count e !! h))%nat) /\
       (forall b d,
          frame_buf0 frame = Some b ->
          av_buffers e !! b = Some {| avb_data := d; avb_refcount := 1 |} ->
          let released (h : nat) :=
            match d with
            | Some old => if decide (h = pb_handle old) then 1%nat else 0%nat
            | None => 0%nat
            end in
          delete b (av_buffers e) !! b' = None /\
          av_buffers e' = <[b' := binding]> (delete b (av_buffers e)) /\
          forall h : nat,
            default 0%nat (cf_retain_count e' !! h)
            = (retained h + (default 0%nat (cf_retain_count e !! h) - released h))%nat) /\
       (forall b d n,
          frame_buf0 frame = Some b ->
          av_buffers e !! b = Some {| avb_data := d; avb_refcount := S (S n) |} ->
          b' <> b /\ av_buffers e !! b' = None /\
          av_buffers e' = <[b' := binding]>
                            (<[b := {| avb_data := d; avb_refcount := S n |}]> (av_buffers e)) /\
          forall h : nat,
            default 0%nat (cf_retain_count e' !! h)
            = (retained h + default 0%nat (cf_retain_count e !! h))%nat)).
Proof.
  split; [|split].
  - intros Hnull. unfold nv12_zero_device_convert. rewrite Hnull. reflexivity.
  - intros p c Hp Hw. unfold nv12_zero_device_convert. rewrite Hp, Hw. reflexivity.
  - intros p c buf f frame Hp Hw Hf Hframe. cbv zeta.
    unfold nv12_zero_device_convert. rewrite Hp, Hw. cbn [pixel_buf]. rewrite Hf, Hframe.
    set (released := av_buffer_unref (frame_buf0 frame) e).
    assert (Hfresh : av_buffers released !! fresh (dom (av_buffers released)) = None)
      by (apply not_elem_of_dom; apply is_fresh).
    assert (Hcount : forall h : nat,
              default 0%nat (cf_retain_count (CFRetain buf released) !! h)
              = ((if decide (h = pb_handle buf) then 1 else 0)
                 + default 0%nat (cf_retain_count released !! h))%nat).
    { intros h. rewrite retain_lookup_CFRetain.
      destruct (decide (h = pb_handle buf)); reflexivity. }
    exists (fresh (dom (av_buffers released))), 
      (store_frame f {| frame_width := frame_width frame;
                        frame_height := frame_height frame;
                        frame_buf0 := Some (fresh (dom (av_buffers released)));
                        frame_data3 := Some buf |}
         (snd (av_buffer_create (Some buf) (CFRetain buf released)))).
    split; [reflexivity|].
    cbn [av_frames av_buffers cf_retain_count store_frame av_buffer_create CFRetain snd].
    split; [unfold released; rewrite av_buffer_unref_frames; reflexivity|].
    split; [apply lookup_insert_eq|].
    split; [|split].
    + intros Hb0.
      assert (Hrel : released = e) by (unfold released; rewrite Hb0; reflexivity).
      rewrite Hrel in Hfresh, Hcount |- *.
      split; [exact Hfresh|]. split; [reflexivity|]. exact Hcount.
    + intros b d Hb0 Hb.
      assert (Hrel : released =
                     CVPixelBufferRelease d
                       {| av_frames := av_frames e; av_buffers := delete b (av_buffers e);
                          cf_retain_count := cf_retain_count e |}).
      { unfold released. rewrite Hb0. apply av_buffer_unref_last. exact Hb. }
      assert (Hbuffers : av_buffers released = delete b (av_buffers e)).
      { rewrite Hrel. destruct d; reflexivity. }
      rewrite Hbuffers in Hfresh |- *.
      split; [exact Hfresh|]. split; [reflexivity|].
      intros h. specialize (Hcount h). cbn [CFRetain cf_retain_count] in Hcount.
      rewrite Hcount. f_equal.
      rewrite Hrel. destruct d as [old|]; [|cbn; lia].
      rewrite retain_lookup_release. cbn [cf_retain_count].
      destruct (decide (h = pb_handle old)); cbn; lia.
    + intros b d n Hb0 Hb.
      assert (Hrel : released =
                     {| av_frames := av_frames e;
                        av_buffers := <[b := {| avb_data := d; avb_refcount := S n |}]>
                                        (av_buffers e);
                        cf_retain_count := cf_retain_count e |}).
      { unfold released. rewrite Hb0. apply av_buffer_unref_shared. exact Hb. }
      rewrite Hrel in Hfresh, Hcount |- *.
      cbn [av_buffers cf_retain_count] in Hfresh, Hcount |- *.
      assert (Hne : fresh (dom (<[b := {| avb_data := d; avb_refcount := S n |}]>
                                  (av_buffers e))) <> b).
      { intros Heq. rewrite Heq, lookup_insert_eq in Hfresh. discriminate. }
      split; [exact Hne|].
      split; [rewrite lookup_insert_ne in Hfresh by congruence; exact Hfresh|].
      split; [reflexivity | exact Hcount].
Qed.

(** The frame bound to an earlier buffer, number 60, through the only
    reference to its [AVBuffer], is rebound to the buffer of [frame_1080p],
    number 70: the earlier [AVBuffer] is gone, buffer 60 is left without a
    retain and buffer 70 has one. *)
Lemma zero_copy_convert_witness :
  exists b' e',
    nv12_zero_device_convert pixel_wrappers_of_frame
      (set_pixel_buffer_field (Some 0%nat) alloc_img) device_with_frame bound_encoder
      = (Ret 0, e') /\
    av_frames e' = <[0%nat := {| frame_width := 1920; frame_height := 1080;
                                 frame_buf0 := Some b';
                                 frame_data3 := sb_image_buffer frame_1080p |}]>
                     (av_frames bound_encoder) /\
    av_buffers e' = {[ b' := {| avb_data := sb_image_buffer frame_1080p;
                                avb_refcount := 1 |} ]} /\
    default 0%nat (cf_retain_count e' !! 60%nat) = 0%nat /\
    default 0%nat (cf_retain_count e' !! 70%nat) = 1%nat.
Proof.
  destruct (proj2 (proj2
    (zero_copy_convert pixel_wrappers_of_frame
       (set_pixel_buffer_field (Some 0%nat) alloc_img) device_with_frame bound_encoder))
    0%nat 1%nat _ 0%nat
    {| frame_width := 1920; frame_height := 1080; frame_buf0 := Some 0%nat;
       frame_data3 := Some earlier_pixel_buffer |}
    eq_refl eq_refl eq_refl eq_refl)
    as (b' & e' & Hrun & Hframes & _ & _ & Hlast & _).
  destruct (Hlast 0%nat (Some earlier_pixel_buffer) eq_refl eq_refl)
    as (_ & Hbuffers & Hcounts).
  exists b', e'. split; [exact Hrun|]. split; [exact Hframes|].
  split; [rewrite Hbuffers; reflexivity|].
  split; [exact (Hcounts 60%nat) | exact (Hcounts 70%nat)].
Defined.

(** At that input the earlier buffer, 60, ends with no retain and the new
    one, 70, with one. *)
Lemma zero_copy_convert_counts :
  let e' := snd (nv12_zero_device_convert pixel_wrappers_of_frame
                   (set_pixel_buffer_field (Some 0%nat) alloc_img)
                   device_with_frame bound_encoder) in
  cf_retain_count e' !! 60%nat = Some 0%nat /\
  cf_retain_count e' !! 70%nat = Some 1%nat.
Proof. vm_compute. split; reflexivity. Qed.

(** ** Selecting the display *)

Section DisplayFacts.

Lemma find_display_some (displayID d : Z) (displays : list Z) :
  find_display displayID displays = Some d -> d = displayID /\ In d displays.
Proof.
  unfold find_display. intros H. apply List.find_some in H as [Hin Heq].
  apply Z.eqb_eq in Heq. split; assumption.
Qed.

Lemma find_display_none (displayID : Z) (displays : list Z) :
  find_display displayID displays = None -> ~ In displayID displays.
Proof.
  unfold find_display. intros H Hin.
  pose proof (List.find_none _ _ H displayID Hin) as Hne.
  simpl in Hne. rewrite Z.eqb_refl in Hne. discriminate.
Qed.

(** The selection loop, entry by entry. *)
Lemma select_loop_no_match (display_name : string) (entries : list display_entry) (start : Z) :
  string_empty display_name = true \/
  (forall item, In item entries -> to_uint (atoi display_name) <> entry_id item) ->
  fold_left
    (fun display_id item =>
       if negb (string_empty display_name) && (to_uint (atoi display_name) =? entry_id item)
       then entry_id item else display_id)
    entries start = start.
Proof.
  intros H. revert start. induction entries as [|item entries IH]; intros start.
  - reflexivity.
  - simpl.
    assert (Hstep : negb (string_empty display_name)
                    && (to_uint (atoi display_name) =? entry_id item) = false).
    { destruct H as [He|Hn].
      - rewrite He. reflexivity.
      - apply andb_false_iff. right. apply Z.eqb_neq. apply Hn. left. reflexivity. }
    rewrite Hstep. apply IH.
    destruct H as [He|Hn]; [left; exact He | right].
    intros item' Hin. apply Hn. right. exact Hin.
Qed.

Lemma select_loop_range (display_name : string) (entries : list display_entry) (start : Z) :
  let result :=
    fold_left
      (fun display_id item =>
         if negb (string_empty display_name) && (to_uint (atoi display_name) =? entry_id item)
         then entry_id item else display_id)
      entries start in
  result = start \/ result = to_uint (atoi display_name).
Proof.
  revert start. induction entries as [|item entries IH]; intros start; cbn [fold_left].
  - left. reflexivity.
  - destruct (negb (string_empty display_name)
              && (to_uint (atoi display_name) =? entry_id item)) eqn:Hc.
    + apply andb_true_iff in Hc as [_ Heq]. apply Z.eqb_eq in Heq.
      right. destruct (IH (entry_id item)) as [H|H]; cbv zeta in H; rewrite H; congruence.
    + apply IH.
Qed.

Lemma select_loop_match (display_name : string) (entries : list display_entry) (start : Z) :
  string_empty display_name = false ->
  (exists item, In item entries /\ entry_id item = to_uint (atoi display_name)) ->
  fold_left
    (fun display_id item =>
       if negb (string_empty display_name) && (to_uint (atoi display_name) =? entry_id item)
       then entry_id item else display_id)
    entries start = to_uint (atoi display_name).
Proof.
  intros Hne. revert start.
  induction entries as [|item entries IH]; intros start [x [Hin Hx]].
  - destruct Hin.
  - cbn [fold_left].
    destruct (negb (string_empty display_name)
              && (to_uint (atoi display_name) =? entry_id item)) eqn:Hc.
    + apply andb_true_iff in Hc as [_ Heq]. apply Z.eqb_eq in Heq.
      destruct (select_loop_range display_name entries (entry_id item)) as [H|H];
        cbv zeta in H; rewrite H; congruence.
    + apply IH. destruct Hin as [<-|Hin]; [|eauto].
      rewrite Hne, Hx, Z.eqb_refl in Hc. discriminate.
Qed.

(** When the set-up succeeds, the session is bound to a display of the
    shareable content: the wanted one if it is there, else the first. *)
Lemma initWithDisplay_some (env : native_env) (wanted frameRate : Z) (sc : ApolloScreenCapture) :
  initWithDisplay env wanted frameRate = Some sc ->
  exists displays,
    shareable_content env = Some (content_displays displays) /\
    addStreamOutput_error env = false /\
    In (displayID sc) displays /\
    (In wanted displays -> displayID sc = wanted) /\
    (~ In wanted displays -> head displays = Some (displayID sc)).
Proof.
  unfold initWithDisplay.
  destruct (match CGDisplayCopyDisplayMode env wanted with
            | Some (w, h) => (to_int w, to_int h)
            | None => let '(w, h) := CGDisplayPixels env wanted in (to_int w, to_int h)
            end) as [w h].
  destruct (shareable_content env) as [[|displays]|]; try discriminate.
  destruct (find_display wanted displays) as [d|] eqn:Hfind.
  - destruct (addStreamOutput_error env) eqn:Hadd; [discriminate|].
    intros [= <-]. simpl. exists displays.
    apply find_display_some in Hfind as [-> Hin].
    repeat split; try assumption; try reflexivity.
    intros Hnot. contradiction.
  - destruct displays as [|d displays]; [discriminate|].
    destruct (addStreamOutput_error env) eqn:Hadd; [discriminate|].
    intros [= <-]. simpl. exists (d :: displays).
    apply find_display_none in Hfind.
    repeat split; try reflexivity.
    + left. reflexivity.
    + intros Hin. contradiction.
Qed.

(** The set-up fails exactly when the content query gets no answer in time
    or an error, when there is no display at all, or when the output cannot
    be registered. *)
Lemma initWithDisplay_none (env : native_env) (wanted frameRate : Z) :
  initWithDisplay env wanted frameRate = None <->
  shareable_content env = None \/
  shareable_content env = Some content_error \/
  shareable_content env = Some (content_displays []) \/
  addStreamOutput_error env = true.
Proof.
  unfold initWithDisplay.
  destruct (match CGDisplayCopyDisplayMode env wanted with
            | Some (w, h) => (to_int w, to_int h)
            | None => let '(w, h) := CGDisplayPixels env wanted in (to_int w, to_int h)
            end) as [w h].
  destruct (shareable_content env) as [[|displays]|].
  - split; [intros _; right; left; reflexivity | reflexivity].
  - destruct (find_display wanted displays) as [d|] eqn:Hfind.
    + apply find_display_some in Hfind as [_ Hin].
      destruct (addStreamOutput_error env); split; intros H; try discriminate;
        try (right; right; right; reflexivity); try reflexivity.
      destruct H as [H|[H|[H|H]]]; try discriminate.
      injection H as ->. destruct Hin.
    + destruct displays as [|d displays].
      * split; [intros _; right; right; left; reflexivity | reflexivity].
      * destruct (addStreamOutput_error env); split; intros H; try discriminate;
          try (right; right; right; reflexivity); try reflexivity.
        destruct H as [H|[H|[H|H]]]; discriminate.
  - split; [intros _; left; reflexivity | reflexivity].
Qed.

End DisplayFacts.

(** C10, as stated, fails: [display] hands back null although displays
    exist, when the shareable content cannot be read, and when the memory
    type is neither [system] nor [videotoolbox]. *)
Lemma display_fails_with_displays_present :
  CGGetActiveDisplayList two_displays_unreadable = Some [1; 2] /\
  display two_displays_unreadable mem_system "" 60 = None /\
  shareable_content two_displays = Some (content_displays [1; 2]) /\
  display two_displays (mem_other 0) "" 60 = None.
Proof. repeat split. Qed.

(** C10, amended.  A session that [display] hands back is bound to a
    display: the id it asks for is the main display when [display_name] is
    empty or matches no enumerated id; the session is bound to that id when
    the shareable content has it, and otherwise to the first display of the
    content, whose id it stores.  [display] hands back null when there is
    no display at all, and also when the memory type is neither [system]
    nor [videotoolbox], when the content query fails or is not answered in
    time, and when the stream output cannot be registered. *)
Theorem display_binds_a_display (env : native_env) (hwdevice_type : mem_type_e)
  (display_name : string) (framerate : Z) :
  (string_empty display_name = true \/
   (forall item, In item (displayNames env) ->
                 to_uint (atoi display_name) <> entry_id item) ->
   select_display_id env display_name = to_uint (CGMainDisplayID env)) /\
  (forall d,
     display env hwdevice_type display_name framerate = Some d ->
     display_id d = select_display_id env display_name /\
     exists displays,
       shareable_content env = Some (content_displays displays) /\
       In (displayID (sc_session d)) displays /\
       (In (display_id d) displays -> displayID (sc_session d) = display_id d) /\
       (~ In (display_id d) displays -> head displays = Some (displayID (sc_session d)))) /\
  (display env hwdevice_type display_name framerate = None <->
   (hwdevice_type <> mem_system /\ hwdevice_type <> mem_videotoolbox) \/
   shareable_content env = None \/
   shareable_content env = Some content_error \/
   shareable_content env = Some (content_displays []) \/
   addStreamOutput_error env = true).
Proof.
  split; [|split].
  - intros H. unfold select_display_id. apply select_loop_no_match. exact H.
  - intros d. unfold display.
    destruct (bool_decide (hwdevice_type <> mem_system)
              && bool_decide (hwdevice_type <> mem_videotoolbox)); [discriminate|].
    destruct (initWithDisplay env (select_display_id env display_name) framerate)
      as [sc|] eqn:Hinit; [|discriminate].
    intros [= <-]. simpl. split; [reflexivity|].
    destruct (initWithDisplay_some _ _ _ _ Hinit) as (displays & Hc & _ & Hin & Hsame & Hfirst).
    exists displays. repeat split; assumption.
  - unfold display.
    destruct (bool_decide (hwdevice_type <> mem_system)
              && bool_decide (hwdevice_type <> mem_videotoolbox)) eqn:Hhw.
    + split; [intros _; left|reflexivity].
      apply andb_true_iff in Hhw as [H1 H2].
      apply bool_decide_eq_true in H1. apply bool_decide_eq_true in H2.
      split; assumption.
    + assert (Hok : ~ (hwdevice_type <> mem_system /\ hwdevice_type <> mem_videotoolbox)).
      { intros [H1 H2]. apply andb_false_iff in Hhw as [H|H];
          apply bool_decide_eq_false in H; contradiction. }
      destruct (initWithDisplay env (select_display_id env display_name) framerate)
        as [sc|] eqn:Hinit.
      * split; [discriminate|].
        intros [H|H]; [contradiction|].
        apply (proj2 (initWithDisplay_none env (select_display_id env display_name) framerate))
          in H.
        congruence.
      * split; [intros _; right|reflexivity].
        apply initWithDisplay_none in Hinit. exact Hinit.
Qed.

(** With an empty name the main display, 1, is asked for. *)
Lemma display_binds_a_display_witness :
  string_empty "" = true /\ select_display_id two_displays "" = 1.
Proof.
  split; [reflexivity|].
  apply (proj1 (display_binds_a_display two_displays mem_system "" 60)).
  left. reflexivity.
Defined.

(** Asked for display 2 by name, the session is bound to display 2; asked
    for a display that the content does not list, it is bound to the
    first. *)
Lemma display_selects_by_name :
  (displayID ∘ sc_session) <$> display two_displays mem_system "2" 60 = Some 2 /\
  (displayID ∘ sc_session) <$> display two_displays mem_videotoolbox "7" 60 = Some 1.
Proof. split; reflexivity. Qed.

(** * Further properties of the code *)

(** ** What the blocks leave alone *)

Section KeepsFacts.
Context {C : Type} {consumer_callbacks : Consumer C} {X : Type}.
Variable part : world C -> X.
Implicit Types (w : world C).

Lemma keeps_part_ret {A} (a : A) : keeps part (ret (C := C) a).
Proof. intros w. reflexivity. Qed.

Lemma keeps_part_undefined {A} : keeps part (undefined (C := C) (A := A)).
Proof. intros w. reflexivity. Qed.

Lemma keeps_part_gets {A} (f : world C -> A) : keeps part (gets f).
Proof. intros w. reflexivity. Qed.

Lemma keeps_part_of_option {A} (o : option A) : keeps part (of_option (C := C) o).
Proof. intros w. destruct o; reflexivity. Qed.

Lemma keeps_part_modify (f : world C -> world C) :
  (forall w, part (f w) = part w) -> keeps part (modify f).
Proof. intros H w. simpl. apply H. Qed.

Lemma keeps_part_bind {A B} (m : M C A) (k : A -> M C B) :
  keeps part m -> (forall a, keeps part (k a)) -> keeps part (bind m k).
Proof.
  intros Hm Hk w. unfold bind. specialize (Hm w).
  destruct (m w) as [[a| |] w1]; simpl in *; [|assumption|assumption].
  rewrite (Hk a w1). exact Hm.
Qed.

Lemma keeps_part_heap {T} (g : world C -> option (gmap nat (T * nat)))
  (put : gmap nat (T * nat) -> world C -> world C) :
  (forall h w, part (put h w) = part w) ->
  keeps part (try_modify (fun w => (fun h => put h w) <$> g w)).
Proof.
  intros Hput w. unfold try_modify.
  destruct (g w) as [h|]; simpl; [apply Hput | reflexivity].
Qed.

Lemma keeps_part_run_steps (l : list (M C unit)) :
  Forall (keeps part) l -> keeps part (run_steps l).
Proof.
  induction 1 as [|s l Hs _ IH]; simpl.
  - apply keeps_part_ret.
  - apply keeps_part_bind; [exact Hs | intros _; exact IH].
Qed.

(** The part is neither the images nor a heap nor the guard. *)
Hypothesis part_images : forall m w, part (with_images m w) = part w.
Hypothesis part_samples : forall h w, part (with_samples h w) = part w.
Hypothesis part_pixels : forall h w, part (with_pixels h w) = part w.
Hypothesis part_retainer : forall g w, part (with_retainer g w) = part w.

Local Ltac keeps_part :=
  repeat first
    [ apply keeps_part_ret | apply keeps_part_undefined | apply keeps_part_gets
    | apply keeps_part_of_option
    | apply keeps_part_modify; intros ?;
        first [apply part_images | apply part_retainer]
    | apply keeps_part_heap; intros ? ?;
        first [apply part_samples | apply part_pixels]
    | apply keeps_part_bind; [|intros ?]
    | match goal with
      | |- keeps part (match ?x with _ => _ end) => destruct x
      end ].

Lemma keeps_part_handoff (img ns np : nat) :
  keeps part (run_steps (handoff (C := C) img ns np)).
Proof.
  apply keeps_part_run_steps. unfold handoff.
  repeat (apply Forall_cons; split); [..|apply Forall_nil];
    unfold make_retainer, set_sample_buffer, set_pixel_buffer, set_data, set_width,
      set_height, set_row_pitch, set_pixel_pitch, release_retainer,
      load_img, store_img, load_pixel_buf, acquire_sample, release_sample,
      acquire_pixel, release_pixel;
    keeps_part; exact I.
Qed.

Lemma keeps_part_leave_block (ns np : nat) : keeps part (leave_block (C := C) ns np).
Proof. unfold leave_block, release_pixel, release_sample. keeps_part. Qed.

Lemma keeps_part_prologue (sb : CMSampleBufferRef) :
  keeps part (make_shared_sample (C := C) sb) /\ keeps part (make_shared_pixel (C := C) sb).
Proof. split; intros w; [apply part_samples | apply part_pixels]. Qed.

(** The block of [dummy_img] touches the images, the heaps and its guard,
    and nothing else. *)
Lemma keeps_part_dummy_img_block (img : nat) (sb : CMSampleBufferRef) :
  keeps part (dummy_img_block (C := C) img sb).
Proof.
  unfold dummy_img_block.
  apply keeps_part_bind; [apply keeps_part_prologue | intros ns].
  apply keeps_part_bind; [unfold load_sample_buf; keeps_part | intros sbuf].
  apply keeps_part_bind; [apply keeps_part_prologue | intros np].
  apply keeps_part_bind; [apply keeps_part_handoff | intros _].
  apply keeps_part_bind; [apply keeps_part_leave_block | intros _; apply keeps_part_ret].
Qed.

(** The block of [capture] touches the consumer and the pushed list besides. *)
Lemma keeps_part_capture_block (sb : CMSampleBufferRef) :
  (forall c w, part (with_consumer c w) = part w) ->
  (forall l w, part (with_pushed l w) = part w) ->
  keeps part (capture_block sb).
Proof.
  intros part_consumer part_pushed. unfold capture_block.
  apply keeps_part_bind; [apply keeps_part_prologue | intros ns].
  apply keeps_part_bind; [unfold load_sample_buf; keeps_part | intros sbuf].
  apply keeps_part_bind; [apply keeps_part_prologue | intros np].
  apply keeps_part_bind.
  { intros w. unfold call_pull. destruct (pull_free_image_cb (consumer w)).
    apply part_consumer. }
  intros [[] [img|]].
  - apply keeps_part_bind; [apply keeps_part_handoff | intros _].
    apply keeps_part_bind.
    + unfold call_push. apply keeps_part_bind; [unfold load_img; keeps_part | intros i].
      intros w. destruct (push_captured_image_cb img i true (consumer w)). simpl.
      rewrite part_pushed. apply part_consumer.
    + intros []; simpl;
        (apply keeps_part_bind; [apply keeps_part_leave_block | intros _; apply keeps_part_ret]).
  - apply keeps_part_undefined.
  - apply keeps_part_bind; [apply keeps_part_leave_block | intros _; apply keeps_part_ret].
  - apply keeps_part_bind; [apply keeps_part_leave_block | intros _; apply keeps_part_ret].
Qed.

End KeepsFacts.

(** ** The session over a whole call *)

Section SessionInvariants.
Context {C : Type} {consumer_callbacks : Consumer C}.
Implicit Types (w : world C).

(** Neither block touches the session object. *)
Lemma call_frame_callback_keeps_session (cb : SCFrameCallbackBlock) (sb : CMSampleBufferRef) :
  keeps sc_capture (call_frame_callback cb sb).
Proof.
  destruct cb as [|img]; simpl.
  - apply keeps_part_capture_block; reflexivity.
  - apply keeps_part_dummy_img_block; reflexivity.
Qed.

Lemma call_frame_callback_keeps_requests (cb : SCFrameCallbackBlock) (sb : CMSampleBufferRef) :
  keeps requests (call_frame_callback cb sb).
Proof.
  destruct cb as [|img]; simpl.
  - apply keeps_part_capture_block; reflexivity.
  - apply keeps_part_dummy_img_block; reflexivity.
Qed.

Lemma stopCapture_session w :
  sc_capture (snd (stopCapture w)) = sc_capture w /\
  (requests (snd (stopCapture w)) = requests w \/
   isCapturing (sc_capture w) = true /\
   requests (snd (stopCapture w)) = requests w ++ [stopCaptureWithCompletionHandler]).
Proof.
  rewrite stopCapture_run. simpl.
  destruct (isCapturing (sc_capture w)); simpl; split; auto.
Qed.

(** What one native event does to the session object and to the requests,
    whatever the block does to the rest of the world. *)
Lemma native_step_session (e : native_event) w :
  let w' := snd (native_step e w) in
  let s := sc_capture w in
  match e with
  | StartCompleted true =>
      (sc_capture w' = s \/
       exists n, captureSemaphore s = Some n /\ sc_capture w' = set_captureSemaphore (Some (S n)) s)
      /\ requests w' = requests w
  | StartCompleted false => sc_capture w' = set_isCapturing true s /\ requests w' = requests w
  | StopCompleted _ | DidStopWithError =>
      (sc_capture w' = set_isCapturing false s \/
       exists n, captureSemaphore s = Some n /\
                 sc_capture w' = set_captureSemaphore (Some (S n)) (set_isCapturing false s))
      /\ requests w' = requests w
  | DidOutputSampleBuffer _ _ | StopCaptureCalled =>
      sc_capture w' = s /\
      (requests w' = requests w \/
       isCapturing s = true /\ requests w' = requests w ++ [stopCaptureWithCompletionHandler])
  end.
Proof.
  intros w' s. subst s.
  destruct e as [[|]|error|sb ty| |].
  - subst w'. simpl. unfold dispatch_semaphore_signal, bind, gets.
    destruct (captureSemaphore (sc_capture w)) as [n|] eqn:Hs; simpl; split; eauto.
  - split; reflexivity.
  - subst w'. destruct w as [? ? ? ? ? ? [? ? ? ? ? ? ? ? [n|] ?] ?]; simpl; split; eauto.
  - subst w'. destruct ty; [|split; auto|split; auto].
    cbn [native_step].
    destruct (stream_didOutputSampleBuffer sb SCStreamOutputTypeScreen w) as [r w2] eqn:Hrun.
    cbn [snd].
    unfold stream_didOutputSampleBuffer, bind at 1, gets in Hrun.
    destruct (frameCallback (sc_capture w)) as [cb|];
      [|injection Hrun as _ <-; split; auto].
    pose proof (call_frame_callback_keeps_session cb sb w) as Hsc.
    pose proof (call_frame_callback_keeps_requests cb sb w) as Hrq.
    unfold bind in Hrun.
    destruct (call_frame_callback cb sb w) as [[[]| |] w1]; cbn [fst snd negb] in *;
      try (injection Hrun as _ <-; split; [exact Hsc | left; exact Hrq]).
    destruct (stopCapture_session w1) as [H1 H2].
    rewrite Hrun in H1, H2. cbn [snd] in H1, H2.
    rewrite H1, Hsc. split; [reflexivity|].
    rewrite <- Hsc, <- Hrq. exact H2.
  - subst w'. destruct w as [? ? ? ? ? ? [? ? ? ? ? ? ? ? [n|] ?] ?]; simpl; split; eauto.
  - apply stopCapture_session.
Qed.

(** An invariant of the world that every served event keeps is kept by the
    wait, however it ends. *)
Lemma wait_invariant (P : native_event -> Prop) (I : world C -> Prop) :
  (forall e w, P e -> I w -> I (snd (native_step e w))) ->
  (forall w n, I w -> I (with_sc (set_captureSemaphore (Some n) (sc_capture w)) w)) ->
  forall pending, Forall P pending ->
  forall w, I w -> I (snd (dispatch_semaphore_wait pending w)).
Proof.
  intros Hstep Htake pending Hall.
  induction Hall as [|e rest He _ IH]; intros w Hw; simpl.
  - destruct (captureSemaphore (sc_capture w)) as [[|n]|]; simpl; auto.
  - destruct (captureSemaphore (sc_capture w)) as [[|n]|]; simpl; auto;
      pose proof (Hstep e w He Hw) as H1;
      destruct (native_step e w) as [[[]| |] w1]; simpl in *; auto.
Qed.

(** The methods of the session touch only the session object and the
    requests; a part of the world that the installed block keeps is kept by
    every native event. *)
Lemma native_step_keeps_block_part {X : Type} (part : world C -> X) (e : native_event) w :
  (forall s w, part (with_sc s w) = part w) ->
  (forall l w, part (with_requests l w) = part w) ->
  (forall cb sb, frameCallback (sc_capture w) = Some cb ->
                 part (snd (call_frame_callback cb sb w)) = part w) ->
  part (snd (native_step e w)) = part w.
Proof.
  intros part_sc part_requests Hblock.
  assert (Hupd : forall f, keeps part (update_sc (C := C) f)).
  { intros f w1. apply part_sc. }
  assert (Hsignal : keeps part (dispatch_semaphore_signal (C := C))).
  { unfold dispatch_semaphore_signal.
    apply keeps_part_bind; [apply keeps_part_gets | intros [n|]];
      [apply Hupd | apply keeps_part_undefined]. }
  assert (Hstop : keeps part (stopCapture (C := C))).
  { unfold stopCapture.
    apply keeps_part_bind; [apply keeps_part_gets | intros []]; simpl;
      [intros w1; apply part_requests | apply keeps_part_ret]. }
  assert (Hdone : forall error : bool, keeps part (stop_completion_handler (C := C) error)).
  { intros error. unfold stop_completion_handler.
    apply keeps_part_bind; [apply Hupd | intros _].
    apply keeps_part_bind; [apply keeps_part_gets | intros [n|]];
      [apply Hsignal | apply keeps_part_ret]. }
  destruct e as [error|error|sb ty| |]; cbn [native_step].
  - destruct error; [apply Hsignal | apply Hupd].
  - apply Hdone.
  - destruct ty; try reflexivity.
    unfold stream_didOutputSampleBuffer, bind at 1, gets.
    destruct (frameCallback (sc_capture w)) as [cb|] eqn:Hcb; [|reflexivity].
    specialize (Hblock cb sb eq_refl). unfold bind.
    destruct (call_frame_callback cb sb w) as [[[]| |] w1]; cbn [fst snd negb] in *;
      try exact Hblock.
    rewrite Hstop. exact Hblock.
  - apply (Hdone false).
  - apply Hstop.
Qed.

End SessionInvariants.

(** ** Requests sent over a whole call *)

Section WholeCall.
Context {C : Type} {consumer_callbacks : Consumer C}.
Implicit Types (w : world C).

Lemma native_step_requests (e : native_event) w :
  requests (snd (native_step e w)) = requests w \/
  requests (snd (native_step e w)) = requests w ++ [stopCaptureWithCompletionHandler].
Proof.
  pose proof (native_step_session e w) as H. cbv zeta in H.
  destruct e as [[|]|error|sb ty| |]; destruct H as [_ H]; auto;
    destruct H as [H|[_ H]]; auto.
Qed.

Lemma native_step_frameCallback (e : native_event) w :
  frameCallback (sc_capture (snd (native_step e w))) = frameCallback (sc_capture w).
Proof.
  pose proof (native_step_session e w) as H. cbv zeta in H.
  destruct e as [[|]|error|sb ty| |]; destruct H as [H _];
    try (rewrite H; reflexivity);
    destruct H as [H|(n & _ & H)]; rewrite H; reflexivity.
Qed.

Lemma wait_requests (base : list stream_request) (pending : list native_event) w :
  (exists n, requests w = base ++ repeat stopCaptureWithCompletionHandler n) ->
  exists n, requests (snd (dispatch_semaphore_wait pending w))
            = base ++ repeat stopCaptureWithCompletionHandler n.
Proof.
  apply (wait_invariant (fun _ => True)
           (fun w1 => exists n, requests w1 = base ++ repeat stopCaptureWithCompletionHandler n)).
  - intros e w1 _ [n Hn].
    destruct (native_step_requests e w1) as [H|H]; rewrite H, Hn.
    + exists n. reflexivity.
    + exists (S n). rewrite <- app_assoc. f_equal. symmetry. apply repeat_cons.
  - intros w1 n H. exact H.
  - apply Forall_forall. intros; exact I.
Qed.

End WholeCall.

(** X1.  Over a whole call of [capture], whatever events are served and
    however the call ends, the stream is sent one start request and after
    it nothing but stop requests; the same holds for [dummy_img] when the
    permission is granted. *)
Theorem capture_sends_one_start_then_stops {C : Type} {consumer_callbacks : Consumer C}
  (pending : list native_event) (w : world C) :
  (exists n,
     requests (snd (capture pending w))
     = requests w ++ startCaptureWithCompletionHandler
                     :: repeat stopCaptureWithCompletionHandler n) /\
  (forall img, exists n,
     requests (snd (dummy_img true img pending w))
     = requests w ++ startCaptureWithCompletionHandler
                     :: repeat stopCaptureWithCompletionHandler n).
Proof.
  assert (H : forall cb, exists n,
             requests (snd (dispatch_semaphore_wait pending (armed cb w)))
             = (requests w ++ [startCaptureWithCompletionHandler])
               ++ repeat stopCaptureWithCompletionHandler n).
  { intros cb. apply wait_requests. exists 0%nat. simpl. rewrite app_nil_r. reflexivity. }
  split; [|intros img].
  - rewrite capture_unfold. destruct (H capture_frame_block) as [n Hn]. exists n.
    rewrite <- app_assoc in Hn. simpl in Hn.
    destruct (dispatch_semaphore_wait pending _) as [[rest| |] w1]; exact Hn.
  - rewrite dummy_img_unfold. destruct (H (dummy_img_frame_block img)) as [n Hn]. exists n.
    rewrite <- app_assoc in Hn. simpl in Hn.
    destruct (dispatch_semaphore_wait pending _) as [[rest| |] w1]; exact Hn.
Qed.

Section StreamState.
Context {C : Type} {consumer_callbacks : Consumer C}.
Implicit Types (w : world C).

(** While the stream has not started, no event moves the requests. *)
Lemma native_step_idle (e : native_event) w :
  e <> StartCompleted false ->
  isCapturing (sc_capture w) = false ->
  isCapturing (sc_capture (snd (native_step e w))) = false /\
  requests (snd (native_step e w)) = requests w.
Proof.
  intros He Hidle.
  pose proof (native_step_session e w) as H. cbv zeta in H.
  destruct e as [[|]|error|sb ty| |]; try contradiction; destruct H as [Hs Hr].
  - split; [|exact Hr].
    destruct Hs as [Hs|(n & _ & Hs)]; rewrite Hs; exact Hidle.
  - split; [|exact Hr].
    destruct Hs as [Hs|(n & _ & Hs)]; rewrite Hs; reflexivity.
  - rewrite Hs. split; [exact Hidle|].
    destruct Hr as [Hr|[Hc _]]; [exact Hr | congruence].
  - split; [|exact Hr].
    destruct Hs as [Hs|(n & _ & Hs)]; rewrite Hs; reflexivity.
  - rewrite Hs. split; [exact Hidle|].
    destruct Hr as [Hr|[Hc _]]; [exact Hr | congruence].
Qed.

(** An event that does not signal leaves the semaphore as it is. *)
Lemma native_step_semaphore (e : native_event) w :
  signals e = false ->
  captureSemaphore (sc_capture (snd (native_step e w))) = captureSemaphore (sc_capture w).
Proof.
  intros He.
  pose proof (native_step_session e w) as H. cbv zeta in H.
  destruct e as [[|]|error|sb ty| |]; try discriminate; destruct H as [Hs _];
    rewrite Hs; reflexivity.
Qed.

Lemma wait_without_signal (pending : list native_event) w :
  captureSemaphore (sc_capture w) = Some 0%nat ->
  Forall (fun e => signals e = false) pending ->
  fst (dispatch_semaphore_wait pending w) = Blocked \/
  fst (dispatch_semaphore_wait pending w) = UB.
Proof.
  intros Hs Hall. revert w Hs.
  induction Hall as [|e rest He _ IH]; intros w Hs; simpl; rewrite Hs.
  - left. reflexivity.
  - pose proof (native_step_semaphore e w He) as H1. rewrite Hs in H1.
    destruct (native_step e w) as [[[]| |] w1]; simpl in *; auto.
Qed.

End StreamState.

(** X2.  A stream that has not started is never asked to stop: from a
    session that is not capturing, as long as no start request completes
    without error, [capture] sends the start request and nothing else,
    whatever frames, stop calls and failures are served. *)
Theorem no_stop_before_the_stream_starts {C : Type} {consumer_callbacks : Consumer C}
  (pending : list native_event) (w : world C) :
  isCapturing (sc_capture w) = false ->
  Forall (fun e => e <> StartCompleted false) pending ->
  requests (snd (capture pending w)) = requests w ++ [startCaptureWithCompletionHandler] /\
  isCapturing (sc_capture (snd (capture pending w))) = false.
Proof.
  intros Hidle Hall.
  assert (H : isCapturing (sc_capture (snd (dispatch_semaphore_wait pending
                                              (armed capture_frame_block w)))) = false /\
              requests (snd (dispatch_semaphore_wait pending (armed capture_frame_block w)))
              = requests w ++ [startCaptureWithCompletionHandler]).
  { apply (wait_invariant (fun e => e <> StartCompleted false)
             (fun w1 => isCapturing (sc_capture w1) = false /\
                        requests w1 = requests w ++ [startCaptureWithCompletionHandler]));
      [| |exact Hall|].
    - intros e w1 He [Hc Hr].
      destruct (native_step_idle e w1 He Hc) as [Hc' Hr'].
      split; [exact Hc' | rewrite Hr'; exact Hr].
    - intros w1 n H. exact H.
    - split; [exact Hidle | reflexivity]. }
  rewrite capture_unfold.
  destruct (dispatch_semaphore_wait pending _) as [[rest| |] w1]; simpl in *;
    destruct H; split; assumption.
Qed.

(** A stop call, a frame that the consumer turns down and a failing start:
    only the start request is sent. *)
Lemma no_stop_before_the_stream_starts_witness :
  requests (snd (capture (consumer_callbacks := consumer_without_image)
                   [StopCaptureCalled;
                    DidOutputSampleBuffer frame_1080p SCStreamOutputTypeScreen;
                    StartCompleted true] fresh_world))
  = requests fresh_world ++ [startCaptureWithCompletionHandler] /\
  isCapturing (sc_capture (snd (capture (consumer_callbacks := consumer_without_image)
                   [StopCaptureCalled;
                    DidOutputSampleBuffer frame_1080p SCStreamOutputTypeScreen;
                    StartCompleted true] fresh_world))) = false.
Proof.
  apply (no_stop_before_the_stream_starts (consumer_callbacks := consumer_without_image)
           [StopCaptureCalled; DidOutputSampleBuffer frame_1080p SCStreamOutputTypeScreen;
            StartCompleted true] fresh_world).
  - reflexivity.
  - repeat constructor; discriminate.
Defined.

(** X3.  Frames, stop calls and a successful start never release
    [capture]: unless a start fails, a stop completes or the stream reports
    an error, the call does not return, even when every frame is turned
    down. *)
Theorem capture_waits_for_a_signal {C : Type} {consumer_callbacks : Consumer C}
  (pending : list native_event) (w : world C) :
  Forall (fun e => signals e = false) pending ->
  fst (capture pending w) = Blocked \/ fst (capture pending w) = UB.
Proof.
  intros Hall. rewrite capture_unfold.
  destruct (wait_without_signal pending (armed capture_frame_block w) eq_refl Hall) as [H|H];
    destruct (dispatch_semaphore_wait pending _) as [[rest| |] w1]; simpl in *;
    try discriminate; auto.
Qed.

(** The stream starts and two frames are turned down; no stop completes. *)
Lemma capture_waits_for_a_signal_witness :
  fst (capture (consumer_callbacks := consumer_without_image)
         [StartCompleted false;
          DidOutputSampleBuffer frame_1080p SCStreamOutputTypeScreen;
          DidOutputSampleBuffer frame_1080p SCStreamOutputTypeScreen] fresh_world) = Blocked \/
  fst (capture (consumer_callbacks := consumer_without_image)
         [StartCompleted false;
          DidOutputSampleBuffer frame_1080p SCStreamOutputTypeScreen;
          DidOutputSampleBuffer frame_1080p SCStreamOutputTypeScreen] fresh_world) = UB.
Proof.
  apply (capture_waits_for_a_signal (consumer_callbacks := consumer_without_image)).
  repeat constructor.
Defined.

(** X4.  Neither [capture] nor [dummy_img] takes its block out of the
    session again: whatever events are served and however the call ends, the
    session's [frameCallback] is still the block that the call installed,
    the one that refers to the callbacks of [capture], or to the image
    pointer of [dummy_img].  No handler and no [-stopCapture] clears it. *)
Theorem frame_callback_outlives_capture {C : Type} {consumer_callbacks : Consumer C}
  (pending : list native_event) (w : world C) :
  frameCallback (sc_capture (snd (capture pending w))) = Some capture_frame_block /\
  forall img,
    frameCallback (sc_capture (snd (dummy_img true img pending w)))
    = Some (dummy_img_frame_block img).
Proof.
  assert (Hwait : forall cb,
            frameCallback (sc_capture (snd (dispatch_semaphore_wait pending (armed cb w))))
            = Some cb).
  { intros cb.
    apply (wait_invariant (fun _ => True)
             (fun w1 => frameCallback (sc_capture w1) = Some cb)).
    - intros e w1 _ H1. rewrite native_step_frameCallback. exact H1.
    - intros w1 n H1. exact H1.
    - apply Forall_forall. intros; exact I.
    - reflexivity. }
  split; [|intros img].
  - rewrite capture_unfold. specialize (Hwait capture_frame_block).
    destruct (dispatch_semaphore_wait pending _) as [[rest| |] w1]; exact Hwait.
  - rewrite dummy_img_unfold. specialize (Hwait (dummy_img_frame_block img)).
    destruct (dispatch_semaphore_wait pending _) as [[rest| |] w1]; exact Hwait.
Qed.

(** X5.  The probe never reaches the consumer: whatever events are served
    while [dummy_img] waits and however it ends, the consumer's state is as
    it was and no image has been pushed. *)
Theorem probe_never_reaches_the_consumer {C : Type} {consumer_callbacks : Consumer C}
  (allowed : bool) (img : nat) (pending : list native_event) (w : world C) :
  consumer (snd (dummy_img allowed img pending w)) = consumer w /\
  pushed (snd (dummy_img allowed img pending w)) = pushed w.
Proof.
  destruct allowed; [|split; reflexivity].
  rewrite dummy_img_unfold.
  assert (H : frameCallback (sc_capture (snd (dispatch_semaphore_wait pending
                                                (armed (dummy_img_frame_block img) w))))
                = Some (dummy_img_frame_block img) /\
              (fun w1 => (consumer w1, pushed w1))
                (snd (dispatch_semaphore_wait pending (armed (dummy_img_frame_block img) w)))
              = (consumer w, pushed w)).
  { apply (wait_invariant (fun _ => True)
             (fun w1 => frameCallback (sc_capture w1) = Some (dummy_img_frame_block img) /\
                        (fun w2 => (consumer w2, pushed w2)) w1 = (consumer w, pushed w))).
    - intros e w1 _ [Hcb Hpart]. split.
      + rewrite native_step_frameCallback. exact Hcb.
      + rewrite <- Hpart.
        apply (native_step_keeps_block_part (fun w2 => (consumer w2, pushed w2)) e w1);
          try reflexivity.
        intros cb sb Hcb'. rewrite Hcb in Hcb'. injection Hcb' as <-.
        apply (keeps_part_dummy_img_block (fun w2 => (consumer w2, pushed w2)));
          reflexivity.
    - intros w1 n H1. exact H1.
    - apply Forall_forall. intros; exact I.
    - split; reflexivity. }
  destruct H as [_ H].
  destruct (dispatch_semaphore_wait pending _) as [[rest| |] w1]; simpl in *;
    injection H as H1 H2; split; assumption.
Qed.

(** ** Images pushed over a whole call *)

Section PushFacts.
Context {C : Type} {consumer_callbacks : Consumer C}.
Implicit Types (w : world C).

Lemma pushes_none {A} (m : M C A) : keeps pushed m -> pushes_at_most 0 m.
Proof. intros H w. exists []. rewrite app_nil_r. split; [apply H | reflexivity]. Qed.

Lemma pushes_bind {A B} (n k : nat) (m : M C A) (f : A -> M C B) :
  pushes_at_most n m -> (forall a, pushes_at_most k (f a)) ->
  pushes_at_most (n + k) (bind m f).
Proof.
  intros Hm Hf w. unfold bind. destruct (Hm w) as (l1 & H1 & Hl1).
  destruct (m w) as [[a| |] w1]; simpl in *.
  - destruct (Hf a w1) as (l2 & H2 & Hl2). exists (l1 ++ l2).
    rewrite H2, H1, app_assoc, length_app. split; [reflexivity | lia].
  - exists l1. split; [exact H1 | lia].
  - exists l1. split; [exact H1 | lia].
Qed.

Lemma pushes_weaken {A} (n k : nat) (m : M C A) :
  (n <= k)%nat -> pushes_at_most n m -> pushes_at_most k m.
Proof. intros Hnk H w. destruct (H w) as (l & Hl & Hn). exists l. split; [exact Hl | lia]. Qed.

Lemma call_push_pushes (img : nat) (cursor : bool) : pushes_at_most 1 (call_push img cursor).
Proof.
  intros w. unfold call_push, load_img, bind, gets, of_option.
  destruct (images w !! img) as [i|]; simpl.
  - destruct (push_captured_image_cb img i cursor (consumer w)) as [b c].
    exists [(img, i)]. split; reflexivity.
  - exists []. rewrite app_nil_r. split; [reflexivity | simpl; lia].
Qed.

(** The block of [capture] pushes once at most. *)
Lemma capture_block_pushes (sb : CMSampleBufferRef) : pushes_at_most 1 (capture_block sb).
Proof.
  unfold capture_block.
  apply (pushes_bind 0 1); [apply pushes_none; apply keeps_part_prologue; reflexivity|].
  intros ns.
  apply (pushes_bind 0 1).
  { apply pushes_none. unfold load_sample_buf.
    apply keeps_part_bind; [apply keeps_part_gets | intros ?; apply keeps_part_of_option]. }
  intros sbuf.
  apply (pushes_bind 0 1); [apply pushes_none; apply keeps_part_prologue; reflexivity|].
  intros np.
  apply (pushes_bind 0 1).
  { apply pushes_none. intros w. unfold call_pull.
    destruct (pull_free_image_cb (consumer w)). reflexivity. }
  assert (Hleave : forall b : bool,
            pushes_at_most 0 (bind (leave_block (C := C) ns np) (fun _ => ret b))).
  { intros b. apply pushes_none.
    apply keeps_part_bind; [apply keeps_part_leave_block; reflexivity
                           | intros _; apply keeps_part_ret]. }
  intros [[] [img|]].
  - apply (pushes_bind 0 1); [apply pushes_none; apply keeps_part_handoff; reflexivity|].
    intros _. apply (pushes_bind 1 0); [apply call_push_pushes|].
    intros []; simpl; apply Hleave.
  - apply (pushes_weaken 0); [lia|]. apply pushes_none. apply keeps_part_undefined.
  - apply (pushes_weaken 0); [lia|]. apply Hleave.
  - apply (pushes_weaken 0); [lia|]. apply Hleave.
Qed.

Lemma native_step_pushes (e : native_event) :
  pushes_at_most (if is_screen_frame e then 1 else 0) (native_step e).
Proof.
  assert (Hstop : keeps pushed (stopCapture (C := C))).
  { intros w. apply (stopCapture_untouched w). }
  destruct e as [error|error|sb ty| |]; cbn [native_step is_screen_frame].
  - apply pushes_none. intros w. apply (start_completion_untouched error w).
  - apply pushes_none. intros w. apply (stop_completion_untouched error w).
  - destruct ty; [|apply pushes_none; apply keeps_part_ret..].
    unfold stream_didOutputSampleBuffer.
    apply (pushes_bind 0 1); [apply pushes_none; apply keeps_part_gets|].
    intros [cb|]; [|apply (pushes_weaken 0); [lia|]; apply pushes_none; apply keeps_part_ret].
    apply (pushes_bind 1 0).
    + destruct cb as [|img]; [apply capture_block_pushes|].
      apply (pushes_weaken 0); [lia|]. apply pushes_none.
      apply keeps_part_dummy_img_block; reflexivity.
    + intros []; simpl; apply pushes_none; [apply keeps_part_ret | exact Hstop].
  - apply pushes_none. intros w. apply (didStopWithError_untouched w).
  - apply pushes_none. exact Hstop.
Qed.

Lemma wait_pushes (pending : list native_event) :
  pushes_at_most (length (List.filter is_screen_frame pending)) (dispatch_semaphore_wait pending).
Proof.
  induction pending as [|e rest IH]; intros w; simpl.
  - exists []. rewrite app_nil_r.
    destruct (captureSemaphore (sc_capture w)) as [[|n]|]; split; reflexivity.
  - assert (Hserve : exists l,
              pushed (snd (match native_step e w with
                           | (Ret _, w') => dispatch_semaphore_wait rest w'
                           | (UB, w') => (UB, w')
                           | (Blocked, w') => (Blocked, w')
                           end)) = pushed w ++ l /\
              (length l <= length (List.filter is_screen_frame (e :: rest)))%nat).
    { destruct (native_step_pushes e w) as (l1 & H1 & Hl1).
      assert (Hlen : (length (List.filter is_screen_frame (e :: rest))
                      = (if is_screen_frame e then 1 else 0)
                        + length (List.filter is_screen_frame rest))%nat).
      { simpl. destruct (is_screen_frame e); reflexivity. }
      destruct (native_step e w) as [[[]| |] w1]; simpl in H1.
      - destruct (IH w1) as (l2 & H2 & Hl2). exists (l1 ++ l2).
        rewrite H2, H1, app_assoc, length_app. split; [reflexivity | lia].
      - exists l1. split; [exact H1 | lia].
      - exists l1. split; [exact H1 | lia]. }
    destruct (captureSemaphore (sc_capture w)) as [[|n]|]; try exact Hserve.
    exists []. rewrite app_nil_r. split; [reflexivity | simpl; lia].
Qed.

End PushFacts.

(** X6.  The consumer is given at most one image for each screen frame
    that is delivered while [capture] waits, and none for a frame of another
    type or for any other event: what was pushed before stays, in order,
    and the images added are no more than the screen frames served. *)
Theorem at_most_one_push_per_screen_frame {C : Type} {consumer_callbacks : Consumer C}
  (pending : list native_event) (w : world C) :
  exists l,
    pushed (snd (capture pending w)) = pushed w ++ l /\
    (length l <= length (List.filter is_screen_frame pending))%nat.
Proof.
  rewrite capture_unfold.
  destruct (wait_pushes pending (armed capture_frame_block w)) as (l & H & Hl).
  exists l. split; [|exact Hl].
  destruct (dispatch_semaphore_wait pending _) as [[rest| |] w1]; exact H.
Qed.

(** ** A frame without a width *)

Section StuckFacts.
Context {C : Type} {consumer_callbacks : Consumer C}.
Implicit Types (w : world C).

Lemma run_steps_app (l1 l2 : list (M C unit)) w :
  run_steps (l1 ++ l2) w =
  match run_steps l1 w with
  | (Ret _, w') => run_steps l2 w'
  | (UB, w') => (UB, w')
  | (Blocked, w') => (Blocked, w')
  end.
Proof.
  revert w. induction l1 as [|s l1 IH]; intros w; simpl.
  - reflexivity.
  - unfold bind. destruct (s w) as [[[]| |] w1]; [apply IH | reflexivity | reflexivity].
Qed.

(** Where the division is not defined, the first seven steps return and the
    eighth is undefined: the run ends in the world in which the division is
    evaluated, inside the window. *)
Lemma handoff_reaches_the_division img i ns np so po (cns cnp : nat) (w0 : world C) :
  image_owned img i w0 ->
  samples w0 !! ns = Some (so, cns) ->
  pixels w0 !! np = Some (po, cnp) ->
  sample_buffer i <> Some ns ->
  pixel_buffer i <> Some np ->
  int_div (to_int (CVPixelBufferGetBytesPerRow (pixel_buf po)))
          (to_int (CVPixelBufferGetWidth (pixel_buf po))) = None ->
  exists w7,
    run_steps (firstn 7 (handoff img ns np)) w0 = (Ret tt, w7) /\
    run_steps (handoff img ns np) w0 = (UB, w7) /\
    window img (guard_of i) (partly_installed 7 i ns np (pixel_buf po)) ns np so po
      1 1 (S cns) (S cnp) w0 w7.
Proof.
  intros (Hi & Hs & Hp) Hns Hnp Hfs Hfp Hq.
  pose proof (prefix_7 img i ns np so po cns cnp w0 Hi Hs Hp Hns Hnp Hfs Hfp w0 eq_refl) as H7.
  change (run_steps (handoff (C := C) img ns np) w0) with
    (run_steps (firstn 7 (handoff (C := C) img ns np)
                ++ [set_pixel_pitch img; release_retainer]) w0).
  rewrite run_steps_app.
  destruct (run_steps (firstn 7 (handoff img ns np)) w0) as [[[]| |] w7]; try contradiction.
  exists w7. split; [reflexivity|]. split; [|exact H7].
  assert (Hl : images w7 !! img = Some (partly_installed 7 i ns np (pixel_buf po))).
  { destruct H7 as (Himg7 & _). rewrite Himg7. apply lookup_insert_eq. }
  assert (Hs8 : set_pixel_pitch img w7 = (UB, w7)).
  { unfold set_pixel_pitch, load_img, bind, gets. rewrite Hl. cbn. rewrite Hq. reflexivity. }
  simpl. unfold bind at 1. rewrite Hs8. reflexivity.
Qed.

Lemma bind_undefined {A B} (m : M C A) (k : A -> M C B) w w' :
  m w = (UB, w') -> bind m k w = (UB, w').
Proof. intros H. unfold bind. rewrite H. reflexivity. Qed.

End StuckFacts.

Lemma bound_world_image_owned : image_owned 0 bound_image bound_world.
Proof.
  split; [reflexivity|].
  split; simpl; eexists _, 1%nat; (split; [reflexivity | lia]).
Qed.

(** X7.  A frame whose pixel buffer reports the width 0, as a sample that
    carries no image buffer does, takes both blocks into undefined
    behaviour: on an image that owns its wrappers, the block of [capture],
    once the pull has succeeded, and the block of [dummy_img] evaluate
    [row_pitch / width] with the width 0.  In the world in which the
    division is evaluated the image already points to the new wrappers and
    to their data and has the width 0, its pitch is the one it had, the
    guard is still held and [push_captured_image_cb] has not been called.
    What the program does from there on is not defined, and nothing is said
    about it. *)
Theorem frame_without_width_divides_by_zero {C : Type} {consumer_callbacks : Consumer C}
  (sb : CMSampleBufferRef) (w : world C) (img : nat) (i : av_img_t) :
  to_int (CVPixelBufferGetWidth (CMSampleBufferGetImageBuffer sb)) = 0 ->
  image_owned img i w ->
  let at_division (w' : world C) :=
    (exists i',
       images w' !! img = Some i' /\
       sample_buffer i' = Some (new_sample_id w) /\
       pixel_buffer i' = Some (new_pixel_id w) /\
       data i' = CVPixelBufferGetBaseAddress (CMSampleBufferGetImageBuffer sb) /\
       width i' = 0 /\
       pixel_pitch i' = pixel_pitch i /\
       int_div (row_pitch i') (width i') = None) /\
    guard_holds (guard_of i) w' /\
    pushed w' = pushed w in
  (forall c1,
     pull_free_image_cb (consumer w) = ((true, Some img), c1) ->
     exists w', capture_block sb w = (UB, w') /\ at_division w') /\
  (exists w', dummy_img_block img sb w = (UB, w') /\ at_division w').
Proof.
  intros Hwidth Hown. cbv zeta.
  assert (Hq : derived_pitch sb = None).
  { unfold derived_pitch. rewrite Hwidth. reflexivity. }
  assert (Hrun : forall c1,
            exists w7,
              run_steps (handoff img (new_sample_id w) (new_pixel_id w))
                (handoff_start sb c1 w) = (UB, w7) /\
              (exists i',
                 images w7 !! img = Some i' /\
                 sample_buffer i' = Some (new_sample_id w) /\
                 pixel_buffer i' = Some (new_pixel_id w) /\
                 data i' = CVPixelBufferGetBaseAddress (CMSampleBufferGetImageBuffer sb) /\
                 width i' = 0 /\
                 pixel_pitch i' = pixel_pitch i /\
                 int_div (row_pitch i') (width i') = None) /\
              guard_holds (guard_of i) w7 /\
              pushed w7 = pushed w).
  { intros c1.
    destruct (prologue_ready sb img i w c1 Hown) as (Hown3 & Hns & Hnp & Hfs & Hfp).
    destruct (handoff_reaches_the_division img i _ _ _ _ _ _ _ Hown3 Hns Hnp Hfs Hfp Hq)
      as (w7 & _ & Hstop & Hwin).
    exists w7. split; [exact Hstop|].
    split; [|split].
    - eexists. split; [destruct Hwin as (Himg7 & _); rewrite Himg7; apply lookup_insert_eq|].
      cbn. repeat split; assumption.
    - eapply window_guard_holds. exact Hwin.
    - destruct Hwin as (_ & _ & _ & _ & _ & _ & (_ & Hpu & _) & _). exact Hpu. }
  split.
  - intros c1 Hpull. destruct (Hrun c1) as (w7 & Hstop & Hat).
    exists w7. split; [|exact Hat].
    rewrite (capture_block_unfold sb img w c1 Hpull).
    apply bind_undefined. exact Hstop.
  - destruct (Hrun (consumer w)) as (w7 & Hstop & Hat).
    exists w7. split; [|exact Hat].
    rewrite dummy_img_block_unfold.
    apply bind_undefined. exact Hstop.
Qed.

(** A sample without an image buffer, handed to the probe for an image
    bound to a 1920x1080 frame. *)
Lemma frame_without_width_divides_by_zero_witness :
  exists w',
    dummy_img_block (C := unit) 0 frame_without_image bound_world = (UB, w') /\
    (exists i',
       images w' !! 0%nat = Some i' /\
       sample_buffer i' = Some (new_sample_id bound_world) /\
       pixel_buffer i' = Some (new_pixel_id bound_world) /\
       data i' = 0 /\ width i' = 0 /\ pixel_pitch i' = 4 /\
       int_div (row_pitch i') (width i') = None) /\
    guard_holds (guard_of bound_image) w' /\
    pushed w' = pushed bound_world.
Proof.
  exact (proj2 (frame_without_width_divides_by_zero (consumer_callbacks := willing_consumer)
                  frame_without_image bound_world 0 bound_image eq_refl
                  bound_world_image_owned)).
Defined.

(** ** Exact ownership of the wrappers *)

Section ExactHeap.
Context {T : Type}.
Implicit Types (h : gmap nat (T * nat)) (p : shared_ptr).

(** The owners of one heap over a hand-off: the guard copies the old
    pointer, the image takes the new one and drops the old one, the guard
    goes, and the block's local pointer goes. *)
Lemma sp_trajectory (old : shared_ptr) (ns : nat) (obj : T) h :
  sole_owner old h -> h !! ns = None ->
  exists h2 h3 h4 h5,
    sp_acquire old (<[ns := (obj, 1%nat)]> h) = Some h2 /\
    sp_acquire (Some ns) h2 = Some h3 /\
    sp_release old h3 = Some h4 /\
    sp_release old h4 = Some h5 /\
    sp_release (Some ns) h5 = Some (<[ns := (obj, 1%nat)]> (without old h)) /\
    h4 !! ns = Some (obj, 2%nat).
Proof.
  intros Hold Hns. destruct old as [o|].
  - destruct Hold as [x Hx].
    assert (Hne : o <> ns) by (intros ->; congruence).
    exists (<[o := (x, 2%nat)]> (<[ns := (obj, 1%nat)]> h)),
           (<[ns := (obj, 2%nat)]> (<[o := (x, 2%nat)]> (<[ns := (obj, 1%nat)]> h))),
           (<[o := (x, 1%nat)]>
              (<[ns := (obj, 2%nat)]> (<[o := (x, 2%nat)]> (<[ns := (obj, 1%nat)]> h)))),
           (delete o
              (<[o := (x, 1%nat)]>
                 (<[ns := (obj, 2%nat)]> (<[o := (x, 2%nat)]> (<[ns := (obj, 1%nat)]> h))))).
    split.
    { simpl. rewrite lookup_insert_ne by congruence. rewrite Hx. reflexivity. }
    split.
    { simpl. rewrite lookup_insert_ne by congruence. rewrite lookup_insert_eq. reflexivity. }
    split.
    { simpl. rewrite lookup_insert_ne by congruence. rewrite lookup_insert_eq. reflexivity. }
    split.
    { simpl. rewrite lookup_insert_eq. reflexivity. }
    split.
    + simpl. rewrite lookup_delete_ne by congruence.
      rewrite lookup_insert_ne by congruence. rewrite lookup_insert_eq.
      f_equal. apply map_eq. intros k.
      destruct (decide (k = ns)) as [->|Hk].
      * rewrite !lookup_insert_eq. reflexivity.
      * rewrite !lookup_insert_ne by congruence.
        destruct (decide (k = o)) as [->|Hko].
        -- rewrite !lookup_delete_eq. reflexivity.
        -- rewrite !lookup_delete_ne by congruence.
           rewrite !lookup_insert_ne by congruence. reflexivity.
    + rewrite lookup_insert_ne by congruence. apply lookup_insert_eq.
  - exists (<[ns := (obj, 1%nat)]> h),
           (<[ns := (obj, 2%nat)]> (<[ns := (obj, 1%nat)]> h)),
           (<[ns := (obj, 2%nat)]> (<[ns := (obj, 1%nat)]> h)),
           (<[ns := (obj, 2%nat)]> (<[ns := (obj, 1%nat)]> h)).
    split; [reflexivity|].
    split; [simpl; rewrite lookup_insert_eq; reflexivity|].
    split; [reflexivity|]. split; [reflexivity|].
    split; [|apply lookup_insert_eq].
    simpl. rewrite lookup_insert_eq. f_equal. rewrite !insert_insert_eq. reflexivity.
Qed.

End ExactHeap.

Section ExactRun.
Context {C : Type} {consumer_callbacks : Consumer C}.
Implicit Types (w : world C).

Lemma acquire_sample_run p h w :
  sp_acquire p (samples w) = Some h -> acquire_sample p w = (Ret tt, with_samples h w).
Proof. intros H. unfold acquire_sample, try_modify. rewrite H. reflexivity. Qed.

Lemma acquire_pixel_run p h w :
  sp_acquire p (pixels w) = Some h -> acquire_pixel p w = (Ret tt, with_pixels h w).
Proof. intros H. unfold acquire_pixel, try_modify. rewrite H. reflexivity. Qed.

Lemma load_pixel_buf_run (id : nat) obj (c : nat) w :
  pixels w !! id = Some (obj, c) -> load_pixel_buf id w = (Ret obj, w).
Proof. intros H. unfold load_pixel_buf, bind, gets, of_option. rewrite H. reflexivity. Qed.

Lemma field_write_run (f : av_pixel_buf_t -> av_img_t -> av_img_t)
  (img np : nat) i po (c : nat) w :
  pixels w !! np = Some (po, c) ->
  images w !! img = Some i ->
  bind (load_pixel_buf np) (fun p => bind (load_img img) (fun i => store_img img (f p i))) w
  = (Ret tt, with_images (<[img := f po i]> (images w)) w).
Proof.
  intros Hp Hi.
  erewrite bind_run by (eapply load_pixel_buf_run; exact Hp).
  erewrite bind_run by (apply load_img_run; exact Hi).
  reflexivity.
Qed.

(** The hand-off, run exactly: where each copy and each drop of a pointer
    succeeds, the two heaps end as the last drops leave them. *)
Lemma handoff_exact_run (img : nat) (i : av_img_t) (ns np : nat) (po : av_pixel_buf_t)
  (c : nat) (q : Z) w0
  (hs2 hs3 hs4 hs5 : gmap nat (av_sample_buf_t * nat))
  (hp2 hp3 hp4 hp5 : gmap nat (av_pixel_buf_t * nat)) :
  images w0 !! img = Some i ->
  sp_acquire (sample_buffer i) (samples w0) = Some hs2 ->
  sp_acquire (Some ns) hs2 = Some hs3 ->
  sp_release (sample_buffer i) hs3 = Some hs4 ->
  sp_release (sample_buffer i) hs4 = Some hs5 ->
  sp_acquire (pixel_buffer i) (pixels w0) = Some hp2 ->
  sp_acquire (Some np) hp2 = Some hp3 ->
  sp_release (pixel_buffer i) hp3 = Some hp4 ->
  sp_release (pixel_buffer i) hp4 = Some hp5 ->
  hp4 !! np = Some (po, c) ->
  int_div (to_int (CVPixelBufferGetBytesPerRow (pixel_buf po)))
          (to_int (CVPixelBufferGetWidth (pixel_buf po))) = Some q ->
  exists w9,
    run_steps (handoff img ns np) w0 = (Ret tt, w9) /\
    samples w9 = hs5 /\ pixels w9 = hp5 /\
    images w9 = <[img := installed ns np (pixel_buf po) q]> (images w0) /\
    old_data_retainer w9 = None /\
    same_surroundings w0 w9.
Proof.
  intros Hi Hs2 Hs3 Hs4 Hs5 Hp2 Hp3 Hp4 Hp5 Hnp Hq.
  unfold handoff. cbn [run_steps].
  (* 1 *)
  erewrite bind_run.
  2:{ unfold make_retainer.
      erewrite bind_run by (apply load_img_run; exact Hi).
      erewrite bind_run by (apply acquire_sample_run; exact Hs2).
      erewrite bind_run by (apply acquire_pixel_run; exact Hp2).
      reflexivity. }
  (* 2 *)
  erewrite bind_run.
  2:{ unfold set_sample_buffer.
      erewrite bind_run by (apply load_img_run; exact Hi).
      erewrite bind_run by (apply acquire_sample_run; exact Hs3).
      erewrite bind_run by reflexivity.
      apply release_sample_run. exact Hs4. }
  (* 3 *)
  erewrite bind_run.
  2:{ unfold set_pixel_buffer.
      erewrite bind_run by (apply load_img_run; apply lookup_insert_eq).
      erewrite bind_run by (apply acquire_pixel_run; exact Hp3).
      erewrite bind_run by reflexivity.
      apply release_pixel_run. exact Hp4. }
  (* 4 to 7 *)
  erewrite bind_run
    by (unfold set_data; eapply field_write_run; [exact Hnp | apply lookup_insert_eq]).
  erewrite bind_run
    by (unfold set_width; eapply field_write_run; [exact Hnp | apply lookup_insert_eq]).
  erewrite bind_run
    by (unfold set_height; eapply field_write_run; [exact Hnp | apply lookup_insert_eq]).
  erewrite bind_run
    by (unfold set_row_pitch; eapply field_write_run; [exact Hnp | apply lookup_insert_eq]).
  (* 8 *)
  erewrite bind_run.
  2:{ unfold set_pixel_pitch.
      erewrite bind_run by (apply load_img_run; apply lookup_insert_eq).
      cbn [row_pitch width set_row_pitch_field set_height_field set_width_field
           set_data_field set_pixel_buffer_field set_sample_buffer_field].
      rewrite Hq. reflexivity. }
  (* 9 *)
  erewrite bind_run.
  2:{ unfold release_retainer, bind at 1, gets. cbn [old_data_retainer with_retainer
        with_images with_samples with_pixels].
      erewrite bind_run by reflexivity.
      erewrite bind_run by (apply release_pixel_run; exact Hp5).
      apply release_sample_run. exact Hs5. }
  eexists. split; [reflexivity|].
  cbn. split; [reflexivity|]. split; [reflexivity|].
  split; [|split; [reflexivity | repeat split]].
  rewrite !insert_insert_eq. reflexivity.
Qed.

End ExactRun.

Section ExactBlocks.
Context {C : Type} {consumer_callbacks : Consumer C}.
Implicit Types (w : world C).

(** The heaps that a completed block leaves: the frame's new wrappers with
    the image as their only owner, and the image's earlier wrappers gone. *)
Local Abbreviation samples_after sb i w :=
  (<[new_sample_id w := ({| sample_buf := sb |}, 1%nat)]> (without (sample_buffer i) (samples w))).
Local Abbreviation pixels_after sb i w :=
  (<[new_pixel_id w := ({| pixel_buf := CMSampleBufferGetImageBuffer sb |}, 1%nat)]>
     (without (pixel_buffer i) (pixels w))).

Lemma new_ids_fresh w : samples w !! new_sample_id w = None /\ pixels w !! new_pixel_id w = None.
Proof. split; apply not_elem_of_dom; apply is_fresh. Qed.

(** The hand-off of a block and what its epilogue will find. *)
Lemma block_handoff_exact (sb : CMSampleBufferRef) (img : nat) (i : av_img_t) w (c1 : C) q :
  images w !! img = Some i ->
  sole_owner (sample_buffer i) (samples w) ->
  sole_owner (pixel_buffer i) (pixels w) ->
  derived_pitch sb = Some q ->
  exists w9,
    run_steps (handoff img (new_sample_id w) (new_pixel_id w)) (handoff_start sb c1 w)
      = (Ret tt, w9) /\
    images w9 = <[img := installed (new_sample_id w) (new_pixel_id w)
                           (CMSampleBufferGetImageBuffer sb) q]> (images w) /\
    old_data_retainer w9 = None /\
    same_surroundings (handoff_start sb c1 w) w9 /\
    sp_release (Some (new_pixel_id w)) (pixels w9) = Some (pixels_after sb i w) /\
    sp_release (Some (new_sample_id w)) (samples w9) = Some (samples_after sb i w).
Proof.
  intros Hi Hs Hp Hq.
  destruct (new_ids_fresh w) as [Hfs Hfp].
  destruct (sp_trajectory (sample_buffer i) (new_sample_id w) {| sample_buf := sb |}
              (samples w) Hs Hfs)
    as (hs2 & hs3 & hs4 & hs5 & Es2 & Es3 & Es4 & Es5 & Es6 & _).
  destruct (sp_trajectory (pixel_buffer i) (new_pixel_id w)
              {| pixel_buf := CMSampleBufferGetImageBuffer sb |} (pixels w) Hp Hfp)
    as (hp2 & hp3 & hp4 & hp5 & Ep2 & Ep3 & Ep4 & Ep5 & Ep6 & Hnp).
  destruct (handoff_exact_run img i (new_sample_id w) (new_pixel_id w)
              {| pixel_buf := CMSampleBufferGetImageBuffer sb |} 2 q (handoff_start sb c1 w)
              hs2 hs3 hs4 hs5 hp2 hp3 hp4 hp5 Hi Es2 Es3 Es4 Es5 Ep2 Ep3 Ep4 Ep5 Hnp Hq)
    as (w9 & Hrun & Hs9 & Hp9 & Himg & Hret & Hsur).
  exists w9. split; [exact Hrun|]. split; [exact Himg|]. split; [exact Hret|].
  split; [exact Hsur|]. rewrite Hs9, Hp9. split; assumption.
Qed.

(** A frame that the block of [dummy_img] hands off, exactly. *)
Lemma dummy_img_block_exact (sb : CMSampleBufferRef) (img : nat) (i : av_img_t) w q :
  images w !! img = Some i ->
  sole_owner (sample_buffer i) (samples w) ->
  sole_owner (pixel_buffer i) (pixels w) ->
  derived_pitch sb = Some q ->
  exists w',
    dummy_img_block img sb w = (Ret false, w') /\
    images w' = <[img := installed (new_sample_id w) (new_pixel_id w)
                           (CMSampleBufferGetImageBuffer sb) q]> (images w) /\
    samples w' = samples_after sb i w /\
    pixels w' = pixels_after sb i w /\
    old_data_retainer w' = None /\
    consumer w' = consumer w /\ pushed w' = pushed w /\
    sc_capture w' = sc_capture w /\ requests w' = requests w.
Proof.
  intros Hi Hs Hp Hq.
  destruct (block_handoff_exact sb img i w (consumer w) q Hi Hs Hp Hq)
    as (w9 & Hrun & Himg & Hret & (Hc & Hpu & Hsc & Hrq) & Hlp & Hls).
  rewrite dummy_img_block_unfold.
  erewrite bind_run by exact Hrun.
  erewrite bind_run by (apply leave_block_run; [exact Hlp | exact Hls]).
  eexists. split; [reflexivity|]. cbn.
  repeat split; assumption.
Qed.

(** A frame that the block of [capture] hands off and pushes, exactly. *)
Lemma capture_block_exact (sb : CMSampleBufferRef) (img : nat) (i : av_img_t) w c1 q b c2 :
  pull_free_image_cb (consumer w) = ((true, Some img), c1) ->
  images w !! img = Some i ->
  sole_owner (sample_buffer i) (samples w) ->
  sole_owner (pixel_buffer i) (pixels w) ->
  derived_pitch sb = Some q ->
  let i' := installed (new_sample_id w) (new_pixel_id w) (CMSampleBufferGetImageBuffer sb) q in
  push_captured_image_cb img i' true c1 = (b, c2) ->
  exists w',
    capture_block sb w = (Ret b, w') /\
    images w' = <[img := i']> (images w) /\
    samples w' = samples_after sb i w /\
    pixels w' = pixels_after sb i w /\
    old_data_retainer w' = None /\
    consumer w' = c2 /\ pushed w' = pushed w ++ [(img, i')] /\
    sc_capture w' = sc_capture w /\ requests w' = requests w.
Proof.
  intros Hpull Hi Hs Hp Hq i' Hpush.
  destruct (block_handoff_exact sb img i w c1 q Hi Hs Hp Hq)
    as (w9 & Hrun & Himg & Hret & (Hc & Hpu & Hsc & Hrq) & Hlp & Hls).
  assert (Hl : images w9 !! img = Some i') by (rewrite Himg; apply lookup_insert_eq).
  rewrite (capture_block_unfold sb img w c1 Hpull).
  erewrite bind_run by exact Hrun.
  erewrite bind_run by (eapply call_push_run; [exact Hl | rewrite Hc; exact Hpush]).
  exists (with_samples (samples_after sb i w)
            (with_pixels (pixels_after sb i w)
               (with_pushed (pushed w9 ++ [(img, i')]) (with_consumer c2 w9)))).
  split.
  - destruct b; simpl;
      (erewrite bind_run by (apply leave_block_run; [exact Hlp | exact Hls])); reflexivity.
  - cbn. rewrite Hpu. repeat split; assumption.
Qed.

End ExactBlocks.

Section ExactStore.
Context {C : Type} {consumer_callbacks : Consumer C}.
Implicit Types (w : world C).

Lemma store_exact_untouched w w' : frames_untouched w w' -> store_exact w -> store_exact w'.
Proof.
  intros (Hi & Hs & Hp & _) (Hown & Hun & Hos & Hop).
  unfold store_exact, wrappers_unshared. rewrite Hi, Hs, Hp.
  split; [exact Hown|]. split; [exact Hun|]. split; [exact Hos | exact Hop].
Qed.

Lemma sole_owner_held {T : Type} (p : shared_ptr) (h : gmap nat (T * nat)) :
  sole_owner p h -> sp_held 1 p h.
Proof.
  destruct p as [id|]; simpl; [|trivial].
  intros [obj H]. exists obj, 1%nat. split; [exact H | lia].
Qed.

Lemma store_exact_owned w : store_exact w -> images_owned w.
Proof.
  intros (Hown & Hun & _). split; [|exact Hun].
  intros img i Hi. destruct (Hown img i Hi) as [Hs Hp].
  split; [exact Hi|]. split; apply sole_owner_held; assumption.
Qed.

(** One heap of the store after a completed block. *)
Lemma heap_after_block {T : Type} (field : av_img_t -> shared_ptr)
  (imgs : gmap nat av_img_t) (h : gmap nat (T * nat))
  (img : nat) (i i' : av_img_t) (new : nat) (obj : T) :
  (forall img2 i2, imgs !! img2 = Some i2 -> sole_owner (field i2) h) ->
  (forall img1 img2 i1 i2 id, img1 <> img2 -> imgs !! img1 = Some i1 -> imgs !! img2 = Some i2 ->
                              field i1 = Some id -> field i2 <> Some id) ->
  (forall id, is_Some (h !! id) -> exists img2 i2, imgs !! img2 = Some i2 /\ field i2 = Some id) ->
  imgs !! img = Some i ->
  h !! new = None ->
  field i' = Some new ->
  let imgs' := <[img := i']> imgs in
  let h' := <[new := (obj, 1%nat)]> (without (field i) h) in
  (forall img2 i2, imgs' !! img2 = Some i2 -> sole_owner (field i2) h') /\
  (forall img1 img2 i1 i2 id, img1 <> img2 -> imgs' !! img1 = Some i1 -> imgs' !! img2 = Some i2 ->
                              field i1 = Some id -> field i2 <> Some id) /\
  (forall id, is_Some (h' !! id) -> exists img2 i2, imgs' !! img2 = Some i2 /\ field i2 = Some id).
Proof.
  intros Hown Hun Horph Hi Hnew Hfield imgs' h'.
  assert (Hfresh : forall img2 i2, imgs !! img2 = Some i2 -> field i2 <> Some new).
  { intros img2 i2 H2 E. specialize (Hown img2 i2 H2). rewrite E in Hown.
    destruct Hown as [x Hx]. congruence. }
  assert (Hkeep : forall id, field i <> Some id -> id <> new ->
                             h' !! id = h !! id).
  { intros id Hid Hn. subst h'. rewrite lookup_insert_ne by congruence.
    destruct (field i) as [o|]; simpl; [|reflexivity].
    apply lookup_delete_ne. congruence. }
  split; [|split].
  - intros img2 i2 H2. subst imgs'.
    destruct (decide (img2 = img)) as [->|Hne].
    + rewrite lookup_insert_eq in H2. injection H2 as <-.
      rewrite Hfield. simpl. exists obj. subst h'. apply lookup_insert_eq.
    + rewrite lookup_insert_ne in H2 by congruence.
      pose proof (Hown img2 i2 H2) as Ho.
      destruct (field i2) as [id|] eqn:E; [|exact I].
      simpl in *. destruct Ho as [x Hx]. exists x.
      rewrite Hkeep; [exact Hx | |].
      * intros Eq. exact (Hun img img2 i i2 id (not_eq_sym Hne) Hi H2 Eq E).
      * intros ->. apply (Hfresh img2 i2 H2). exact E.
  - intros img1 img2 i1 i2 id Hne H1 H2 E1. subst imgs'.
    destruct (decide (img1 = img)) as [->|Hne1]; destruct (decide (img2 = img)) as [->|Hne2].
    + contradiction.
    + rewrite lookup_insert_eq in H1. injection H1 as <-.
      rewrite lookup_insert_ne in H2 by congruence.
      rewrite Hfield in E1. injection E1 as <-. apply (Hfresh img2 i2 H2).
    + rewrite lookup_insert_eq in H2. injection H2 as <-.
      rewrite lookup_insert_ne in H1 by congruence.
      rewrite Hfield. intros [= <-]. exact (Hfresh img1 i1 H1 E1).
    + rewrite lookup_insert_ne in H1 by congruence.
      rewrite lookup_insert_ne in H2 by congruence.
      exact (Hun img1 img2 i1 i2 id Hne H1 H2 E1).
  - intros id Hid. subst imgs' h'.
    destruct (decide (id = new)) as [->|Hn].
    + exists img, i'. split; [apply lookup_insert_eq | exact Hfield].
    + rewrite lookup_insert_ne in Hid by congruence.
      assert (Hold : field i <> Some id /\ is_Some (h !! id)).
      { destruct (field i) as [o|]; simpl in Hid.
        - destruct (decide (id = o)) as [->|Hno].
          + rewrite lookup_delete_eq in Hid. destruct Hid as [? Hid]. discriminate.
          + rewrite lookup_delete_ne in Hid by congruence. split; [congruence | exact Hid].
        - split; [discriminate | exact Hid]. }
      destruct Hold as [Hne Hin].
      destruct (Horph id Hin) as (img2 & i2 & H2 & E2).
      exists img2, i2. split; [|exact E2].
      rewrite lookup_insert_ne; [exact H2|].
      intros <-. rewrite Hi in H2. injection H2 as <-. contradiction.
Qed.

(** A completed block leaves the store exact. *)
Lemma store_exact_after_block w w' (img : nat) (i : av_img_t) (sb : CMSampleBufferRef) q :
  store_exact w ->
  images w !! img = Some i ->
  images w' = <[img := installed (new_sample_id w) (new_pixel_id w)
                         (CMSampleBufferGetImageBuffer sb) q]> (images w) ->
  samples w' = <[new_sample_id w := ({| sample_buf := sb |}, 1%nat)]>
                 (without (sample_buffer i) (samples w)) ->
  pixels w' = <[new_pixel_id w := ({| pixel_buf := CMSampleBufferGetImageBuffer sb |}, 1%nat)]>
                (without (pixel_buffer i) (pixels w)) ->
  store_exact w'.
Proof.
  intros (Hown & Hun & Hos & Hop) Hi Himg Hs Hp.
  destruct (new_ids_fresh w) as [Hfs Hfp].
  destruct (heap_after_block sample_buffer (images w) (samples w) img i
              (installed (new_sample_id w) (new_pixel_id w) (CMSampleBufferGetImageBuffer sb) q)
              (new_sample_id w) {| sample_buf := sb |}) as (Hs1 & Hs2 & Hs3);
    try assumption; try reflexivity.
  { intros img2 i2 H2. apply (Hown img2 i2 H2). }
  { intros img1 img2 i1 i2 id Hne H1 H2. apply (Hun img1 img2 i1 i2 Hne H1 H2). }
  destruct (heap_after_block pixel_buffer (images w) (pixels w) img i
              (installed (new_sample_id w) (new_pixel_id w) (CMSampleBufferGetImageBuffer sb) q)
              (new_pixel_id w) {| pixel_buf := CMSampleBufferGetImageBuffer sb |})
    as (Hp1 & Hp2 & Hp3);
    try assumption; try reflexivity.
  { intros img2 i2 H2. apply (Hown img2 i2 H2). }
  { intros img1 img2 i1 i2 id Hne H1 H2. apply (Hun img1 img2 i1 i2 Hne H1 H2). }
  cbv zeta in *. unfold store_exact, wrappers_unshared. rewrite Himg, Hs, Hp.
  split; [|split; [|split]].
  - intros img2 i2 H2. split; [apply (Hs1 img2 i2 H2) | apply (Hp1 img2 i2 H2)].
  - intros img1 img2 i1 i2 Hne H1 H2. split; intros id E.
    + exact (Hs2 img1 img2 i1 i2 id Hne H1 H2 E).
    + exact (Hp2 img1 img2 i1 i2 id Hne H1 H2 E).
  - exact Hs3.
  - exact Hp3.
Qed.

(** Whenever a block returns, the store is exact again. *)
Lemma call_frame_callback_exact (cb : SCFrameCallbackBlock) (sb : CMSampleBufferRef) :
  hoare store_exact (call_frame_callback cb sb) (fun _ => store_exact) (fun _ => True).
Proof.
  intros w Hw. pose proof Hw as (Hown & _).
  destruct cb as [|img]; simpl.
  - destruct (pull_free_image_cb (consumer w)) as [[[|] [img|]] c1] eqn:Hpull.
    + destruct (images w !! img) as [i|] eqn:Hi.
      * destruct (Hown img i Hi) as [Hs Hp].
        destruct (derived_pitch sb) as [q|] eqn:Hq.
        -- destruct (push_captured_image_cb img
                       (installed (new_sample_id w) (new_pixel_id w)
                          (CMSampleBufferGetImageBuffer sb) q) true c1) as [b c2] eqn:Hpush.
           destruct (capture_block_exact sb img i w c1 q b c2 Hpull Hi Hs Hp Hq Hpush)
             as (w' & Hrun & Himg & Hs' & Hp' & _).
           rewrite Hrun.
           exact (store_exact_after_block w w' img i sb q Hw Hi Himg Hs' Hp').
        -- pose proof (capture_block_stuck sb img i w c1 Hpull
                         (proj1 (store_exact_owned w Hw) img i Hi) Hq) as Hstuck.
           destruct (capture_block sb w) as [[b| |] w']; [|exact I|exact I].
           exfalso. apply (Hstuck b). reflexivity.
      * rewrite (capture_block_unfold sb img w c1 Hpull).
        refine (bind_stops _ _ _ (fun _ => store_exact) (fun _ => True) _ I).
        rewrite handoff_without_image by exact Hi. discriminate.
    + unfold capture_block.
      erewrite bind_run by apply make_shared_sample_run.
      erewrite bind_run by (eapply load_sample_buf_run; apply lookup_insert_eq).
      erewrite bind_run by apply make_shared_pixel_run.
      erewrite bind_run by (apply call_pull_run; exact Hpull).
      exact I.
    + rewrite (capture_block_pull_failed sb w _ c1 Hpull).
      apply (store_exact_untouched w); [apply with_consumer_untouched | exact Hw].
    + rewrite (capture_block_pull_failed sb w _ c1 Hpull).
      apply (store_exact_untouched w); [apply with_consumer_untouched | exact Hw].
  - destruct (images w !! img) as [i|] eqn:Hi.
    + destruct (Hown img i Hi) as [Hs Hp].
      destruct (derived_pitch sb) as [q|] eqn:Hq.
      * destruct (dummy_img_block_exact sb img i w q Hi Hs Hp Hq)
          as (w' & Hrun & Himg & Hs' & Hp' & _).
        rewrite Hrun.
        exact (store_exact_after_block w w' img i sb q Hw Hi Himg Hs' Hp').
      * pose proof (dummy_img_block_stuck sb img i w
                      (proj1 (store_exact_owned w Hw) img i Hi) Hq) as Hstuck.
        destruct (dummy_img_block img sb w) as [[b| |] w']; [|exact I|exact I].
        exfalso. apply (Hstuck b). reflexivity.
    + rewrite dummy_img_block_unfold.
      refine (bind_stops _ _ _ (fun _ => store_exact) (fun _ => True) _ I).
      rewrite handoff_without_image by exact Hi. discriminate.
Qed.

Lemma hoare_exact_untouched {A} (m : M C A) :
  (forall w, frames_untouched w (snd (m w))) ->
  hoare store_exact m (fun _ => store_exact) (fun _ => True).
Proof.
  intros H w Hw. specialize (H w).
  pose proof (store_exact_untouched w _ H Hw) as H'.
  destruct (m w) as [[a| |] w']; simpl in *; [exact H' | exact I | exact I].
Qed.

Lemma native_step_exact (e : native_event) :
  hoare store_exact (native_step e) (fun _ => store_exact) (fun _ => True).
Proof.
  destruct e as [error|error|sb ty| |]; simpl.
  - apply hoare_exact_untouched. apply start_completion_untouched.
  - apply hoare_exact_untouched. apply stop_completion_untouched.
  - destruct ty; [|apply hoare_ret; auto|apply hoare_ret; auto].
    unfold stream_didOutputSampleBuffer.
    eapply hoare_bind with (Q := fun _ => store_exact).
    + apply hoare_gets. auto.
    + intros [cb|]; [|apply hoare_ret; auto].
      eapply hoare_bind with (Q := fun _ => store_exact).
      * apply call_frame_callback_exact.
      * intros [|]; simpl; [apply hoare_ret; auto|].
        apply hoare_exact_untouched. apply stopCapture_untouched.
  - apply hoare_exact_untouched. apply didStopWithError_untouched.
  - apply hoare_exact_untouched. apply stopCapture_untouched.
Qed.

Lemma wait_exact (pending : list native_event) :
  hoare store_exact (dispatch_semaphore_wait pending) (fun _ => store_exact) (fun _ => True).
Proof.
  induction pending as [|e rest IH]; intros w Hw; simpl.
  - destruct (captureSemaphore (sc_capture w)) as [[|n]|]; try exact I.
    apply (store_exact_untouched w); [repeat split | exact Hw].
  - destruct (captureSemaphore (sc_capture w)) as [[|n]|].
    + pose proof (native_step_exact e w Hw) as He.
      destruct (native_step e w) as [[[]| |] w1]; [apply IH; exact He | exact I | exact I].
    + apply (store_exact_untouched w); [repeat split | exact Hw].
    + pose proof (native_step_exact e w Hw) as He.
      destruct (native_step e w) as [[[]| |] w1]; [apply IH; exact He | exact I | exact I].
Qed.

End ExactStore.

(** X8.  A completed hand-off releases what it replaces: when the image
    is the only owner of its two wrappers (or has none yet), then after the
    block of [dummy_img], and after the block of [capture] whatever
    [push_captured_image_cb] answers, those wrappers are gone from the
    heaps, and the wrappers of the new frame are there with the image as
    their only owner. *)
Theorem handoff_releases_the_replaced_wrappers {C : Type} {consumer_callbacks : Consumer C}
  (sb : CMSampleBufferRef) (w : world C) (img : nat) (i : av_img_t) (q : Z) :
  images w !! img = Some i ->
  sole_owner (sample_buffer i) (samples w) ->
  sole_owner (pixel_buffer i) (pixels w) ->
  derived_pitch sb = Some q ->
  let samples' := <[new_sample_id w := ({| sample_buf := sb |}, 1%nat)]>
                    (without (sample_buffer i) (samples w)) in
  let pixels' := <[new_pixel_id w :=
                     ({| pixel_buf := CMSampleBufferGetImageBuffer sb |}, 1%nat)]>
                   (without (pixel_buffer i) (pixels w)) in
  (exists w',
     dummy_img_block img sb w = (Ret false, w') /\
     samples w' = samples' /\ pixels w' = pixels') /\
  (forall c1 b c2,
     pull_free_image_cb (consumer w) = ((true, Some img), c1) ->
     push_captured_image_cb img
       (installed (new_sample_id w) (new_pixel_id w) (CMSampleBufferGetImageBuffer sb) q)
       true c1 = (b, c2) ->
     exists w',
       capture_block sb w = (Ret b, w') /\
       samples w' = samples' /\ pixels w' = pixels').
Proof.
  intros Hi Hs Hp Hq. cbv zeta. split.
  - destruct (dummy_img_block_exact sb img i w q Hi Hs Hp Hq)
      as (w' & Hrun & _ & Hs' & Hp' & _).
    exists w'. split; [exact Hrun|]. split; assumption.
  - intros c1 b c2 Hpull Hpush.
    destruct (capture_block_exact sb img i w c1 q b c2 Hpull Hi Hs Hp Hq Hpush)
      as (w' & Hrun & _ & Hs' & Hp' & _).
    exists w'. split; [exact Hrun|]. split; assumption.
Qed.

(** An image bound to an earlier frame takes the next one: wrapper 0 of
    each heap is gone, wrapper 1 is there. *)
Lemma handoff_releases_the_replaced_wrappers_witness :
  exists w',
    dummy_img_block (C := unit) 0 frame_1080p bound_world = (Ret false, w') /\
    samples w' = <[new_sample_id bound_world := ({| sample_buf := frame_1080p |}, 1%nat)]>
                   (without (Some 0%nat) (samples bound_world)) /\
    pixels w' = <[new_pixel_id bound_world :=
                    ({| pixel_buf := CMSampleBufferGetImageBuffer frame_1080p |}, 1%nat)]>
                  (without (Some 0%nat) (pixels bound_world)).
Proof.
  refine (proj1 (handoff_releases_the_replaced_wrappers (consumer_callbacks := willing_consumer)
                   frame_1080p bound_world 0 bound_image 4 eq_refl _ _ eq_refl)).
  - eexists. reflexivity.
  - eexists. reflexivity.
Defined.

Lemma fresh_world_exact : store_exact fresh_world.
Proof.
  split; [|split; [|split]].
  - intros img i H. simpl in H. apply lookup_singleton_Some in H as [_ <-].
    split; exact I.
  - apply fresh_world_images_owned.
  - intros id [x H]. simpl in H. rewrite lookup_empty in H. discriminate.
  - intros id [x H]. simpl in H. rewrite lookup_empty in H. discriminate.
Qed.

(** X9.  No wrapper outlives its frame: from a store in which every live
    wrapper is the current wrapper of one image, which is its only owner,
    [capture] returns in such a store again, however many frames were
    delivered and whichever of them the consumer took or turned down: the
    heaps hold no wrapper of an earlier frame.  The same holds for
    [dummy_img]. *)
Theorem no_wrapper_outlives_its_frame {C : Type} {consumer_callbacks : Consumer C}
  (pending : list native_event) (w : world C) :
  store_exact w ->
  (forall r, fst (capture pending w) = Ret r -> store_exact (snd (capture pending w))) /\
  (forall allowed img r,
     fst (dummy_img allowed img pending w) = Ret r ->
     store_exact (snd (dummy_img allowed img pending w))).
Proof.
  intros Hw.
  assert (Hwait : forall cb rest w',
            dispatch_semaphore_wait pending (armed cb w) = (Ret rest, w') -> store_exact w').
  { intros cb rest w' Hrun.
    assert (Harmed : store_exact (armed cb w))
      by (apply (store_exact_untouched w); [repeat split | exact Hw]).
    pose proof (wait_exact pending (armed cb w) Harmed) as H.
    rewrite Hrun in H. exact H. }
  split.
  - intros r. rewrite capture_unfold.
    destruct (dispatch_semaphore_wait pending _) as [[rest| |] w1] eqn:Hrun;
      simpl; try discriminate.
    intros _. exact (Hwait _ _ _ Hrun).
  - intros [] img r; [|intros _; exact Hw].
    rewrite dummy_img_unfold.
    destruct (dispatch_semaphore_wait pending _) as [[rest| |] w1] eqn:Hrun;
      simpl; try discriminate.
    intros _. exact (Hwait _ _ _ Hrun).
Qed.

(** Two frames delivered to the same image, then the stream stops. *)
Lemma no_wrapper_outlives_its_frame_witness :
  store_exact
    (snd (capture (consumer_callbacks := willing_consumer)
            [StartCompleted false;
             DidOutputSampleBuffer frame_1080p SCStreamOutputTypeScreen;
             DidOutputSampleBuffer frame_1080p SCStreamOutputTypeScreen;
             DidStopWithError] fresh_world)).
Proof.
  exact (proj1 (no_wrapper_outlives_its_frame (consumer_callbacks := willing_consumer)
                  [StartCompleted false;
                   DidOutputSampleBuffer frame_1080p SCStreamOutputTypeScreen;
                   DidOutputSampleBuffer frame_1080p SCStreamOutputTypeScreen;
                   DidStopWithError] fresh_world fresh_world_exact)
           (capture_ok, []) eq_refl).
Defined.

(** After those two frames each heap holds one wrapper. *)
Example two_frames_one_wrapper :
  let w' := snd (capture (consumer_callbacks := willing_consumer)
                   [StartCompleted false;
                    DidOutputSampleBuffer frame_1080p SCStreamOutputTypeScreen;
                    DidOutputSampleBuffer frame_1080p SCStreamOutputTypeScreen;
                    DidStopWithError] fresh_world) in
  size (samples w') = 1%nat /\ size (pixels w') = 1%nat /\ length (pushed w') = 2%nat.
Proof. vm_compute. repeat split. Qed.

(** ** The names of the displays *)

Section NameFacts.

Lemma read_digits_acc (d : Decimal.uint) (acc : positive) :
  read_digits (Z.pos acc) (NilEmpty.string_of_uint d) = Z.pos (Pos.of_uint_acc d acc).
Proof.
  revert acc. induction d as [|d IH|d IH|d IH|d IH|d IH|d IH|d IH|d IH|d IH|d IH];
    intros acc; cbn [NilEmpty.string_of_uint read_digits Pos.of_uint_acc];
    [reflexivity|..];
    match goal with
    | |- context [digit_value ?c] =>
        let v := eval vm_compute in (digit_value c) in
        change (digit_value c) with v
    end; cbv iota beta; rewrite <- IH; f_equal; lia.
Qed.

Lemma read_digits_uint (d : Decimal.uint) :
  read_digits 0 (NilEmpty.string_of_uint d) = Z.of_N (Pos.of_uint d).
Proof.
  induction d as [|d IH|d IH|d IH|d IH|d IH|d IH|d IH|d IH|d IH|d IH];
    cbn [NilEmpty.string_of_uint read_digits Pos.of_uint];
    [reflexivity|..];
    match goal with
    | |- context [digit_value ?c] =>
        let v := eval vm_compute in (digit_value c) in
        change (digit_value c) with v
    end; cbv iota beta;
    first [exact IH | apply (read_digits_acc d)].
Qed.

(** A rendered number starts with a digit: [atoi] finds no space to skip
    and no sign. *)
Lemma atoi_uint (d : Decimal.uint) :
  atoi (NilEmpty.string_of_uint d) = to_int (read_digits 0 (NilEmpty.string_of_uint d)).
Proof. destruct d; reflexivity. Qed.

(** [atoi] reads back what ["%d"] has written. *)
Lemma atoi_format_d (x : Z) : atoi (format_d x) = to_int x.
Proof.
  unfold format_d. destruct x as [|p|p]; cbn [Z.to_int NilEmpty.string_of_int].
  - reflexivity.
  - rewrite atoi_uint, read_digits_uint, Unsigned.of_to. reflexivity.
  - change (atoi (String "-" (NilEmpty.string_of_uint (Pos.to_uint p))))
      with (to_int (- read_digits 0 (NilEmpty.string_of_uint (Pos.to_uint p)))).
    rewrite read_digits_uint, Unsigned.of_to. reflexivity.
Qed.

Lemma format_d_not_empty (x : Z) : string_empty (format_d x) = false.
Proof.
  unfold format_d. destruct x as [|p|p]; cbn [Z.to_int NilEmpty.string_of_int];
    try reflexivity.
  pose proof (Unsigned.of_to p) as H.
  destruct (Pos.to_uint p); try reflexivity. discriminate.
Qed.

Lemma to_uint_to_int (x : Z) : to_uint (to_int x) = to_uint x.
Proof.
  unfold to_uint, to_int.
  rewrite <- Zminus_mod_idemp_l, Z.mod_mod by lia.
  rewrite Zminus_mod_idemp_l. f_equal. 
  replace (x + 2 ^ 31 - 2 ^ 31) with x by lia. reflexivity.
Qed.

Lemma entry_id_range (env : native_env) (item : display_entry) :
  In item (displayNames env) -> to_uint (entry_id item) = entry_id item.
Proof.
  unfold displayNames. destruct (CGGetActiveDisplayList env) as [displays|]; [|intros []].
  intros H. apply in_map_iff in H as (d & <- & _). simpl.
  unfold to_uint. apply Z.mod_mod. lia.
Qed.

Lemma entry_name_parses (env : native_env) (item : display_entry) :
  In item (displayNames env) -> to_uint (atoi (entry_name item)) = entry_id item.
Proof.
  intros H. unfold entry_name.
  rewrite atoi_format_d, !to_uint_to_int. apply (entry_id_range env item H).
Qed.

End NameFacts.

Section SelectionFacts.

(** The selection loop ends on its start value or on the id of an entry. *)
Lemma select_loop_entry (display_name : string) (entries : list display_entry) (start : Z) :
  let result :=
    fold_left
      (fun display_id item =>
         if negb (string_empty display_name) && (to_uint (atoi display_name) =? entry_id item)
         then entry_id item else display_id)
      entries start in
  result = start \/ exists item, In item entries /\ result = entry_id item.
Proof.
  revert start. induction entries as [|item entries IH]; intros start; cbn [fold_left].
  - left. reflexivity.
  - destruct (negb (string_empty display_name)
              && (to_uint (atoi display_name) =? entry_id item)) eqn:Hc.
    + right. destruct (IH (entry_id item)) as [H|(x & Hin & H)]; cbv zeta in H.
      * exists item. split; [left; reflexivity | exact H].
      * exists x. split; [right; exact Hin | exact H].
    + destruct (IH start) as [H|(x & Hin & H)]; cbv zeta in H.
      * left. exact H.
      * right. exists x. split; [right; exact Hin | exact H].
Qed.

(** Where the frame size of a new session comes from: the mode of the
    display asked for, or, without a mode, its size in pixels. *)
Lemma initWithDisplay_size (env : native_env) (wanted frameRate : Z) (sc : ApolloScreenCapture) :
  initWithDisplay env wanted frameRate = Some sc ->
  (frameWidth sc, frameHeight sc) =
    match CGDisplayCopyDisplayMode env wanted with
    | Some (w, h) => (to_int w, to_int h)
    | None => (to_int (fst (CGDisplayPixels env wanted)), to_int (snd (CGDisplayPixels env wanted)))
    end /\
  (cfg_width <$> streamConfig sc) = Some (to_size_t (frameWidth sc)) /\
  (cfg_height <$> streamConfig sc) = Some (to_size_t (frameHeight sc)) /\
  captureHDR sc = isHDRSupported env (displayID sc).
Proof.
  unfold initWithDisplay.
  assert (Hsize : match CGDisplayCopyDisplayMode env wanted with
            | Some (w, h) => (to_int w, to_int h)
            | None => let '(w, h) := CGDisplayPixels env wanted in (to_int w, to_int h)
            end =
            match CGDisplayCopyDisplayMode env wanted with
            | Some (w, h) => (to_int w, to_int h)
            | None => (to_int (fst (CGDisplayPixels env wanted)),
                       to_int (snd (CGDisplayPixels env wanted)))
            end).
  { destruct (CGDisplayCopyDisplayMode env wanted) as [[w h]|]; [reflexivity|].
    destruct (CGDisplayPixels env wanted). reflexivity. }
  rewrite <- Hsize. clear Hsize.
  destruct (match CGDisplayCopyDisplayMode env wanted with
            | Some (w, h) => (to_int w, to_int h)
            | None => let '(w, h) := CGDisplayPixels env wanted in (to_int w, to_int h)
            end) as [w h].
  destruct (shareable_content env) as [[|displays]|]; try discriminate.
  destruct (match find_display wanted displays with
            | Some d => Some d
            | None => match displays with d :: _ => Some d | [] => None end
            end) as [d|]; [|discriminate].
  destruct (addStreamOutput_error env); [discriminate|].
  intros [= <-]. repeat split.
Qed.

End SelectionFacts.

(** X10.  The names that [display_names] hands out lead back to their
    displays: given the name of an enumerated display, [display] asks for
    that display's id, also for an id above [INT_MAX], which the name renders
    as a negative number; and the session it returns is bound to that id
    whenever the shareable content lists it. *)
Theorem display_name_round_trip (env : native_env) (name : string) :
  In name (display_names env) ->
  exists item,
    In item (displayNames env) /\ name = entry_name item /\
    select_display_id env name = entry_id item /\
    forall hwdevice_type framerate d,
      display env hwdevice_type name framerate = Some d ->
      display_id d = entry_id item /\
      forall displays,
        shareable_content env = Some (content_displays displays) ->
        In (entry_id item) displays ->
        displayID (sc_session d) = entry_id item.
Proof.
  intros Hin. apply in_map_iff in Hin as (item & <- & Hitem).
  exists item. split; [exact Hitem|]. split; [reflexivity|].
  assert (Hsel : select_display_id env (entry_name item) = entry_id item).
  { unfold select_display_id.
    rewrite select_loop_match.
    - apply (entry_name_parses env item Hitem).
    - apply format_d_not_empty.
    - exists item. split; [exact Hitem|].
      symmetry. apply (entry_name_parses env item Hitem). }
  split; [exact Hsel|].
  intros hw fr d Hd. unfold display in Hd.
  destruct (bool_decide (hw <> mem_system) && bool_decide (hw <> mem_videotoolbox));
    [discriminate|].
  destruct (initWithDisplay env (select_display_id env (entry_name item)) fr)
    as [sc|] eqn:Hinit; [|discriminate].
  injection Hd as <-. simpl. split; [exact Hsel|].
  intros displays Hc Hlisted.
  destruct (initWithDisplay_some _ _ _ _ Hinit) as (displays' & Hc' & _ & _ & Hsame & _).
  rewrite Hc in Hc'. injection Hc' as <-.
  rewrite <- Hsel. apply Hsame. rewrite Hsel. exact Hlisted.
Qed.

(** The second of two displays, by the name ["2"]. *)
Lemma display_name_round_trip_witness :
  exists item,
    In item (displayNames two_displays) /\ "2"%string = entry_name item /\
    select_display_id two_displays "2" = entry_id item /\
    forall hwdevice_type framerate d,
      display two_displays hwdevice_type "2" framerate = Some d ->
      display_id d = entry_id item /\
      forall displays,
        shareable_content two_displays = Some (content_displays displays) ->
        In (entry_id item) displays ->
        displayID (sc_session d) = entry_id item.
Proof.
  apply (display_name_round_trip two_displays "2").
  right. left. reflexivity.
Defined.

Example display_name_of_large_id :
  display_names large_id_display = ["1"; "-1"]%string /\
  (displayID ∘ sc_session) <$> display large_id_display mem_system "-1" 60
    = Some 4294967295.
Proof. split; reflexivity. Qed.

Section ParseFacts.

(** A name that starts with neither white space, a sign nor a digit is read
    as 0. *)
Lemma atoi_not_a_number (c : ascii) (r : string) :
  is_space c = false -> digit_value c = None -> c <> "-"%char -> c <> "+"%char ->
  atoi (String c r) = 0.
Proof.
  intros Hs Hd Hm Hp.
  destruct c as [[] [] [] [] [] [] [] []];
    try (exfalso; apply Hm; reflexivity);
    try (exfalso; apply Hp; reflexivity);
    try (vm_compute in Hs; discriminate Hs);
    try (vm_compute in Hd; discriminate Hd);
    reflexivity.
Qed.

Lemma select_display_id_by_value (env : native_env) (n1 n2 : string) :
  string_empty n1 = string_empty n2 -> atoi n1 = atoi n2 ->
  select_display_id env n1 = select_display_id env n2.
Proof. intros He Ha. unfold select_display_id. rewrite He, Ha. reflexivity. Qed.

End ParseFacts.

(** X11.  [display] asks for the main display or for an enumerated display
    whose id the name parses to, and for nothing else; and a name that is no
    number (it starts with neither white space, a sign nor a digit) is
    treated as the name ["0"]. *)
Theorem display_asks_for_a_known_id (env : native_env) (name : string) :
  (select_display_id env name = to_uint (CGMainDisplayID env) \/
   exists item,
     In item (displayNames env) /\ select_display_id env name = entry_id item /\
     entry_id item = to_uint (atoi name)) /\
  (forall c r,
     name = String c r ->
     is_space c = false -> digit_value c = None -> c <> "-"%char -> c <> "+"%char ->
     select_display_id env name = select_display_id env "0").
Proof.
  split.
  - unfold select_display_id.
    destruct (select_loop_entry name (displayNames env) (to_uint (CGMainDisplayID env)))
      as [H|(item & Hin & H)]; cbv zeta in H; [left; exact H|].
    destruct (select_loop_range name (displayNames env) (to_uint (CGMainDisplayID env)))
      as [H'|H']; cbv zeta in H'; [left; exact H'|].
    right. exists item. split; [exact Hin|]. split; [exact H|]. congruence.
  - intros c r -> Hs Hd Hm Hp. apply select_display_id_by_value; [reflexivity|].
    rewrite (atoi_not_a_number c r Hs Hd Hm Hp). reflexivity.
Qed.

(** X12.  The size that [display] reports is the size of the display asked
    for (its mode, or without a mode its size in pixels, as an [int]), also
    when the session falls back to another display.  The stream
    configuration holds that size converted to [size_t]: the same number
    when it is not negative.  The HDR flag is probed on the display the
    session is bound to. *)
Theorem display_size_is_of_the_display_asked_for (env : native_env)
  (hwdevice_type : mem_type_e) (display_name : string) (framerate : Z) (d : sc_display_t) :
  display env hwdevice_type display_name framerate = Some d ->
  (display_width d, display_height d) =
    match CGDisplayCopyDisplayMode env (display_id d) with
    | Some (w, h) => (to_int w, to_int h)
    | None => (to_int (fst (CGDisplayPixels env (display_id d))),
               to_int (snd (CGDisplayPixels env (display_id d))))
    end /\
  (env_width d, env_height d) = (display_width d, display_height d) /\
  (frameWidth (sc_session d), frameHeight (sc_session d)) = (display_width d, display_height d) /\
  (cfg_width <$> streamConfig (sc_session d)) = Some (to_size_t (display_width d)) /\
  (cfg_height <$> streamConfig (sc_session d)) = Some (to_size_t (display_height d)) /\
  (0 <= display_width d ->
   (cfg_width <$> streamConfig (sc_session d)) = Some (display_width d)) /\
  (0 <= display_height d ->
   (cfg_height <$> streamConfig (sc_session d)) = Some (display_height d)) /\
  captureHDR (sc_session d) = isHDRSupported env (displayID (sc_session d)).
Proof.
  unfold display.
  destruct (bool_decide (hwdevice_type <> mem_system)
            && bool_decide (hwdevice_type <> mem_videotoolbox)); [discriminate|].
  destruct (initWithDisplay env (select_display_id env display_name) framerate)
    as [sc|] eqn:Hinit; [|discriminate].
  intros [= <-]. cbn [display_width display_height env_width env_height sc_session display_id].
  destruct (initWithDisplay_size _ _ _ _ Hinit) as (Hsize & Hw & Hh & Hhdr).
  assert (Hrange : frameWidth sc < 2 ^ 64 /\ frameHeight sc < 2 ^ 64).
  { destruct (CGDisplayCopyDisplayMode env (select_display_id env display_name))
      as [[w h]|]; injection Hsize as -> ->;
      split; apply Z.le_lt_trans with int_max;
      solve [apply to_int_range | reflexivity]. }
  split; [exact Hsize|]. split; [reflexivity|]. split; [reflexivity|].
  split; [exact Hw|]. split; [exact Hh|].
  split; [|split; [|exact Hhdr]].
  - intros H0. rewrite Hw, to_size_t_small; [reflexivity | lia].
  - intros H0. rewrite Hh, to_size_t_small; [reflexivity | lia].
Qed.

(** Asked for display 1 and bound to display 2: the size is that of
    display 1, the HDR flag that of display 2. *)
Lemma display_size_is_of_the_display_asked_for_witness :
  exists d,
    display fallback_env mem_system "" 60 = Some d /\
    display_id d = 1 /\ displayID (sc_session d) = 2 /\
    (display_width d, display_height d) = (1280, 720) /\
    captureHDR (sc_session d) = true.
Proof.
  eexists. split; [reflexivity|]. split; [reflexivity|]. split; [reflexivity|].
  pose proof (display_size_is_of_the_display_asked_for fallback_env mem_system "" 60 _ eq_refl)
    as (Hsize & _ & _ & _ & _ & _ & _ & Hhdr).
  split; [exact Hsize | exact Hhdr].
Defined.

(** ** The zero-copy device and the session *)

(** X13.  The zero-copy device that [make_avcodec_encode_device] hands back
    for [nv12] or [p010] carries the resolution hook of the session: its
    [set_frame] stores the encoder frame's size in the session and,
    converted to [size_t], in the stream configuration (the same number when
    it is not negative), and sends the configuration to the stream exactly
    when the session is capturing.  The bi-planar pixel format is stored in
    the session only: the stream configuration keeps the pixel format it
    had. *)
Theorem zero_copy_device_sets_resolution (pix_fmt : pix_fmt_e) (sc : ApolloScreenCapture)
  (e : encoder) (f : nat) (frame : AVFrame) :
  pix_fmt = nv12 \/ pix_fmt = p010 ->
  av_frames e !! f = Some frame ->
  let fmt := if bool_decide (pix_fmt = p010)
             then kCVPixelFormatType_420YpCbCr10BiPlanarVideoRange
             else kCVPixelFormatType_420YpCbCr8BiPlanarVideoRange in
  let dev := {| nv_frame := None; nv_resolution_fn := Some setResolution; nv_data := true |} in
  let sc1 := set_pixelFormat fmt sc in
  let sc2 := set_frame_size (frame_width frame) (frame_height frame) sc1 in
  let sent := match streamConfig sc2 with
              | Some cfg => if isCapturing sc then [updateConfiguration cfg] else []
              | None => []
              end in
  make_avcodec_encode_device pix_fmt sc = (Some (nv12_zero dev), sc1) /\
  nv12_zero_device_set_frame f dev e sc1
    = Ret (0, {| nv_frame := Some f; nv_resolution_fn := Some setResolution; nv_data := true |},
           sc2, sent) /\
  frameWidth sc2 = frame_width frame /\ frameHeight sc2 = frame_height frame /\
  (cfg_width <$> streamConfig sc2)
    = (fun _ => to_size_t (frame_width frame)) <$> streamConfig sc /\
  (cfg_height <$> streamConfig sc2)
    = (fun _ => to_size_t (frame_height frame)) <$> streamConfig sc /\
  (0 <= frame_width frame <= int_max -> to_size_t (frame_width frame) = frame_width frame) /\
  (0 <= frame_height frame <= int_max -> to_size_t (frame_height frame) = frame_height frame) /\
  pixelFormat sc2 = fmt /\
  (cfg_pixelFormat <$> streamConfig sc2) = (cfg_pixelFormat <$> streamConfig sc).
Proof.
  intros Hfmt Hframe. cbv zeta.
  split; [destruct Hfmt as [-> | ->]; reflexivity|].
  split.
  - unfold nv12_zero_device_set_frame. rewrite Hframe. cbn.
    unfold setResolution, setFrameWidth_frameHeight.
    destruct sc as [? ? ? ? ? ? [cfg|] ? ? []]; reflexivity.
  - assert (Hsmall : forall x, 0 <= x <= int_max -> to_size_t x = x).
    { intros x Hx. apply to_size_t_small. unfold int_max in Hx. lia. }
    destruct sc as [? ? ? ? ? ? [cfg|] ? ? ?]; repeat split; apply Hsmall.
Qed.

(** A capturing session and a 1280x720 encoder frame: the stream is sent a
    configuration of that size, still in 32BGRA, while the session's pixel
    format is the 8-bit bi-planar one. *)
Lemma zero_copy_device_sets_resolution_witness :
  nv12_zero_device_set_frame 0
    {| nv_frame := None; nv_resolution_fn := Some setResolution; nv_data := true |}
    unbound_encoder
    (set_pixelFormat kCVPixelFormatType_420YpCbCr8BiPlanarVideoRange capturing_session)
  = Ret (0,
         {| nv_frame := Some 0%nat; nv_resolution_fn := Some setResolution; nv_data := true |},
         set_frame_size 1280 720
           (set_pixelFormat kCVPixelFormatType_420YpCbCr8BiPlanarVideoRange capturing_session),
         [updateConfiguration
            {| cfg_width := 1280; cfg_height := 720;
               cfg_pixelFormat := kCVPixelFormatType_32BGRA;
               cfg_frameRate := 60; cfg_queueDepth := 5; cfg_showsCursor := true |}]).
Proof.
  exact (proj1 (proj2
    (zero_copy_device_sets_resolution nv12 capturing_session unbound_encoder 0%nat small_frame
       (or_introl eq_refl) eq_refl))).
Defined.

(** ** Retains taken and given back by [convert] *)

(** X14.  [convert] gives back the retain of the binding it replaces: when
    the frame is bound, through an [AVBuffer] with one reference, to an
    earlier pixel buffer, a successful [convert] frees that [AVBuffer] and
    releases the earlier buffer once, and takes one retain on the new one;
    the encoder holds as many [AVBuffer]s as before, and a rebind to the
    same buffer leaves its retain count as it was. *)
Theorem convert_gives_back_the_previous_retain
  (pixel_wrappers : gmap nat (av_pixel_buf_t * nat)) (img : av_img_t)
  (dev : nv12_zero_device) (e : encoder)
  (p c : nat) (buf old : CVPixelBuffer) (f b n : nat) (frame : AVFrame) :
  pixel_buffer img = Some p ->
  pixel_wrappers !! p = Some ({| pixel_buf := Some buf |}, c) ->
  nv_frame dev = Some f ->
  av_frames e !! f = Some frame ->
  frame_buf0 frame = Some b ->
  av_buffers e !! b = Some {| avb_data := Some old; avb_refcount := 1 |} ->
  cf_retain_count e !! pb_handle old = Some (S n) ->
  exists b' e',
    nv12_zero_device_convert pixel_wrappers img dev e = (Ret 0, e') /\
    av_buffers e' = <[b' := {| avb_data := Some buf; avb_refcount := 1 |}]>
                      (delete b (av_buffers e)) /\
    delete b (av_buffers e) !! b' = None /\
    size (av_buffers e') = size (av_buffers e) /\
    (forall h : nat,
       cf_retain_count e' !! h =
       if decide (h = pb_handle buf)
       then (if decide (h = pb_handle old) then Some (S n)
             else Some (S (default 0%nat (cf_retain_count e !! h))))
       else (if decide (h = pb_handle old) then Some n else cf_retain_count e !! h)).
Proof.
  intros Hp Hw Hf Hframe Hb0 Hb Hold.
  unfold nv12_zero_device_convert. rewrite Hp, Hw. cbn [pixel_buf]. rewrite Hf, Hframe, Hb0.
  rewrite (av_buffer_unref_last b (Some old) e Hb).
  set (released := CVPixelBufferRelease (Some old) _).
  assert (Hbuffers : av_buffers released = delete b (av_buffers e)) by reflexivity.
  assert (Hfresh : delete b (av_buffers e) !! fresh (dom (av_buffers released)) = None).
  { rewrite <- Hbuffers. apply not_elem_of_dom. apply is_fresh. }
  eexists (fresh (dom (av_buffers released))), _. split; [reflexivity|].
  cbn [av_buffers store_frame av_buffer_create CFRetain snd cf_retain_count].
  split; [rewrite Hbuffers; reflexivity|].
  split; [exact Hfresh|].
  split.
  - rewrite Hbuffers, map_size_insert_None by exact Hfresh.
    rewrite <- (insert_delete_id (av_buffers e) b _ Hb) at 2.
    rewrite map_size_insert_None by apply lookup_delete_eq. reflexivity.
  - intros h.
    transitivity (cf_retain_count (CFRetain buf released) !! h); [reflexivity|].
    rewrite retain_lookup_CFRetain.
    assert (Hrel : cf_retain_count released !! h =
                   if decide (h = pb_handle old) then Some n else cf_retain_count e !! h).
    { subst released. rewrite retain_lookup_release. cbn [cf_retain_count].
      destruct (decide (h = pb_handle old)) as [->|]; [|reflexivity].
      rewrite Hold. reflexivity. }
    rewrite Hrel.
    destruct (decide (h = pb_handle buf)), (decide (h = pb_handle old)); reflexivity.
Qed.

(** The frame of [bound_encoder], bound to buffer 60, is rebound to the
    buffer of [frame_1080p], number 70. *)
Lemma convert_gives_back_the_previous_retain_witness :
  exists b' e',
    nv12_zero_device_convert pixel_wrappers_of_frame
      (set_pixel_buffer_field (Some 0%nat) alloc_img) device_with_frame bound_encoder
      = (Ret 0, e') /\
    av_buffers e' = <[b' := {| avb_data := sb_image_buffer frame_1080p; avb_refcount := 1 |}]>
                      (delete 0%nat (av_buffers bound_encoder)) /\
    delete 0%nat (av_buffers bound_encoder) !! b' = None /\
    size (av_buffers e') = size (av_buffers bound_encoder) /\
    (forall h : nat,
       cf_retain_count e' !! h =
       if decide (h = 70%nat)
       then (if decide (h = 60%nat) then Some 1%nat
             else Some (S (default 0%nat (cf_retain_count bound_encoder !! h))))
       else (if decide (h = 60%nat) then Some 0%nat else cf_retain_count bound_encoder !! h)).
Proof.
  exact (convert_gives_back_the_previous_retain pixel_wrappers_of_frame
           (set_pixel_buffer_field (Some 0%nat) alloc_img) device_with_frame bound_encoder
           0%nat 1%nat _ earlier_pixel_buffer 0%nat 0%nat 0%nat _
           eq_refl eq_refl eq_refl eq_refl eq_refl eq_refl eq_refl).
Defined.

(** X15.  The retain that [convert] takes is the one that [free_buffer]
    gives back: when the frame was not bound before, a successful [convert]
    followed by the release of the frame's [buf[0]] leaves the encoder's
    buffers as they were and every pixel buffer with the retains it had. *)
Theorem unref_undoes_convert
  (pixel_wrappers : gmap nat (av_pixel_buf_t * nat)) (img : av_img_t)
  (dev : nv12_zero_device) (e : encoder)
  (p c : nat) (buf : CVPixelBuffer) (f : nat) (frame : AVFrame) :
  pixel_buffer img = Some p ->
  pixel_wrappers !! p = Some ({| pixel_buf := Some buf |}, c) ->
  nv_frame dev = Some f ->
  av_frames e !! f = Some frame ->
  frame_buf0 frame = None ->
  exists b e',
    nv12_zero_device_convert pixel_wrappers img dev e = (Ret 0, e') /\
    (frame_buf0 <$> av_frames e' !! f) = Some (Some b) /\
    (frame_data3 <$> av_frames e' !! f) = Some (Some buf) /\
    av_buffers e !! b = None /\
    cf_retain_count e' !! pb_handle buf
      = Some (S (default 0%nat (cf_retain_count e !! pb_handle buf))) /\
    av_buffers (av_buffer_unref (Some b) e') = av_buffers e /\
    forall h : nat,
      default 0%nat (cf_retain_count (av_buffer_unref (Some b) e') !! h)
      = default 0%nat (cf_retain_count e !! h).
Proof.
  intros Hp Hw Hf Hframe Hb0.
  unfold nv12_zero_device_convert. rewrite Hp, Hw. cbn [pixel_buf]. rewrite Hf, Hframe, Hb0.
  cbn [av_buffer_unref].
  assert (Hfresh : av_buffers (CFRetain buf e) !! fresh (dom (av_buffers (CFRetain buf e)))
                   = None) by (apply not_elem_of_dom; apply is_fresh).
  eexists (fresh (dom (av_buffers (CFRetain buf e)))), _. split; [reflexivity|].
  cbn [av_buffer_create store_frame av_frames av_buffers cf_retain_count CFRetain fst snd] in *.
  rewrite !lookup_insert_eq. cbn.
  split; [reflexivity|]. split; [reflexivity|]. split; [exact Hfresh|].
  split; [reflexivity|].
  rewrite lookup_insert_eq. cbn.
  split; [apply delete_insert_id; exact Hfresh|].
  intros h. destruct (decide (h = pb_handle buf)) as [->|Hne].
  - rewrite !lookup_insert_eq. reflexivity.
  - rewrite !lookup_insert_ne by congruence. reflexivity.
Qed.

(** The unbound 1280x720 frame is bound to the buffer of [frame_1080p] and
    released again. *)
Lemma unref_undoes_convert_witness :
  exists b e',
    nv12_zero_device_convert pixel_wrappers_of_frame
      (set_pixel_buffer_field (Some 0%nat) alloc_img) device_with_frame unbound_encoder
      = (Ret 0, e') /\
    (frame_buf0 <$> av_frames e' !! 0%nat) = Some (Some b) /\
    (frame_data3 <$> av_frames e' !! 0%nat) = Some (sb_image_buffer frame_1080p) /\
    av_buffers unbound_encoder !! b = None /\
    cf_retain_count e' !! 70%nat
      = Some (S (default 0%nat (cf_retain_count unbound_encoder !! 70%nat))) /\
    av_buffers (av_buffer_unref (Some b) e') = av_buffers unbound_encoder /\
    forall h : nat,
      default 0%nat (cf_retain_count (av_buffer_unref (Some b) e') !! h)
      = default 0%nat (cf_retain_count unbound_encoder !! h).
Proof.
  exact (unref_undoes_convert pixel_wrappers_of_frame
           (set_pixel_buffer_field (Some 0%nat) alloc_img) device_with_frame unbound_encoder
           0%nat 1%nat _ 0%nat small_frame eq_refl eq_refl eq_refl eq_refl eq_refl).
Defined.

(** ** A single frame on macOS 14 and later *)

Section SingleFrameFacts.

Ltac all_answers a :=
  destruct a as [[[iw ih]|] [e|] [|] [pb|] [|] [|] [h|]].

(** X16: whatever the frameworks answer, [-captureSingleFrame:] on macOS
    14 calls the completion handler it is given exactly once, and never with
    both a sample buffer and an error.  The method says NO exactly when there is
    no content filter, and the handler then gets the error -1.  The
    handler gets neither a sample buffer nor an error exactly when the
    screenshot was taken and the pixel buffer made, but the format
    description or the sample buffer could not be made. *)
Theorem single_frame_handler_called_once (contentFilter : bool) (s : ApolloScreenCapture)
  (a : screenshot_answers) :
  let run := captureSingleFrame_macOS14 contentFilter s true a in
  exists sampleBuffer error,
    handler_calls (snd run) = [(sampleBuffer, error)] /\
    (is_Some sampleBuffer -> error = None) /\
    fst run = contentFilter /\
    (contentFilter = false -> snd run = [completionHandler_called None (Some (-1))]) /\
    (sampleBuffer = None /\ error = None <->
       contentFilter = true /\ shot_error a = None /\ is_Some (shot_image a) /\
       CVPixelBufferCreate_success a = true /\ is_Some (CVPixelBufferCreate_buffer a) /\
       (CMVideoFormatDescriptionCreate_made a = false \/ CMSampleBufferCreate_made a = None)).
Proof.
  intros run; subst run.
  destruct contentFilter; all_answers a; cbn;
    eexists _, _; (split; [reflexivity|]);
    (split; [intros [x Hx]; congruence|]);
    (split; [reflexivity|]);
    (split; [intros; congruence|]);
    (split;
     [ intros [H1 H2]; try discriminate;
       repeat split; eauto
     | intros (H1 & H2 & [x H3] & H4 & [y H5] & [H6|H6]); try discriminate ]);
    try (split; reflexivity); try discriminate.
Qed.

(** X17: a sample buffer that reaches the completion handler wraps a
    32BGRA pixel buffer made for the size of the screenshot, whatever pixel
    format the session has and puts in the screenshot's configuration; the
    block gave up its own reference to the pixel buffer before the call, and
    releases the sample buffer right after it, as the last thing it does. *)
Theorem single_frame_buffer_is_bgra (contentFilter : bool) (s : ApolloScreenCapture)
  (a : screenshot_answers) (sampleBuffer : CMSampleBufferRef) (error : option Z) :
  In (completionHandler_called (Some sampleBuffer) error)
     (snd (captureSingleFrame_macOS14 contentFilter s true a)) ->
  exists width height drawing,
    shot_image a = Some (width, height) /\
    is_Some (CVPixelBufferCreate_buffer a) /\
    sb_image_buffer sampleBuffer = CVPixelBufferCreate_buffer a /\
    snd (captureSingleFrame_macOS14 contentFilter s true a) =
      captureImageWithFilter {| shot_width := to_size_t (frameWidth s);
                                shot_height := to_size_t (frameHeight s);
                                shot_pixelFormat := pixelFormat s;
                                shot_showsCursor := true |}
      :: CVPixelBufferCreate_called width height kCVPixelFormatType_32BGRA
      :: drawing
      ++ [CVPixelBufferRelease_called;
          completionHandler_called (Some sampleBuffer) None;
          CFRelease_sampleBuffer] /\
    count_call is_handler_call drawing = 0%nat.
Proof.
  intros Hin.
  exists (fst (default (0, 0) (shot_image a))), (snd (default (0, 0) (shot_image a))),
    ([CVPixelBufferLockBaseAddress_called; CGColorSpaceCreateDeviceRGB_called]
     ++ (if CGBitmapContextCreate_made a
         then [CGContextDrawImage_called; CGContextRelease_called] else [])
     ++ [CGColorSpaceRelease_called; CVPixelBufferUnlockBaseAddress_called;
         CFRelease_formatDescription]).
  destruct contentFilter; all_answers a; cbn in Hin;
    repeat (destruct Hin as [Hin|Hin]; [try discriminate|]); try contradiction;
    injection Hin as <- <-; cbn; repeat split; eauto.
Qed.

(** The bi-planar session gets [frame_1080p], a 32BGRA buffer. *)
Lemma single_frame_buffer_is_bgra_witness :
  exists width height drawing,
    shot_image sample_answers = Some (width, height) /\
    is_Some (CVPixelBufferCreate_buffer sample_answers) /\
    sb_image_buffer frame_1080p = CVPixelBufferCreate_buffer sample_answers /\
    snd (captureSingleFrame_macOS14 true biplanar_session true sample_answers) =
      captureImageWithFilter {| shot_width := to_size_t (frameWidth biplanar_session);
                                shot_height := to_size_t (frameHeight biplanar_session);
                                shot_pixelFormat := pixelFormat biplanar_session;
                                shot_showsCursor := true |}
      :: CVPixelBufferCreate_called width height kCVPixelFormatType_32BGRA
      :: drawing
      ++ [CVPixelBufferRelease_called;
          completionHandler_called (Some frame_1080p) None;
          CFRelease_sampleBuffer] /\
    count_call is_handler_call drawing = 0%nat.
Proof.
  apply (single_frame_buffer_is_bgra true biplanar_session sample_answers frame_1080p None).
  vm_compute. tauto.
Defined.
End SingleFrameFacts.
